(** * adptbx: handling of atomic displacement parameters

    A shallow embedding of the cctbx ADP toolbox header (namespace
    [adptbx]): the conversions between the representations of an
    anisotropic displacement tensor, the Debye-Waller factors, the analytic
    eigenvalue solver (Cardan's formula) and the eigenvector solver (power
    iteration on the tensor and on its inverse).

    The header is a family of templates over [FloatType].  The embedding
    keeps that parameter: every function is written once, over a class of
    arithmetic operations, and is then read at two instances,

    - [Binary64.binary64], IEEE-754 double precision (the kernel's
      primitive floats), which is what the compiled code computes with,
      signed zeros, infinities and NaN included;
    - [Exact.exact], the real numbers, which is the arithmetic the algebraic
      identities of the toolbox are stated in.  *)

From Stdlib Require Import ZArith Bool String List Lia.
From Stdlib Require Import Floats.
From Stdlib Require Import Reals Lra.
From Stdlib Require Import Permutation.

Set Implicit Arguments.

(** ** The numeric parameter *)

(** The operations the header applies to a [FloatType]: the arithmetic
    operators, the comparisons it branches on, the conversion of an [int]
    (integer and whole-number literals, products of Miller indices), the
    square root and the constant [constants::pi]. *)
Class FloatType (F : Type) : Type := {
  of_int : Z -> F;
  add : F -> F -> F;
  sub : F -> F -> F;
  mul : F -> F -> F;
  div : F -> F -> F;
  neg : F -> F;
  eqb : F -> F -> bool;
  leb : F -> F -> bool;
  ltb : F -> F -> bool;
  pi : F;
  std_sqrt : F -> F
}.

(** The other <cmath> functions the header calls.  They are kept apart
    from the arithmetic because, unlike it, they are not fixed by IEEE 754:
    they are whatever the C++ runtime provides. *)
Class Cmath (F : Type) : Type := {
  std_exp : F -> F;
  std_cos : F -> F;
  std_acos : F -> F;
  std_pow : F -> F -> F
}.

Declare Scope fl_scope.
Delimit Scope fl_scope with fl.
Notation "x + y" := (add x y) : fl_scope.
Notation "x - y" := (sub x y) : fl_scope.
Notation "x * y" := (mul x y) : fl_scope.
Notation "x / y" := (div x y) : fl_scope.
Notation "- x" := (neg x) : fl_scope.
Notation "x ==? y" := (eqb x y) (at level 70, no associativity) : fl_scope.
Notation "x <=? y" := (leb x y) (at level 70, no associativity) : fl_scope.
Notation "x <? y" := (ltb x y) (at level 70, no associativity) : fl_scope.
Notation "# z" := (of_int z%Z) (at level 1, format "# z") : fl_scope.

(** ** Fixed-size arrays

    [boost::array<T, N>] for the three sizes the header uses.  Projection
    [x_i], [a_i], [m_i] is element [i]; a 3x3 matrix is stored by rows. *)

Record array3 (T : Type) : Type := mk3 { x0 : T; x1 : T; x2 : T }.
Record array6 (T : Type) : Type :=
  mk6 { a0 : T; a1 : T; a2 : T; a3 : T; a4 : T; a5 : T }.
Record array9 (T : Type) : Type :=
  mk9 { m0 : T; m1 : T; m2 : T; m3 : T; m4 : T; m5 : T; m6 : T; m7 : T; m8 : T }.

(** Element access by a run-time index ([V[iLarge]], [absMV[iMax]]). *)
Inductive index3 : Type := I0 | I1 | I2.

Definition get3 {T} (v : array3 T) (i : index3) : T :=
  match i with I0 => x0 v | I1 => x1 v | I2 => x2 v end.

Definition set3 {T} (v : array3 T) (i : index3) (t : T) : array3 T :=
  match i with
  | I0 => mk3 t (x1 v) (x2 v)
  | I1 => mk3 (x0 v) t (x2 v)
  | I2 => mk3 (x0 v) (x1 v) t
  end.

Definition assign3 {T} (t : T) : array3 T := mk3 t t t.
Definition assign6 {T} (t : T) : array6 T := mk6 t t t t t t.

Definition map3 {A B} (f : A -> B) (v : array3 A) : array3 B :=
  mk3 (f (x0 v)) (f (x1 v)) (f (x2 v)).
Definition map6 {A B} (f : A -> B) (v : array6 A) : array6 B :=
  mk6 (f (a0 v)) (f (a1 v)) (f (a2 v)) (f (a3 v)) (f (a4 v)) (f (a5 v)).
Definition map9 {A B} (f : A -> B) (m : array9 A) : array9 B :=
  mk9 (f (m0 m)) (f (m1 m)) (f (m2 m)) (f (m3 m)) (f (m4 m)) (f (m5 m))
      (f (m6 m)) (f (m7 m)) (f (m8 m)).

(** ** Failures

    The header fails in three syntactically different ways, kept apart
    here: it throws the static object [not_positive_definite], it throws
    [cctbx_internal_error()], and it states conditions with
    [cctbx_assert(...)].  The two macros come from the cctbx error header,
    which is not among the sources at hand.  They belong to the library at
    large and are defined before this header is read, so what they throw
    is not the object [not_positive_definite] that this header declares;
    an assertion that does not hold is recorded with the text of its
    condition. *)
Inductive error : Type :=
| not_positive_definite
| cctbx_internal_error
| cctbx_assert_failure (condition : string).

(** The outcome of a call.  [OutOfFuel] belongs to the model only: it is
    what a loop of the model answers when the number of iterations it was
    allowed is used up before the loop of the source has finished. *)
Inductive outcome (A : Type) : Type :=
| Returns (a : A)
| Throws (e : error)
| OutOfFuel.
Arguments Returns {A} a.
Arguments Throws {A} e.
Arguments OutOfFuel {A}.

Definition bind {A B} (c : outcome A) (k : A -> outcome B) : outcome B :=
  match c with
  | Returns a => k a
  | Throws e => Throws e
  | OutOfFuel => OutOfFuel
  end.

Notation "x <- c ;; k" := (bind c (fun x => k))
  (at level 61, c at next level, right associativity).
Notation "c ;;; k" := (bind c (fun _ => k))
  (at level 61, right associativity).

Definition throw {A} (e : error) : outcome A := Throws e.

Definition cctbx_assert (condition : bool) (text : string) : outcome unit :=
  if condition then Returns tt else Throws (cctbx_assert_failure text).

(** ** Collaborating value types *)

(** [Miller::Index]: three [int]s.  Products of indices are taken in [Z];
    the C++ [int] agrees with that as long as they do not overflow. *)
Definition Miller_Index : Type := array3 Z.

(** [uctbx::UnitCell], as far as the toolbox reads it: the cell lengths
    ([getLen(true)] is the reciprocal cell), the two change-of-basis
    matrices and [Q], the squared length of a reciprocal-lattice vector. *)
Record UnitCell (F : Type) : Type := {
  getLen : bool -> array3 F;
  getFractionalizationMatrix : array9 F;
  getOrthogonalizationMatrix : array9 F;
  Q : Miller_Index -> F
}.

(** ** Array arithmetic *)

Section Carray.

Context {F : Type} {FT : FloatType F}.
Local Open Scope fl_scope.

(** Modelled from the spec: the array operators of the carray header
    (element-wise scaling and negation, [array_abs], [array_max_index]) are
    not among the sources.  [operator*] of two arrays is the scalar
    product, as [Length2] in coordinates.h documents; the sum is
    accumulated from zero.  [array_max_index] is the first position holding
    a largest element. *)
Definition scale3 (s : F) (v : array3 F) : array3 F := map3 (fun x => s * x) v.
Definition scale6 (s : F) (v : array6 F) : array6 F := map6 (fun x => s * x) v.
Definition div3 (v : array3 F) (s : F) : array3 F := map3 (fun x => x / s) v.
Definition div6 (v : array6 F) (s : F) : array6 F := map6 (fun x => x / s) v.
Definition div9 (m : array9 F) (s : F) : array9 F := map9 (fun x => x / s) m.
Definition neg3 (v : array3 F) : array3 F := map3 neg v.

Definition dot3 (u v : array3 F) : F :=
  #0 + x0 u * x0 v + x1 u * x1 v + x2 u * x2 v.

Definition fabs (x : F) : F := if x <? #0 then - x else x.
Definition array_abs (v : array3 F) : array3 F := map3 fabs v.

Definition array_max_index (v : array3 F) : index3 :=
  let i := if x0 v <? x1 v then I1 else I0 in
  if get3 v i <? x2 v then I2 else i.

End Carray.

(** ** MatrixLite *)

Module MatrixLite.

Section Ops.

Context {F : Type} {FT : FloatType F}.
Local Open Scope fl_scope.

(** Modelled from the spec: the matrixlite header is not among the
    sources.  [multiply] is the row-by-column product with each entry
    accumulated from zero, [transpose], [Determinant] (expansion along the
    first row), [CoFactorMxTp] (the transposed matrix of cofactors),
    [DiagonalElements] and [cross_product] are the textbook 3x3 formulas,
    and [approx_equal] holds when no pair of corresponding elements differs
    by more than the tolerance. *)
Definition multiply_33_33 (A B : array9 F) : array9 F :=
  let e (ai aj ak bi bj bk : F) := #0 + ai * bi + aj * bj + ak * bk in
  mk9 (e (m0 A) (m1 A) (m2 A) (m0 B) (m3 B) (m6 B))
      (e (m0 A) (m1 A) (m2 A) (m1 B) (m4 B) (m7 B))
      (e (m0 A) (m1 A) (m2 A) (m2 B) (m5 B) (m8 B))
      (e (m3 A) (m4 A) (m5 A) (m0 B) (m3 B) (m6 B))
      (e (m3 A) (m4 A) (m5 A) (m1 B) (m4 B) (m7 B))
      (e (m3 A) (m4 A) (m5 A) (m2 B) (m5 B) (m8 B))
      (e (m6 A) (m7 A) (m8 A) (m0 B) (m3 B) (m6 B))
      (e (m6 A) (m7 A) (m8 A) (m1 B) (m4 B) (m7 B))
      (e (m6 A) (m7 A) (m8 A) (m2 B) (m5 B) (m8 B)).

Definition multiply_33_31 (A : array9 F) (V : array3 F) : array3 F :=
  let e (ai aj ak : F) := #0 + ai * x0 V + aj * x1 V + ak * x2 V in
  mk3 (e (m0 A) (m1 A) (m2 A))
      (e (m3 A) (m4 A) (m5 A))
      (e (m6 A) (m7 A) (m8 A)).

Definition transpose (A : array9 F) : array9 F :=
  mk9 (m0 A) (m3 A) (m6 A) (m1 A) (m4 A) (m7 A) (m2 A) (m5 A) (m8 A).

Definition Determinant (M : array9 F) : F :=
    m0 M * (m4 M * m8 M - m5 M * m7 M)
  - m1 M * (m3 M * m8 M - m5 M * m6 M)
  + m2 M * (m3 M * m7 M - m4 M * m6 M).

Definition CoFactorMxTp (M : array9 F) : array9 F :=
  mk9 (m4 M * m8 M - m5 M * m7 M)
      (m2 M * m7 M - m1 M * m8 M)
      (m1 M * m5 M - m2 M * m4 M)
      (m5 M * m6 M - m3 M * m8 M)
      (m0 M * m8 M - m2 M * m6 M)
      (m2 M * m3 M - m0 M * m5 M)
      (m3 M * m7 M - m4 M * m6 M)
      (m1 M * m6 M - m0 M * m7 M)
      (m0 M * m4 M - m1 M * m3 M).

Definition DiagonalElements (M : array9 F) : array3 F :=
  mk3 (m0 M) (m4 M) (m8 M).

Definition cross_product (u v : array3 F) : array3 F :=
  mk3 (x1 u * x2 v - x2 u * x1 v)
      (x2 u * x0 v - x0 u * x2 v)
      (x0 u * x1 v - x1 u * x0 v).

Definition approx_equal_scaled (x y tolerance : F) : bool :=
  fabs (x - y) <=? tolerance.

Definition approx_equal (u v : array3 F) (tolerance : F) : bool :=
  approx_equal_scaled (x0 u) (x0 v) tolerance
  && approx_equal_scaled (x1 u) (x1 v) tolerance
  && approx_equal_scaled (x2 u) (x2 v) tolerance.

End Ops.

End MatrixLite.

(** ** The toolbox *)

Section Adptbx.

Context {F : Type} {FT : FloatType F} {CM : Cmath F}.
Local Open Scope fl_scope.

(** *** Constants *)

Definition TwoPiSquared : F := #2 * pi * pi.
Definition EightPiSquared : F := #8 * pi * pi.

(** *** Symmetric matrices and congruence transforms *)

Definition Xaniso_as_SymMx33 (Xaniso : array6 F) : array9 F :=
  mk9 (a0 Xaniso) (a3 Xaniso) (a4 Xaniso)
      (a3 Xaniso) (a1 Xaniso) (a5 Xaniso)
      (a4 Xaniso) (a5 Xaniso) (a2 Xaniso).

Definition SymMx33_as_Xaniso (M : array9 F) : array6 F :=
  mk6 (m0 M) (m4 M) (m8 M) (m1 M) (m2 M) (m5 M).

Definition A_X_At (A X : array9 F) : array9 F :=
  let AX := MatrixLite.multiply_33_33 A X in
  let At := MatrixLite.transpose A in
  MatrixLite.multiply_33_33 AX At.

Definition A_Xaniso_At (A : array9 F) (Xaniso : array6 F) : array6 F :=
  let X := Xaniso_as_SymMx33 Xaniso in
  SymMx33_as_Xaniso (A_X_At A X).

(** *** Conversions between the representations

    C++ overloads share a name; here the six-component overload of
    [U_as_B] and [B_as_U] carries the suffix [_aniso], and the overloads of
    the isotropic Debye-Waller factors that take a unit cell and a Miller
    index carry the suffix [_uc]. *)

Definition U_as_B (Uiso : F) : F := Uiso * EightPiSquared.
Definition B_as_U (Biso : F) : F := Biso / EightPiSquared.
Definition U_as_B_aniso (Uaniso : array6 F) : array6 F :=
  scale6 EightPiSquared Uaniso.
Definition B_as_U_aniso (Baniso : array6 F) : array6 F :=
  scale6 (#1 / EightPiSquared) Baniso.

Definition Uuvrs_as_Ustar (uc : UnitCell F) (Uuvrs : array6 F) : array6 F :=
  let R_Len := getLen uc true in
  mk6 (a0 Uuvrs * (x0 R_Len * x0 R_Len))
      (a1 Uuvrs * (x1 R_Len * x1 R_Len))
      (a2 Uuvrs * (x2 R_Len * x2 R_Len))
      (a3 Uuvrs * (x0 R_Len * x1 R_Len))
      (a4 Uuvrs * (x0 R_Len * x2 R_Len))
      (a5 Uuvrs * (x1 R_Len * x2 R_Len)).

Definition Ustar_as_Uuvrs (uc : UnitCell F) (Ustar : array6 F) : array6 F :=
  let R_Len := getLen uc true in
  mk6 (a0 Ustar / (x0 R_Len * x0 R_Len))
      (a1 Ustar / (x1 R_Len * x1 R_Len))
      (a2 Ustar / (x2 R_Len * x2 R_Len))
      (a3 Ustar / (x0 R_Len * x1 R_Len))
      (a4 Ustar / (x0 R_Len * x2 R_Len))
      (a5 Ustar / (x1 R_Len * x2 R_Len)).

Definition Ucart_as_Ustar (uc : UnitCell F) (Ucart : array6 F) : array6 F :=
  A_Xaniso_At (getFractionalizationMatrix uc) Ucart.
Definition Ustar_as_Ucart (uc : UnitCell F) (Ustar : array6 F) : array6 F :=
  A_Xaniso_At (getOrthogonalizationMatrix uc) Ustar.

Definition Ucart_as_Uuvrs (uc : UnitCell F) (Ucart : array6 F) : array6 F :=
  Ustar_as_Uuvrs uc (Ucart_as_Ustar uc Ucart).
Definition Uuvrs_as_Ucart (uc : UnitCell F) (Uuvrs : array6 F) : array6 F :=
  Ustar_as_Ucart uc (Uuvrs_as_Ustar uc Uuvrs).

Definition Ustar_as_beta (Ustar : array6 F) : array6 F :=
  scale6 TwoPiSquared Ustar.
Definition beta_as_Ustar (beta : array6 F) : array6 F :=
  div6 beta TwoPiSquared.

Definition Ucart_as_beta (uc : UnitCell F) (Ucart : array6 F) : array6 F :=
  Ustar_as_beta (Ucart_as_Ustar uc Ucart).
Definition beta_as_Ucart (uc : UnitCell F) (beta : array6 F) : array6 F :=
  Ustar_as_Ucart uc (beta_as_Ustar beta).
Definition Uuvrs_as_beta (uc : UnitCell F) (Uuvrs : array6 F) : array6 F :=
  Ustar_as_beta (Uuvrs_as_Ustar uc Uuvrs).
Definition beta_as_Uuvrs (uc : UnitCell F) (beta : array6 F) : array6 F :=
  Ustar_as_Uuvrs uc (beta_as_Ustar beta).

Definition Ucart_as_Uiso (Ucart : array6 F) : F :=
  (a0 Ucart + a1 Ucart + a2 Ucart) / #3.

Definition Uiso_as_Ucart (Uiso : F) : array6 F :=
  let result := assign6 #0 in
  mk6 Uiso Uiso Uiso (a3 result) (a4 result) (a5 result).

Definition Uuvrs_as_Uiso (uc : UnitCell F) (Uuvrs : array6 F) : F :=
  Ucart_as_Uiso (Uuvrs_as_Ucart uc Uuvrs).
Definition Uiso_as_Uuvrs (uc : UnitCell F) (Uiso : F) : array6 F :=
  Ucart_as_Uuvrs uc (Uiso_as_Ucart Uiso).

(** *** Debye-Waller factors *)

Definition DebyeWallerFactorBiso (stol2 Biso : F) : F :=
  std_exp (- Biso * stol2).
Definition DebyeWallerFactorUiso (stol2 Uiso : F) : F :=
  DebyeWallerFactorBiso stol2 (U_as_B Uiso).
Definition DebyeWallerFactorBiso_uc
    (uc : UnitCell F) (MIx : Miller_Index) (Biso : F) : F :=
  DebyeWallerFactorBiso (Q uc MIx / #4) Biso.
Definition DebyeWallerFactorUiso_uc
    (uc : UnitCell F) (MIx : Miller_Index) (Uiso : F) : F :=
  DebyeWallerFactorBiso_uc uc MIx (U_as_B Uiso).

Definition DebyeWallerFactorUstar (MIx : Miller_Index) (Ustar : array6 F) : F :=
  std_exp (- TwoPiSquared * (
      #(x0 MIx * x0 MIx) * a0 Ustar
    + #(x1 MIx * x1 MIx) * a1 Ustar
    + #(x2 MIx * x2 MIx) * a2 Ustar
    + #(2 * x0 MIx * x1 MIx) * a3 Ustar
    + #(2 * x0 MIx * x2 MIx) * a4 Ustar
    + #(2 * x1 MIx * x2 MIx) * a5 Ustar)).

Definition DebyeWallerFactor_beta (MIx : Miller_Index) (beta : array6 F) : F :=
  std_exp (- (
      #(x0 MIx * x0 MIx) * a0 beta
    + #(x1 MIx * x1 MIx) * a1 beta
    + #(x2 MIx * x2 MIx) * a2 beta
    + #(2 * x0 MIx * x1 MIx) * a3 beta
    + #(2 * x0 MIx * x2 MIx) * a4 beta
    + #(2 * x1 MIx * x2 MIx) * a5 beta)).

Definition DebyeWallerFactorUuvrs
    (uc : UnitCell F) (MIx : Miller_Index) (Uuvrs : array6 F) : F :=
  DebyeWallerFactorUstar MIx (Uuvrs_as_Ustar uc Uuvrs).
Definition DebyeWallerFactorUcart
    (uc : UnitCell F) (MIx : Miller_Index) (Ucart : array6 F) : F :=
  DebyeWallerFactorUstar MIx (Ucart_as_Ustar uc Ucart).

(** *** Eigenvalues (Cardan's formula) *)

(** The coefficients of the normal form x^3 + r x^2 + s x + t = 0 and of
    the reduced form y^3 + p y + q = 0, and the quantity [D] that the
    solver tests. *)
Definition cubic_r (adp : array6 F) : F := - a0 adp - a1 adp - a2 adp.
Definition cubic_s (adp : array6 F) : F :=
    a0 adp * a1 adp + a0 adp * a2 adp + a1 adp * a2 adp
  - a3 adp * a3 adp - a4 adp * a4 adp - a5 adp * a5 adp.
Definition cubic_t (adp : array6 F) : F :=
    a0 adp * a5 adp * a5 adp - a0 adp * a1 adp * a2 adp
  + a2 adp * a3 adp * a3 adp + a1 adp * a4 adp * a4 adp
  - #2 * a3 adp * a4 adp * a5 adp.
Definition cubic_p (adp : array6 F) : F :=
  let r := cubic_r adp in
  cubic_s adp - r * r / #3.
Definition cubic_q (adp : array6 F) : F :=
  let r := cubic_r adp in
  #2 * r * r * r / #27 - r * cubic_s adp / #3 + cubic_t adp.
Definition cubic_p3 (adp : array6 F) : F :=
  let p := cubic_p adp in p * p * p.
Definition cubic_D (adp : array6 F) : F :=
  let q := cubic_q adp in
  let q2 := q * q in
  cubic_p3 adp / #27 + q2 / #4.

(** [result[i]] as the loop of [Eigenvalues] computes it. *)
Definition cardan_root (adp : array6 F) (i : Z) : F :=
  let r := cubic_r adp in
  let q := cubic_q adp in
  let zeta := std_sqrt (- cubic_p3 adp / #27) in
  let phi := std_acos (- q / (#2 * zeta)) in
  let rzeta := #2 * std_pow zeta (#1 / #3) in
  rzeta * std_cos ((phi + #(i * 2) * pi) / #3) - r / #3.

Definition Eigenvalues (adp : array6 F) : outcome (array3 F) :=
  let D := cubic_D adp in
  cctbx_assert (D <=? #0) "D <= 0." ;;;
  let result0 := cardan_root adp 0 in
  if result0 <=? #0 then throw not_positive_definite else
  let result1 := cardan_root adp 1 in
  if result1 <=? #0 then throw not_positive_definite else
  let result2 := cardan_root adp 2 in
  if result2 <=? #0 then throw not_positive_definite else
  Returns (mk3 result0 result1 result2).

(** *** Eigenvectors (power iteration) *)

(** The literal [1.e-6]: the default of both tolerance arguments.  One
    millionth is written as a quotient of two whole numbers; in binary64 the
    correctly rounded quotient is the double the literal denotes. *)
Definition default_tolerance : F := #1 / #1000000.

(** [detail::recursively_multiply].  The [for (;;)] loop is unrolled [fuel]
    times; [RunAwayCounter] is the counter of the source (an [unsigned int]
    that never passes 1001). *)
Fixpoint recursively_multiply_loop (fuel : nat) (M : array9 F) (tolerance : F)
    (V : array3 F) (RunAwayCounter : N) {struct fuel} : outcome (array3 F) :=
  match fuel with
  | O => OutOfFuel
  | S fuel' =>
      let MV := MatrixLite.multiply_33_31 M V in
      let abs_lambda := std_sqrt (dot3 MV MV) in
      if abs_lambda ==? #0 then Returns MV else
      let MV := div3 MV abs_lambda in
      let absMV := array_abs MV in
      let iMax := array_max_index absMV in
      let scaled_tolerance := get3 absMV iMax * tolerance in
      if MatrixLite.approx_equal MV (neg3 V) scaled_tolerance
      then throw not_positive_definite (* lambda < 0 *) else
      let converged := MatrixLite.approx_equal MV V scaled_tolerance in
      let V := MV in
      if converged then Returns V else
      let RunAwayCounter := (RunAwayCounter + 1)%N in
      if (1000 <? RunAwayCounter)%N then throw cctbx_internal_error else
      recursively_multiply_loop fuel' M tolerance V RunAwayCounter
  end.

Definition recursively_multiply (fuel : nat) (M : array9 F) (V : array3 F)
    (tolerance : F) : outcome (array3 F) :=
  recursively_multiply_loop fuel M tolerance V 0%N.

(** [Eigenvectors], with the routine that iterates left open: [power M V]
    stands for the call [detail::recursively_multiply(M[iM], V)]. *)
Section EigenvectorsWith.

Variable power : array9 F -> array3 F -> outcome (array3 F).

(** The body of the loop over [iM]. *)
Definition extremal_eigenvector (M : array9 F) : outcome (array3 F) :=
  let Diag := MatrixLite.DiagonalElements M in
  let iLarge := array_max_index (array_abs Diag) in
  let V := set3 (assign3 #0) iLarge #1 in
  result_iM <- power M V ;;
  if dot3 result_iM result_iM ==? #0 then throw not_positive_definite else
  Returns result_iM.

Definition Eigenvectors_with (adp : array6 F) : outcome (array3 (array3 F)) :=
  let M_0 := Xaniso_as_SymMx33 adp in
  let d := MatrixLite.Determinant M_0 in
  if d ==? #0 then throw not_positive_definite else
  let M_1 := div9 (MatrixLite.CoFactorMxTp M_0) d in
  result_0 <- extremal_eigenvector M_0 ;;
  result_1 <- extremal_eigenvector M_1 ;;
  let result_2 := MatrixLite.cross_product result_0 result_1 in
  cctbx_assert (negb (dot3 result_2 result_2 ==? #0))
               "result[2] * result[2] != 0." ;;;
  Returns (mk3 result_0 result_1 result_2).

End EigenvectorsWith.

(** [Eigenvectors(adp, tolerance)]: the call of the source passes two
    arguments to [recursively_multiply], so the third takes its default. *)
Definition Eigenvectors (fuel : nat) (adp : array6 F) (tolerance : F)
    : outcome (array3 (array3 F)) :=
  Eigenvectors_with
    (fun M V => recursively_multiply fuel M V default_tolerance) adp.

End Adptbx.

(** ** IEEE-754 double precision *)

Module Binary64.

(** The <cmath> functions of the C++ runtime.  Their values at ordinary
    arguments are left open (a [Libm] can be any four functions);
    what is written out are the special cases that IEEE 754 and Annex F of
    the C standard fix and that the toolbox can reach: a NaN argument gives
    NaN, [exp] of a zero is one, and [pow] of a zero to a power strictly
    between zero and one is the positive zero. *)
Record Libm : Type := {
  libm_exp : float -> float;
  libm_cos : float -> float;
  libm_acos : float -> float;
  libm_pow : float -> float -> float
}.

Definition int_to_double (z : Z) : float :=
  match z with
  | Z0 => PrimFloat.zero
  | Zpos _ => PrimFloat.of_uint63 (Uint63.of_Z z)
  | Zneg p => PrimFloat.opp (PrimFloat.of_uint63 (Uint63.of_Z (Zpos p)))
  end.

Definition exp_double (m : Libm) (x : float) : float :=
  if PrimFloat.is_nan x then PrimFloat.nan
  else if PrimFloat.eqb x PrimFloat.zero then PrimFloat.one
  else libm_exp m x.

Definition cos_double (m : Libm) (x : float) : float :=
  if PrimFloat.is_nan x then PrimFloat.nan else libm_cos m x.

Definition acos_double (m : Libm) (x : float) : float :=
  if PrimFloat.is_nan x then PrimFloat.nan else libm_acos m x.

Definition pow_double (m : Libm) (x y : float) : float :=
  if PrimFloat.is_nan x || PrimFloat.is_nan y then
    (if PrimFloat.eqb y PrimFloat.zero then PrimFloat.one
     else if PrimFloat.eqb x PrimFloat.one then PrimFloat.one
     else PrimFloat.nan)
  else if PrimFloat.eqb x PrimFloat.zero
          && PrimFloat.ltb PrimFloat.zero y && PrimFloat.ltb y PrimFloat.one
  then PrimFloat.zero
  else libm_pow m x y.

(** The doubles that are neither infinite nor NaN, and the two zeros
    among them, read off the IEEE-754 encoding. *)
Definition finite (x : float) : bool :=
  match Prim2SF x with
  | S754_zero _ | S754_finite _ _ _ => true
  | S754_infinity _ | S754_nan => false
  end.

Definition is_zero (x : float) : bool :=
  match Prim2SF x with
  | S754_zero _ => true
  | _ => false
  end.

Definition finite6 (T : array6 float) : bool :=
  finite (a0 T) && finite (a1 T) && finite (a2 T)
  && finite (a3 T) && finite (a4 T) && finite (a5 T).

(** [constants::pi]: the double nearest to pi. *)
Definition pi_double : float := 0x1.921fb54442d18p+1%float.

#[global] Instance binary64 : FloatType float := {|
  of_int := int_to_double;
  add := PrimFloat.add;
  sub := PrimFloat.sub;
  mul := PrimFloat.mul;
  div := PrimFloat.div;
  neg := PrimFloat.opp;
  eqb := PrimFloat.eqb;
  leb := PrimFloat.leb;
  ltb := PrimFloat.ltb;
  pi := pi_double;
  std_sqrt := PrimFloat.sqrt
|}.

Definition cmath (m : Libm) : Cmath float := {|
  std_exp := exp_double m;
  std_cos := cos_double m;
  std_acos := acos_double m;
  std_pow := pow_double m
|}.

End Binary64.

(** ** Exact arithmetic *)

Module Exact.

(** The real numbers.  The comparisons are decided classically.  The
    library's [/], [sqrt] and [acos] are total: where the double-precision
    operation would answer NaN (a zero divisor, a negative radicand, an
    argument of [acos] outside [-1, 1]) they answer some real number that
    means nothing, and no statement below rests on such a value. *)
Definition Reqb (x y : R) : bool := if Req_dec_T x y then true else false.
Definition Rleb (x y : R) : bool := if Rle_dec x y then true else false.
Definition Rltb (x y : R) : bool := if Rlt_dec x y then true else false.

Definition Rpow (x y : R) : R :=
  if Req_dec_T x 0 then 0%R else Rpower x y.

#[global] Instance exact : FloatType R := {|
  of_int := IZR;
  add := Rplus;
  sub := Rminus;
  mul := Rmult;
  div := Rdiv;
  neg := Ropp;
  eqb := Reqb;
  leb := Rleb;
  ltb := Rltb;
  pi := PI;
  std_sqrt := sqrt
|}.

#[global] Instance exact_cmath : Cmath R := {|
  std_exp := Rtrigo_def.exp;
  std_cos := Rtrigo_def.cos;
  std_acos := Ratan.acos;
  std_pow := Rpow
|}.

End Exact.

(** ** The standard model of rounding

    Double precision with overflow and underflow left out: an arithmetic
    operation returns its exact result rounded by a function [rnd], and so
    do the square root and the constant [constants::pi].  The change of
    sign is exact, and so is the conversion of an [int] (every 32-bit
    [int] is a double).  IEEE 754 arithmetic follows this model, with a
    relative error of at most 2^-53 in each rounding, as long as no result
    leaves the range of the normal numbers. *)
Module Rounded.

Definition rounded (rnd : R -> R) : FloatType R := {|
  of_int := IZR;
  add := fun x y => rnd (x + y)%R;
  sub := fun x y => rnd (x - y)%R;
  mul := fun x y => rnd (x * y)%R;
  div := fun x y => rnd (x / y)%R;
  neg := Ropp;
  eqb := Exact.Reqb;
  leb := Exact.Rleb;
  ltb := Exact.Rltb;
  pi := rnd PI;
  std_sqrt := fun x => rnd (sqrt x)
|}.

(** A rounding that is not the identity: every result comes out too large
    by one part in 1024. *)
Definition one_part_in_1024 (x : R) : R := (x * (1 + / 1024))%R.

End Rounded.

(** [x] reproduces [y] within the relative tolerance [tol]. *)
Definition within (tol x y : R) : Prop := (Rabs (x - y) <= tol * Rabs y)%R.

Definition within6 (tol : R) (X Y : array6 R) : Prop :=
  within tol (a0 X) (a0 Y) /\ within tol (a1 X) (a1 Y)
  /\ within tol (a2 X) (a2 Y) /\ within tol (a3 X) (a3 Y)
  /\ within tol (a4 X) (a4 Y) /\ within tol (a5 X) (a5 Y).

(** ** The power iteration, pass by pass

    The quantities one pass of the loop of [recursively_multiply] computes,
    named so that statements can refer to them. *)

Section Passes.

Context {F : Type} {FT : FloatType F}.
Local Open Scope fl_scope.

Variable M : array9 F.
Variable tolerance : F.

(** [abs_lambda == 0.] *)
Definition product_is_zero (V : array3 F) : bool :=
  let MV := MatrixLite.multiply_33_31 M V in
  std_sqrt (dot3 MV MV) ==? #0.

(** [MV] after [MV = MV / abs_lambda]. *)
Definition normalized_product (V : array3 F) : array3 F :=
  let MV := MatrixLite.multiply_33_31 M V in
  div3 MV (std_sqrt (dot3 MV MV)).

Definition scaled_tolerance (V : array3 F) : F :=
  let absMV := array_abs (normalized_product V) in
  get3 absMV (array_max_index absMV) * tolerance.

(** The two stopping criteria. *)
Definition negative_convergence (V : array3 F) : bool :=
  MatrixLite.approx_equal (normalized_product V) (neg3 V) (scaled_tolerance V).
Definition convergence (V : array3 F) : bool :=
  MatrixLite.approx_equal (normalized_product V) V (scaled_tolerance V).

(** What one pass does with the iterate [V]. *)
Inductive pass : Type :=
| ZeroProduct (MV : array3 F)
| NegativeConvergence
| Convergence (V' : array3 F)
| NoConvergence (V' : array3 F).

Definition one_pass (V : array3 F) : pass :=
  if product_is_zero V then ZeroProduct (MatrixLite.multiply_33_31 M V)
  else if negative_convergence V then NegativeConvergence
  else if convergence V then Convergence (normalized_product V)
  else NoConvergence (normalized_product V).

(** The iterate after [n] passes none of which met a stopping criterion
    or found a zero product; [None] when one of them did. *)
Fixpoint unconverged (n : nat) (V : array3 F) : option (array3 F) :=
  match n with
  | O => Some V
  | S n' =>
      match one_pass V with
      | NoConvergence V' => unconverged n' V'
      | _ => None
      end
  end.

End Passes.

(** ** Inputs used in examples *)

Module Inputs.

Import Binary64.
Local Open Scope fl_scope.

(** A tensor, a matrix and a vector of doubles given by whole-number
    numerators over a common denominator. *)
Definition tensor (n0 n1 n2 n3 n4 n5 den : Z) : array6 float :=
  mk6 (#n0 / #den) (#n1 / #den) (#n2 / #den)
      (#n3 / #den) (#n4 / #den) (#n5 / #den).

Definition diagonal (n0 n1 n2 den : Z) : array9 float :=
  mk9 (#n0 / #den) #0 #0 #0 (#n1 / #den) #0 #0 #0 (#n2 / #den).

Definition vector (n0 n1 n2 : Z) : array3 float := mk3 #n0 #n1 #n2.

(** [Uiso_as_Ucart] of the double nearest to [n / den]. *)
Definition isotropic (n den : Z) : array6 float := Uiso_as_Ucart (#n / #den).

(** An orthorhombic cell in exact arithmetic, with edges 1, 1/2 and 1/3:
    the reciprocal edges are 1, 2 and 3. *)
Definition orthorhombic_cell : UnitCell R := {|
  getLen := fun reciprocal =>
    if reciprocal then mk3 1%R 2%R 3%R else mk3 1%R (1 / 2)%R (1 / 3)%R;
  getFractionalizationMatrix := mk9 1%R 0%R 0%R 0%R 2%R 0%R 0%R 0%R 3%R;
  getOrthogonalizationMatrix :=
    mk9 1%R 0%R 0%R 0%R (1 / 2)%R 0%R 0%R 0%R (1 / 3)%R;
  Q := fun MIx =>
    (IZR (x0 MIx * x0 MIx) + 4 * IZR (x1 MIx * x1 MIx)
     + 9 * IZR (x2 MIx * x2 MIx))%R
|}.

(** A tensor of real numbers given by whole numbers. *)
Definition exact_tensor (n0 n1 n2 n3 n4 n5 : Z) : array6 R :=
  mk6 (IZR n0) (IZR n1) (IZR n2) (IZR n3) (IZR n4) (IZR n5).

End Inputs.

(** Unit cells of doubles; the conversions between the fractional and the
    reciprocal-star form read [getLen] only.  At the ends of the range: a
    value whose product with 8 pi^2 overflows, and a cell whose reciprocal
    edges are not zero but have products that underflow to zero.  In the
    middle of the range: a cell with the reciprocal edges 0.3, 0.7 and
    1.1. *)
Module DoubleInputs.

Definition huge : float := 0x1p1020%float.
Definition tiny : float := 0x1p-700%float.

Local Open Scope fl_scope.

Definition tiny_reciprocal_cell : UnitCell float := {|
  getLen := fun reciprocal =>
    if reciprocal then mk3 tiny tiny tiny
    else mk3 0x1p700%float 0x1p700%float 0x1p700%float;
  getFractionalizationMatrix :=
    mk9 tiny 0%float 0%float 0%float tiny 0%float 0%float 0%float tiny;
  getOrthogonalizationMatrix :=
    mk9 0x1p700%float 0%float 0%float 0%float 0x1p700%float 0%float
        0%float 0%float 0x1p700%float;
  Q := fun MIx =>
    PrimFloat.mul
      (of_int (x0 MIx * x0 MIx + x1 MIx * x1 MIx + x2 MIx * x2 MIx)%Z)
      (PrimFloat.mul tiny tiny)
|}.

Definition ordinary_cell : UnitCell float := {|
  getLen := fun reciprocal =>
    if reciprocal then mk3 (#3 / #10) (#7 / #10) (#11 / #10)
    else mk3 (#10 / #3) (#10 / #7) (#10 / #11);
  getFractionalizationMatrix :=
    mk9 (#3 / #10) #0 #0 #0 (#7 / #10) #0 #0 #0 (#11 / #10);
  getOrthogonalizationMatrix :=
    mk9 (#10 / #3) #0 #0 #0 (#10 / #7) #0 #0 #0 (#10 / #11);
  Q := fun MIx =>
    #(x0 MIx * x0 MIx) * (#9 / #100) + #(x1 MIx * x1 MIx) * (#49 / #100)
    + #(x2 MIx * x2 MIx) * (#121 / #100)
|}.

(** [|x - y| <= 2^-51 |y|], computed in double precision: four unit
    roundoffs. *)
Definition within_double (x y : float) : bool :=
  PrimFloat.leb (PrimFloat.abs (PrimFloat.sub x y))
    (PrimFloat.mul 0x1p-51%float (PrimFloat.abs y)).

Definition within6_double (X Y : array6 float) : bool :=
  within_double (a0 X) (a0 Y) && within_double (a1 X) (a1 Y)
  && within_double (a2 X) (a2 Y) && within_double (a3 X) (a3 Y)
  && within_double (a4 X) (a4 Y) && within_double (a5 X) (a5 Y).

End DoubleInputs.

(** ** Coordinates (cctbx/coordinates.h)

    The classes [cartesian<FloatType>] and [fractional<FloatType>]: a
    [carray<FloatType, 3>] with constructors and a few member functions. *)

Module Coordinates.

Section Classes.

Context {F : Type} {FT : FloatType F}.
Local Open Scope fl_scope.

(** [std::fmod] of <cmath>. *)
Variable std_fmod : F -> F -> F.

Definition cartesian : Type := array3 F.
Definition fractional : Type := array3 F.

(** The default constructors set the three elements to zero; the others
    copy their arguments. *)
Definition cartesian_default : cartesian := mk3 #0 #0 #0.
Definition cartesian_xyz (x y z : F) : cartesian := mk3 x y z.
Definition fractional_default : fractional := mk3 #0 #0 #0.
Definition fractional_xyz (x y z : F) : fractional := mk3 x y z.

(** [Length2]: the scalar product of the vector with itself. *)
Definition Length2 (this : cartesian) : F := dot3 this this.

(** The two loops of [modPositive], [while (result[i] < 0.) result[i] += 1.]
    and [while (result[i] >= 1.) result[i] -= 1.], unrolled [fuel] times. *)
Fixpoint while_negative_add_one (fuel : nat) (result_i : F) : outcome F :=
  match fuel with
  | O => OutOfFuel
  | S fuel' =>
      if result_i <? #0 then while_negative_add_one fuel' (result_i + #1)
      else Returns result_i
  end.

Fixpoint while_not_below_one_subtract_one (fuel : nat) (result_i : F)
    : outcome F :=
  match fuel with
  | O => OutOfFuel
  | S fuel' =>
      if #1 <=? result_i
      then while_not_below_one_subtract_one fuel' (result_i - #1)
      else Returns result_i
  end.

(** The body of the loop over [i] of [modPositive]. *)
Definition modPositive_element (fuel : nat) (elems_i : F) : outcome F :=
  result_i <- while_negative_add_one fuel (std_fmod elems_i #1) ;;
  while_not_below_one_subtract_one fuel result_i.

Definition modPositive (fuel : nat) (this : fractional) : outcome fractional :=
  result_0 <- modPositive_element fuel (x0 this) ;;
  result_1 <- modPositive_element fuel (x1 this) ;;
  result_2 <- modPositive_element fuel (x2 this) ;;
  Returns (mk3 result_0 result_1 result_2).

(** The body of the loop over [i] of [modShort]. *)
Definition modShort_element (elems_i : F) : F :=
  let result_i := std_fmod elems_i #1 in
  if result_i <=? - (#1 / #2) then result_i + #1
  else if #1 / #2 <? result_i then result_i - #1
  else result_i.

Definition modShort (this : fractional) : fractional :=
  map3 modShort_element this.

End Classes.

(** [std::fmod] in exact arithmetic: [x - n y] where [n] is [x / y] with
    its fractional part cut off, so that the result has the sign of [x]. *)
Definition Rtrunc (x : R) : Z :=
  if Rle_dec 0 x then Int_part x else (- Int_part (- x))%Z.

Definition Rfmod (x y : R) : R := (x - IZR (Rtrunc (x / y)) * y)%R.

End Coordinates.

(** ** Reference coordinate restraints
       (mmtbx/geometry_restraints/reference_coordinate.h) *)

Module ReferenceCoordinate.

(** [reference_coordinate_proxy].  [i_seqs] is an [af::tiny<unsigned, 1>]:
    one index, [i_seqs[0]]. *)
Record reference_coordinate_proxy (F : Type) : Type := {
  i_seqs : nat;
  ref_sites : array3 F;
  weight : F
}.

(** The constructor that supports [proxy_select]: new indices, the rest
    taken from an existing proxy. *)
Definition proxy_with_i_seqs {F : Type} (i_seqs_ : nat)
    (proxy : reference_coordinate_proxy F) : reference_coordinate_proxy F :=
  {| i_seqs := i_seqs_; ref_sites := ref_sites proxy; weight := weight proxy |}.

(** How a call of [reference_coordinate_residual_sum] ends.  The gradient
    array is passed by reference, so what was added to it before an
    [MMTBX_ASSERT] failed stays added.  [af::ref] does not check its index:
    an index past the end of the gradient array is undefined behaviour. *)
Inductive residual_outcome (F : Type) : Type :=
| Finished (residual_sum : F) (gradient_array : list (array3 F))
| AssertionFailed (condition : string) (gradient_array : list (array3 F))
| UndefinedBehaviour.
Arguments Finished {F} residual_sum gradient_array.
Arguments AssertionFailed {F} condition gradient_array.
Arguments UndefinedBehaviour {F}.

(** [a[i] = x] on a list; nothing happens past the end. *)
Fixpoint assign_nth {A : Type} (a : list A) (i : nat) (x : A) : list A :=
  match a, i with
  | nil, _ => nil
  | _ :: rest, O => x :: rest
  | y :: rest, S i' => y :: assign_nth rest i' x
  end.

Section ResidualSum.

Context {F : Type} {FT : FloatType F}.
Local Open Scope fl_scope.

(** [operator+=] of [scitbx::vec3]. *)
Definition add3 (u v : array3 F) : array3 F :=
  mk3 (x0 u + x0 v) (x1 u + x1 v) (x2 u + x2 v).

(** The loop over the proxies, from the values [residual_sum] and
    [gradient_array] have when the loop gets to [proxies].  The site
    [sites_cart[i_seqs[0]]] exists exactly when the condition of the
    [MMTBX_ASSERT] holds, so a missing site is the assertion failing. *)
Fixpoint residual_sum_loop (sites_cart : list (array3 F))
    (proxies : list (reference_coordinate_proxy F))
    (residual_sum : F) (gradient_array : list (array3 F))
    {struct proxies} : residual_outcome F :=
  match proxies with
  | nil => Finished residual_sum gradient_array
  | proxy :: rest =>
      match nth_error sites_cart (i_seqs proxy) with
      | None => AssertionFailed "i_seqs[0] < sites_cart.size()" gradient_array
      | Some site =>
          let ref_site := ref_sites proxy in
          let weight := weight proxy in
          let delta := mk3 (x0 site - x0 ref_site) (x1 site - x1 ref_site)
                           (x2 site - x2 ref_site) in
          let residual_sum :=
            residual_sum + ((x0 delta * x0 delta * weight)
                            + (x1 delta * x1 delta * weight)
                            + (x2 delta * x2 delta * weight)) in
          let gradient := mk3 (x0 delta * #2 * weight) (x1 delta * #2 * weight)
                              (x2 delta * #2 * weight) in
          match nth_error gradient_array (i_seqs proxy) with
          | None => UndefinedBehaviour
          | Some g =>
              residual_sum_loop sites_cart rest residual_sum
                (assign_nth gradient_array (i_seqs proxy) (add3 g gradient))
          end
      end
  end.

Definition reference_coordinate_residual_sum
    (sites_cart : list (array3 F))
    (proxies : list (reference_coordinate_proxy F))
    (gradient_array : list (array3 F)) : residual_outcome F :=
  residual_sum_loop sites_cart proxies #0 gradient_array.

End ResidualSum.

End ReferenceCoordinate.

(** ** Notions used in statements about the toolbox *)

Section Notions.

Context {F : Type} {FT : FloatType F}.
Local Open Scope fl_scope.

Definition identity9 : array9 F := mk9 #1 #0 #0 #0 #1 #0 #0 #0 #1.

(** The sum of two tensors and the multiple of a tensor, component by
    component. *)
Definition add6 (S T : array6 F) : array6 F :=
  mk6 (a0 S + a0 T) (a1 S + a1 T) (a2 S + a2 T)
      (a3 S + a3 T) (a4 S + a4 T) (a5 S + a5 T).

(** The tensor [adp - lambda I]. *)
Definition shift_diagonal (adp : array6 F) (lambda : F) : array6 F :=
  mk6 (a0 adp - lambda) (a1 adp - lambda) (a2 adp - lambda)
      (a3 adp) (a4 adp) (a5 adp).

(** The Miller index of the opposite reflection. *)
Definition opposite (MIx : Miller_Index) : Miller_Index := map3 Z.opp MIx.

(** The unit vector along axis [k]: the start vector [Eigenvectors] builds
    with [V.assign(0.); V[iLarge] = 1.]. *)
Definition axis (k : index3) : array3 F := set3 (assign3 #0) k #1.

End Notions.

(** The range of a C++ [int] (32 bits), and the Miller indices whose
    products, as the Debye-Waller factors form them ([h * h],
    [2 * h * k] from left to right), stay in that range: for those the
    products taken in [Z] are the products the program computes. *)
Definition fits_int (z : Z) : bool :=
  ((-2147483648 <=? z) && (z <=? 2147483647))%Z.

Definition index_products_fit (MIx : Miller_Index) : bool :=
  fits_int (x0 MIx) && fits_int (x1 MIx) && fits_int (x2 MIx)
  && fits_int (x0 MIx * x0 MIx) && fits_int (x1 MIx * x1 MIx)
  && fits_int (x2 MIx * x2 MIx)
  && fits_int (2 * x0 MIx) && fits_int (2 * x1 MIx)
  && fits_int (2 * x0 MIx * x1 MIx) && fits_int (2 * x0 MIx * x2 MIx)
  && fits_int (2 * x1 MIx * x2 MIx).

(** ** Inputs used in examples of the restraints *)

Module RestraintInputs.

Import ReferenceCoordinate.

(** Three sites and two proxies, in double precision: the first proxy
    holds site 0 to the origin with weight 1, the second holds site 1 to
    (0, 1, 0) with weight 2; no proxy names site 2. *)
Definition sites : list (array3 float) :=
  Inputs.vector 1 0 0 :: Inputs.vector 0 2 0 :: Inputs.vector 0 0 3 :: nil.

Definition proxy_0 : reference_coordinate_proxy float :=
  {| i_seqs := 0; ref_sites := Inputs.vector 0 0 0; weight := of_int 1 |}.

Definition proxy_1 : reference_coordinate_proxy float :=
  {| i_seqs := 1; ref_sites := Inputs.vector 0 1 0; weight := of_int 2 |}.

(** A proxy that names a site that does not exist. *)
Definition proxy_5 : reference_coordinate_proxy float :=
  {| i_seqs := 5; ref_sites := Inputs.vector 0 0 0; weight := of_int 1 |}.

Definition zero_gradients : list (array3 float) :=
  Inputs.vector 0 0 0 :: Inputs.vector 0 0 0 :: Inputs.vector 0 0 0 :: nil.

(** The same in exact arithmetic. *)
Definition exact_sites : list (array3 R) :=
  mk3 1%R 0%R 0%R :: mk3 0%R 2%R 0%R :: mk3 0%R 0%R 3%R :: nil.

Definition exact_proxy_0 : reference_coordinate_proxy R :=
  {| i_seqs := 0; ref_sites := mk3 0%R 0%R 0%R; weight := 1%R |}.

Definition exact_proxy_1 : reference_coordinate_proxy R :=
  {| i_seqs := 1; ref_sites := mk3 0%R 1%R 0%R; weight := 2%R |}.

(** A proxy whose reference position is where site 2 is. *)
Definition exact_proxy_2 : reference_coordinate_proxy R :=
  {| i_seqs := 2; ref_sites := mk3 0%R 0%R 3%R; weight := 5%R |}.

Definition exact_zero_gradients : list (array3 R) :=
  mk3 0%R 0%R 0%R :: mk3 0%R 0%R 0%R :: mk3 0%R 0%R 0%R :: nil.

End RestraintInputs.

(** ** Properties of the power iteration *)

Section PowerIteration.

Context {F : Type} {FT : FloatType F}.
Local Open Scope fl_scope.

Variable M : array9 F.
Variable tolerance : F.

Lemma loop_S (fuel : nat) (V : array3 F) (c : N) :
  recursively_multiply_loop (S fuel) M tolerance V c =
  match one_pass M tolerance V with
  | ZeroProduct MV => Returns MV
  | NegativeConvergence => Throws not_positive_definite
  | Convergence V' => Returns V'
  | NoConvergence V' =>
      if (1000 <? c + 1)%N then Throws cctbx_internal_error
      else recursively_multiply_loop fuel M tolerance V' (c + 1)%N
  end.
Proof.
  unfold one_pass, product_is_zero, negative_convergence, convergence,
    scaled_tolerance, normalized_product.
  cbn [recursively_multiply_loop].
  destruct (std_sqrt _ ==? #0); [reflexivity|].
  destruct (MatrixLite.approx_equal _ (neg3 V) _); [reflexivity|].
  destruct (MatrixLite.approx_equal _ V _); reflexivity.
Qed.

(** Passes that meet no criterion only move the iterate and the counter. *)
Lemma loop_unconverged (k : nat) :
  forall (fuel : nat) (V Vk : array3 F) (c : N),
    unconverged M tolerance k V = Some Vk ->
    (N.to_nat c + k <= 1000)%nat ->
    recursively_multiply_loop (k + fuel) M tolerance V c =
    recursively_multiply_loop fuel M tolerance Vk (c + N.of_nat k)%N.
Proof.
  induction k as [|k IH]; intros fuel V Vk c Hk Hc.
  - cbn in Hk. injection Hk as <-. cbn. now rewrite N.add_0_r.
  - cbn [unconverged] in Hk.
    change (S k + fuel)%nat with (S (k + fuel)). rewrite loop_S.
    destruct (one_pass M tolerance V) as [ | | |V']; try discriminate.
    destruct (N.ltb_spec 1000 (c + 1)) as [Hlt|Hle]; [lia|].
    rewrite (IH fuel V' Vk (c + 1)%N Hk) by lia.
    f_equal. lia.
Qed.

(** With [n] passes left before the counter passes 1000, [n] units of fuel
    are enough, the outcome is one of three, and it is the internal error
    exactly when all [n] passes met no criterion. *)
Lemma loop_bounded (n : nat) :
  forall (fuel : nat) (V : array3 F) (c : N),
    (1 <= n)%nat -> (N.to_nat c + n = 1001)%nat -> (n <= fuel)%nat ->
    let r := recursively_multiply_loop fuel M tolerance V c in
    ((exists v, r = Returns v) \/ r = Throws not_positive_definite
     \/ r = Throws cctbx_internal_error)
    /\ (r = Throws cctbx_internal_error <-> unconverged M tolerance n V <> None).
Proof.
  induction n as [|n IH]; intros fuel V c Hn Hc Hf r; [lia|].
  destruct fuel as [|fuel]; [lia|].
  subst r. rewrite loop_S. cbn [unconverged].
  destruct (one_pass M tolerance V) as [MV| |V'|V'].
  - split; [left; eauto|]. split; [discriminate|congruence].
  - split; [right; left; reflexivity|]. split; [discriminate|congruence].
  - split; [left; eauto|]. split; [discriminate|congruence].
  - destruct (N.ltb_spec 1000 (c + 1)) as [Hlt|Hle].
    + assert (n = 0%nat) as -> by lia. cbn.
      split; [right; right; reflexivity|]. split; [discriminate|reflexivity].
    + apply IH; lia.
Qed.

End PowerIteration.

Section PowerIterationClaims.

Context {F : Type} {FT : FloatType F}.
Local Open Scope fl_scope.

(** C7.  Whenever a pass of the power iteration finds the new normalized
    iterate equal to the negation of the previous one within the scaled
    tolerance, [recursively_multiply] throws [not_positive_definite].  The
    pass may be any pass the loop gets to: pass [k + 1], reached after [k]
    passes that met no criterion, for every [k] that the run-away counter
    allows ([k <= 1000]). *)
Theorem negative_convergence_is_not_positive_definite
    (M : array9 F) (tolerance : F) (V Vk : array3 F) (k fuel : nat) :
  unconverged M tolerance k V = Some Vk ->
  (k <= 1000)%nat ->
  (k < fuel)%nat ->
  product_is_zero M Vk = false ->
  negative_convergence M tolerance Vk = true ->
  recursively_multiply fuel M V tolerance = Throws not_positive_definite.
Proof.
  intros Hk Hle Hfuel Hz Hneg. unfold recursively_multiply.
  replace fuel with (k + S (fuel - S k))%nat by lia.
  rewrite loop_unconverged with (Vk := Vk) by first [exact Hk | cbn; lia].
  rewrite loop_S. unfold one_pass. now rewrite Hz, Hneg.
Qed.

(** C8, as amended.  [recursively_multiply] always terminates: 1001 units
    of fuel are enough on every input, and the outcome is a returned
    vector, [not_positive_definite] or the internal error, which is a
    different failure.  It is the internal error exactly when 1001 passes
    in a row meet neither criterion (the run-away counter has to pass
    1000). *)
Theorem recursively_multiply_terminates
    (M : array9 F) (V : array3 F) (tolerance : F) (fuel : nat) :
  (1001 <= fuel)%nat ->
  let r := recursively_multiply fuel M V tolerance in
  ((exists v, r = Returns v) \/ r = Throws not_positive_definite
   \/ r = Throws cctbx_internal_error)
  /\ (r = Throws cctbx_internal_error <->
      unconverged M tolerance 1001 V <> None)
  /\ cctbx_internal_error <> not_positive_definite.
Proof.
  intros Hfuel r.
  destruct (@loop_bounded F FT M tolerance 1001 fuel V 0%N) as [H1 H2];
    [lia | reflexivity | exact Hfuel |].
  split; [exact H1|]. split; [exact H2|discriminate].
Qed.

End PowerIterationClaims.

(** The witness of C7: the matrix is minus the identity and the start is
    (1, 1, 0).  The first pass meets no criterion (the start is not a unit
    vector); the second finds the negated iterate. *)
Lemma negative_convergence_witness :
  recursively_multiply 2 (Inputs.diagonal (-1) (-1) (-1) 1)
    (Inputs.vector 1 1 0) default_tolerance
  = Throws not_positive_definite.
Proof.
  apply (@negative_convergence_is_not_positive_definite _ Binary64.binary64
           (Inputs.diagonal (-1) (-1) (-1) 1) default_tolerance
           (Inputs.vector 1 1 0)
           (normalized_product (Inputs.diagonal (-1) (-1) (-1) 1)
              (Inputs.vector 1 1 0))
           1%nat 2%nat).
  - vm_compute. reflexivity.
  - lia.
  - lia.
  - vm_compute. reflexivity.
  - vm_compute. reflexivity.
Defined.

(** The witness of C8: the same run with all the fuel it can need. *)
Lemma recursively_multiply_terminates_witness :
  let r := recursively_multiply 1001 (Inputs.diagonal (-1) (-1) (-1) 1)
             (Inputs.vector 1 1 0) default_tolerance in
  ((exists v, r = Returns v) \/ r = Throws not_positive_definite
   \/ r = Throws cctbx_internal_error)
  /\ (r = Throws cctbx_internal_error <->
      unconverged (Inputs.diagonal (-1) (-1) (-1) 1) default_tolerance 1001
        (Inputs.vector 1 1 0) <> None)
  /\ cctbx_internal_error <> not_positive_definite.
Proof.
  apply (@recursively_multiply_terminates _ Binary64.binary64). lia.
Defined.

(** The counterexample of C8 as it was stated, with a bound of 1000
    iterations: for the matrix diag(1, 0.99, 0), the start (1, 1, 0) and the
    tolerance 4.34e-7, the first 1000 passes meet neither criterion, and
    yet the call does not fail: pass 1001 converges and a vector is
    returned. *)
Lemma thousand_passes_counterexample :
  unconverged (Inputs.diagonal 100 99 0 100) (#434 / #1000000000)%fl 1000
    (Inputs.vector 1 1 0) <> None
  /\ (exists v,
        recursively_multiply 1001 (Inputs.diagonal 100 99 0 100)
          (Inputs.vector 1 1 0) (#434 / #1000000000)%fl = Returns v).
Proof.
  split.
  - vm_compute. discriminate.
  - eexists. vm_compute. reflexivity.
Qed.

(** ** Properties of [Eigenvectors] *)

Section EigenvectorsClaims.

Context {F : Type} {FT : FloatType F}.
Local Open Scope fl_scope.

Lemma Eigenvectors_with_singular
    (power : array9 F -> array3 F -> outcome (array3 F)) (adp : array6 F) :
  (MatrixLite.Determinant (Xaniso_as_SymMx33 adp) ==? #0) = true ->
  Eigenvectors_with power adp = Throws not_positive_definite.
Proof.
  intros Hd. unfold Eigenvectors_with. now rewrite Hd.
Qed.

Lemma Eigenvectors_with_parallel
    (power : array9 F -> array3 F -> outcome (array3 F)) (adp : array6 F)
    (result_0 result_1 : array3 F) :
  (MatrixLite.Determinant (Xaniso_as_SymMx33 adp) ==? #0) = false ->
  extremal_eigenvector power (Xaniso_as_SymMx33 adp) = Returns result_0 ->
  extremal_eigenvector power
    (div9 (MatrixLite.CoFactorMxTp (Xaniso_as_SymMx33 adp))
          (MatrixLite.Determinant (Xaniso_as_SymMx33 adp)))
    = Returns result_1 ->
  (dot3 (MatrixLite.cross_product result_0 result_1)
        (MatrixLite.cross_product result_0 result_1) ==? #0) = true ->
  Eigenvectors_with power adp
  = Throws (cctbx_assert_failure "result[2] * result[2] != 0.").
Proof.
  intros Hd H0 H1 Hx. unfold Eigenvectors_with.
  rewrite Hd, H0. cbn [bind]. rewrite H1. cbn [bind].
  rewrite Hx. reflexivity.
Qed.

(** C6.  When the determinant of the tensor, expanded to its 3x3 matrix,
    compares equal to zero, [Eigenvectors] throws [not_positive_definite],
    and it does so before any power iteration: whatever routine stands in
    for the iteration, and even with no fuel at all to iterate with, the
    outcome is the same. *)
Theorem Eigenvectors_singular_is_not_positive_definite (adp : array6 F) :
  (MatrixLite.Determinant (Xaniso_as_SymMx33 adp) ==? #0) = true ->
  (forall (fuel : nat) (tolerance : F),
     Eigenvectors fuel adp tolerance = Throws not_positive_definite)
  /\ (forall power : array9 F -> array3 F -> outcome (array3 F),
        Eigenvectors_with power adp = Throws not_positive_definite).
Proof.
  intros Hd. split.
  - intros fuel tolerance. now apply Eigenvectors_with_singular.
  - intros power. now apply Eigenvectors_with_singular.
Qed.

(** C3, as amended.  When the cross product of the first two computed
    eigenvectors has squared length zero (as it has when it is the zero
    vector), the assertion [cctbx_assert(result[2] * result[2] != 0.)]
    fails: [Eigenvectors] ends with that assertion failure, which is not
    the [not_positive_definite] error. *)
Theorem parallel_eigenvectors_fail_the_assertion
    (fuel : nat) (adp : array6 F) (tolerance : F)
    (result_0 result_1 : array3 F) :
  (MatrixLite.Determinant (Xaniso_as_SymMx33 adp) ==? #0) = false ->
  extremal_eigenvector
    (fun M V => recursively_multiply fuel M V default_tolerance)
    (Xaniso_as_SymMx33 adp) = Returns result_0 ->
  extremal_eigenvector
    (fun M V => recursively_multiply fuel M V default_tolerance)
    (div9 (MatrixLite.CoFactorMxTp (Xaniso_as_SymMx33 adp))
          (MatrixLite.Determinant (Xaniso_as_SymMx33 adp)))
    = Returns result_1 ->
  (dot3 (MatrixLite.cross_product result_0 result_1)
        (MatrixLite.cross_product result_0 result_1) ==? #0) = true ->
  Eigenvectors fuel adp tolerance
  = Throws (cctbx_assert_failure "result[2] * result[2] != 0.")
  /\ Eigenvectors fuel adp tolerance <> Throws not_positive_definite.
Proof.
  intros Hd H0 H1 Hx.
  assert (E : Eigenvectors fuel adp tolerance
              = Throws (cctbx_assert_failure "result[2] * result[2] != 0."))
    by (unfold Eigenvectors; eapply Eigenvectors_with_parallel; eassumption).
  split; [exact E|]. rewrite E. discriminate.
Qed.

(** C10.  The tolerance argument of [Eigenvectors] has no influence on
    its outcome: two calls that differ only in the tolerance give the same
    eigenvectors or the same failure.  The power iteration is always run
    with the default tolerance of [recursively_multiply], 1e-6. *)
Theorem Eigenvectors_ignores_its_tolerance
    (fuel : nat) (adp : array6 F) (t1 t2 : F) :
  Eigenvectors fuel adp t1 = Eigenvectors fuel adp t2
  /\ Eigenvectors fuel adp t1
     = Eigenvectors_with
         (fun M V => recursively_multiply fuel M V (#1 / #1000000)) adp.
Proof.
  split; reflexivity.
Qed.

End EigenvectorsClaims.

(** A run of the whole solver in double precision: for the diagonal tensor
    (0.01, 0.02, 0.03, 0, 0, 0) the eigenvectors are the coordinate axes,
    the axis of the largest component first, that of the smallest second. *)
Example Eigenvectors_of_a_diagonal_tensor :
  Eigenvectors 1001 (Inputs.tensor 1 2 3 0 0 0 100) default_tolerance
  = Returns (mk3 (Inputs.vector 0 0 1) (Inputs.vector 1 0 0)
                 (Inputs.vector 0 1 0)).
Proof.
  vm_compute. reflexivity.
Qed.

(** The tolerance does matter to the power iteration itself: on the same
    matrix and start, two tolerances give two different vectors. *)
Lemma recursively_multiply_depends_on_tolerance :
  exists u v : array3 float,
    recursively_multiply 1001 (Inputs.diagonal 100 99 0 100)
      (Inputs.vector 1 1 0) (#434 / #1000000000)%fl = Returns u
    /\ recursively_multiply 1001 (Inputs.diagonal 100 99 0 100)
         (Inputs.vector 1 1 0) default_tolerance = Returns v
    /\ (x1 u ==? x1 v)%fl = false.
Proof.
  do 2 eexists. split; [|split]; vm_compute; reflexivity.
Qed.

(** The witness of C6: the tensor (1, 1, 0, 0, 0, 0) has determinant
    zero. *)
Lemma Eigenvectors_singular_witness :
  (forall (fuel : nat) (tolerance : float),
     Eigenvectors fuel (Inputs.tensor 1 1 0 0 0 0 1) tolerance
     = Throws not_positive_definite)
  /\ (forall power : array9 float -> array3 float -> outcome (array3 float),
        Eigenvectors_with power (Inputs.tensor 1 1 0 0 0 0 1)
        = Throws not_positive_definite).
Proof.
  apply (@Eigenvectors_singular_is_not_positive_definite _ Binary64.binary64).
  vm_compute. reflexivity.
Defined.

(** The witness of C3: the isotropic tensor (1, 1, 1, 0, 0, 0).  Its matrix
    and the inverse are both the identity, both power iterations start from
    (1, 0, 0) and return it, and the cross product is the zero vector. *)
Lemma parallel_eigenvectors_witness :
  Eigenvectors 1001 (Inputs.tensor 1 1 1 0 0 0 1) default_tolerance
  = Throws (cctbx_assert_failure "result[2] * result[2] != 0.")
  /\ Eigenvectors 1001 (Inputs.tensor 1 1 1 0 0 0 1) default_tolerance
     <> Throws not_positive_definite.
Proof.
  apply (@parallel_eigenvectors_fail_the_assertion _ Binary64.binary64
           1001 (Inputs.tensor 1 1 1 0 0 0 1) default_tolerance
           (Inputs.vector 1 0 0) (Inputs.vector 1 0 0)).
  - vm_compute. reflexivity.
  - vm_compute. reflexivity.
  - vm_compute. reflexivity.
  - vm_compute. reflexivity.
Defined.

(** The counterexample of C3 as it was stated: on the isotropic tensor
    (1, 1, 1, 0, 0, 0) the first two eigenvectors are both (1, 0, 0), their
    cross product is the zero vector, and the failure of [Eigenvectors] is
    not [not_positive_definite]. *)
Lemma parallel_eigenvectors_counterexample :
  extremal_eigenvector
    (fun M V => recursively_multiply 1001 M V default_tolerance)
    (Xaniso_as_SymMx33 (Inputs.tensor 1 1 1 0 0 0 1))
  = Returns (Inputs.vector 1 0 0)
  /\ extremal_eigenvector
       (fun M V => recursively_multiply 1001 M V default_tolerance)
       (div9 (MatrixLite.CoFactorMxTp
                (Xaniso_as_SymMx33 (Inputs.tensor 1 1 1 0 0 0 1)))
             (MatrixLite.Determinant
                (Xaniso_as_SymMx33 (Inputs.tensor 1 1 1 0 0 0 1))))
     = Returns (Inputs.vector 1 0 0)
  /\ MatrixLite.cross_product (Inputs.vector 1 0 0) (Inputs.vector 1 0 0)
     = Inputs.vector 0 0 0
  /\ Eigenvectors 1001 (Inputs.tensor 1 1 1 0 0 0 1) default_tolerance
     <> Throws not_positive_definite.
Proof.
  repeat split; try (vm_compute; reflexivity).
  vm_compute. discriminate.
Qed.

(** ** Properties of [Eigenvalues] *)

Section EigenvaluesClaims.

Context {F : Type} {FT : FloatType F} {CM : Cmath F}.
Local Open Scope fl_scope.

(** The test [D <= 0.] failing is an assertion failure, whatever the
    roots would have been. *)
Lemma Eigenvalues_assertion (adp : array6 F) :
  (cubic_D adp <=? #0) = false ->
  Eigenvalues adp = Throws (cctbx_assert_failure "D <= 0.").
Proof.
  intros HD. unfold Eigenvalues. now rewrite HD.
Qed.

(** Past the assertion, the loop over the three roots throws at the first
    root that compares [<= 0.] and returns the roots when there is none. *)
Lemma Eigenvalues_roots (adp : array6 F) :
  (cubic_D adp <=? #0) = true ->
  Eigenvalues adp =
  if (cardan_root adp 0 <=? #0) || (cardan_root adp 1 <=? #0)
     || (cardan_root adp 2 <=? #0)
  then Throws not_positive_definite
  else Returns (mk3 (cardan_root adp 0) (cardan_root adp 1) (cardan_root adp 2)).
Proof.
  intros HD. unfold Eigenvalues. rewrite HD. cbn [cctbx_assert bind].
  destruct (cardan_root adp 0 <=? #0); [reflexivity|].
  destruct (cardan_root adp 1 <=? #0); [reflexivity|].
  destruct (cardan_root adp 2 <=? #0); reflexivity.
Qed.

(** When [D <= 0.] holds, [Eigenvalues] throws [not_positive_definite] if
    and only if one of the three computed roots compares [<= 0.]. *)
Lemma Eigenvalues_not_positive_definite_iff (adp : array6 F) :
  (cubic_D adp <=? #0) = true ->
  (Eigenvalues adp = Throws not_positive_definite <->
   exists i : Z, (0 <= i <= 2)%Z /\ (cardan_root adp i <=? #0) = true).
Proof.
  intros HD. rewrite (Eigenvalues_roots _ HD). split.
  - destruct (cardan_root adp 0 <=? #0) eqn:E0; [exists 0%Z; split; [lia|easy]|].
    destruct (cardan_root adp 1 <=? #0) eqn:E1; [exists 1%Z; split; [lia|easy]|].
    destruct (cardan_root adp 2 <=? #0) eqn:E2; [exists 2%Z; split; [lia|easy]|].
    discriminate.
  - intros (i & Hi & Ei).
    assert (i = 0 \/ i = 1 \/ i = 2)%Z as [-> | [-> | ->]] by lia;
      rewrite Ei; now rewrite ?orb_true_r.
Qed.

End EigenvaluesClaims.

(** In double precision a quantity above zero fails the test [<= 0.]. *)
Lemma binary64_positive_not_leb (d : float) :
  PrimFloat.ltb PrimFloat.zero d = true ->
  PrimFloat.leb d PrimFloat.zero = false.
Proof.
  rewrite FloatAxioms.ltb_spec, FloatAxioms.leb_spec.
  change (Prim2SF PrimFloat.zero) with (S754_zero false).
  unfold SFltb, SFleb.
  destruct (Prim2SF d) as [s|s| |s m e]; cbn; try destruct s;
    congruence.
Qed.

(** C2, as amended.  In double precision, for every tensor whose
    quantity D = p^3/27 + q^2/4 is above zero, [Eigenvalues] fails on the
    assertion [cctbx_assert(D <= 0.)], whatever the <cmath> functions are.
    That assertion failure is not the [not_positive_definite] error, which
    [Eigenvalues] keeps for roots that are not positive. *)
Theorem Eigenvalues_positive_D_fails_the_assertion
    (m : Binary64.Libm) (adp : array6 float) :
  (#0 <? cubic_D adp)%fl = true ->
  @Eigenvalues _ Binary64.binary64 (Binary64.cmath m) adp
  = Throws (cctbx_assert_failure "D <= 0.")
  /\ @Eigenvalues _ Binary64.binary64 (Binary64.cmath m) adp
     <> Throws not_positive_definite.
Proof.
  intros HD.
  assert (E : @Eigenvalues _ Binary64.binary64 (Binary64.cmath m) adp
              = Throws (cctbx_assert_failure "D <= 0.")).
  { apply Eigenvalues_assertion. apply binary64_positive_not_leb. exact HD. }
  split; [exact E|]. rewrite E. discriminate.
Qed.

(** The witness of C2: the isotropic tensor with u = 0.1.  Exactly p and q
    would be zero; rounded to doubles, D comes out as about 1.2e-38. *)
Lemma Eigenvalues_positive_D_witness :
  (#0 <? cubic_D (Inputs.isotropic 1 10))%fl = true
  /\ forall m : Binary64.Libm,
       @Eigenvalues _ Binary64.binary64 (Binary64.cmath m)
         (Inputs.isotropic 1 10)
       = Throws (cctbx_assert_failure "D <= 0.")
       /\ @Eigenvalues _ Binary64.binary64 (Binary64.cmath m)
            (Inputs.isotropic 1 10)
          <> Throws not_positive_definite.
Proof.
  split; [vm_compute; reflexivity|].
  intros m.
  apply (@Eigenvalues_positive_D_fails_the_assertion m
           (Inputs.isotropic 1 10)).
  vm_compute. reflexivity.
Defined.

(** The counterexample of C2 as it was stated: for the isotropic tensor
    with u = 0.1 the quantity D is above zero, and the failure of
    [Eigenvalues] is not [not_positive_definite], whatever the <cmath>
    functions are. *)
Lemma Eigenvalues_positive_D_counterexample :
  (#0 <? cubic_D (Inputs.isotropic 1 10))%fl = true
  /\ forall m : Binary64.Libm,
       @Eigenvalues _ Binary64.binary64 (Binary64.cmath m)
         (Inputs.isotropic 1 10)
       <> Throws not_positive_definite.
Proof.
  split; [vm_compute; reflexivity|].
  intros m. vm_compute. discriminate.
Qed.

(** C1.  [Eigenvalues] at the isotropic tensor [Uiso_as_Ucart(1.0)], in
    double precision and whatever the <cmath> functions are: p, q and zeta
    are zero, the argument of [acos] is 0/0, and the call returns three
    NaN, none of which compares equal to u = 1 (the double 1/1).  With u = 0.1 rounding
    makes D positive instead and the assertion [D <= 0.] fails. *)
Theorem Eigenvalues_isotropic_is_nan (m : Binary64.Libm) :
  @Eigenvalues _ Binary64.binary64 (Binary64.cmath m) (Inputs.isotropic 1 1)
  = Returns (mk3 PrimFloat.nan PrimFloat.nan PrimFloat.nan)
  /\ Inputs.isotropic 1 1 = Inputs.tensor 1 1 1 0 0 0 1
  /\ PrimFloat.eqb PrimFloat.nan PrimFloat.one = false
  /\ @Eigenvalues _ Binary64.binary64 (Binary64.cmath m)
       (Inputs.isotropic 1 10)
     = Throws (cctbx_assert_failure "D <= 0.").
Proof.
  repeat split; vm_compute; reflexivity.
Qed.

(** C5.  [Eigenvalues] at the tensor (1, 1, 1, 0, 0, 0), in double
    precision and whatever the <cmath> functions are: the test [D <= 0.]
    holds, the call succeeds, and none of the three values it returns is
    above zero (each is NaN, which passes the test [result[i] <= 0.]
    unnoticed). *)
Theorem Eigenvalues_success_without_positive_roots (m : Binary64.Libm) :
  (cubic_D (Inputs.tensor 1 1 1 0 0 0 1) <=? #0)%fl = true
  /\ exists ev : array3 float,
       @Eigenvalues _ Binary64.binary64 (Binary64.cmath m)
         (Inputs.tensor 1 1 1 0 0 0 1) = Returns ev
       /\ (#0 <? x0 ev)%fl = false
       /\ (#0 <? x1 ev)%fl = false
       /\ (#0 <? x2 ev)%fl = false.
Proof.
  split; [vm_compute; reflexivity|].
  eexists. split; [vm_compute; reflexivity|].
  repeat split; vm_compute; reflexivity.
Qed.

(** ** [Eigenvalues] in exact arithmetic *)

(** Settles a comparison of the exact instance that [lra] can decide. *)
Ltac exact_comparison :=
  unfold Exact.Rleb, Exact.Reqb, Exact.Rltb;
  match goal with
  | |- (if ?d then true else false) = true =>
      destruct d as [_|n]; [reflexivity | exfalso; apply n; lra]
  | |- (if ?d then true else false) = false =>
      destruct d as [n|_]; [exfalso; lra | reflexivity]
  end.

Section ExactEigenvalues.

Local Open Scope R_scope.

Lemma cube_root_8_27 : Exact.Rpow (8 / 27) (1 / 3) = 2 / 3.
Proof.
  unfold Exact.Rpow. destruct (Req_dec_T (8 / 27) 0) as [E|_]; [lra|].
  replace (8 / 27) with ((2 / 3) ^ 3) by field.
  rewrite <- Rpower_pow by lra.
  rewrite Rpower_mult. replace (INR 3 * (1 / 3)) with 1 by (simpl; field).
  apply Rpower_1. lra.
Qed.

(** The tensor (-1, 1, 1, 0, 0, 0): D = 0, zeta = 8/27, phi = pi, and the
    second root is 2 (2/3) cos(pi) + 1/3 = -1. *)
Lemma Eigenvalues_negative_diagonal_exact :
  @Eigenvalues R Exact.exact Exact.exact_cmath
    (Inputs.exact_tensor (-1) 1 1 0 0 0)
  = Throws not_positive_definite.
Proof.
  apply Eigenvalues_not_positive_definite_iff.
  - unfold cubic_D, cubic_p3, cubic_p, cubic_q, cubic_r, cubic_s, cubic_t.
    cbn. exact_comparison.
  - exists 1%Z. split; [lia|].
    unfold cardan_root, cubic_D, cubic_p3, cubic_p, cubic_q, cubic_r,
      cubic_s, cubic_t.
    cbn.
    lazymatch goal with
    | |- context [sqrt ?x] => replace x with ((8 / 27) * (8 / 27)) by lra
    end.
    rewrite sqrt_square by lra.
    lazymatch goal with
    | |- context [acos ?x] => replace x with (- (1)) by lra
    end.
    rewrite acos_opp, acos_1.
    lazymatch goal with
    | |- context [cos ?x] => replace x with PI by lra
    end.
    rewrite cos_PI, cube_root_8_27. exact_comparison.
Qed.

(** In exact arithmetic a value that fails the test [<= 0] is above zero,
    so the eigenvalues of a successful call are strictly positive. *)
Lemma Eigenvalues_success_positive_exact (adp : array6 R) (ev : array3 R) :
  @Eigenvalues R Exact.exact Exact.exact_cmath adp = Returns ev ->
  0 < x0 ev /\ 0 < x1 ev /\ 0 < x2 ev.
Proof.
  unfold Eigenvalues, cctbx_assert, bind, throw.
  destruct (leb (cubic_D adp) _); [|discriminate].
  cbn [leb Exact.exact]. unfold Exact.Rleb.
  destruct Rle_dec as [?|n0]; [discriminate|].
  destruct Rle_dec as [?|n1]; [discriminate|].
  destruct Rle_dec as [?|n2]; [discriminate|].
  intros H. injection H as <-. cbn [x0 x1 x2].
  repeat split; apply Rnot_le_lt; assumption.
Qed.

End ExactEigenvalues.

(** ** Round trips of the conversions *)

Section ExactClaims.

Local Open Scope R_scope.

Lemma TwoPiSquared_neq_0 : @TwoPiSquared R Exact.exact <> 0.
Proof.
  unfold TwoPiSquared. cbn. pose proof PI_neq0.
  apply Rmult_integral_contrapositive_currified; [|assumption].
  apply Rmult_integral_contrapositive_currified; [lra|assumption].
Qed.

Lemma EightPiSquared_neq_0 : @EightPiSquared R Exact.exact <> 0.
Proof.
  unfold EightPiSquared. cbn. pose proof PI_neq0.
  apply Rmult_integral_contrapositive_currified; [|assumption].
  apply Rmult_integral_contrapositive_currified; [lra|assumption].
Qed.

(** In exact arithmetic each conversion composed with its inverse is the
    identity, in both orders: fractional and reciprocal-star
    ([Uuvrs]/[Ustar]) for a cell whose reciprocal edges are not zero,
    reciprocal-star and beta, U and B for tensors and for scalars; and an
    isotropic value converted to Cartesian form and back is the value
    itself. *)
Lemma conversions_are_exact_inverses
    (uc : UnitCell R) (T : array6 R) (u : R) :
  x0 (getLen uc true) <> 0 ->
  x1 (getLen uc true) <> 0 ->
  x2 (getLen uc true) <> 0 ->
  Ustar_as_Uuvrs uc (Uuvrs_as_Ustar uc T) = T
  /\ Uuvrs_as_Ustar uc (Ustar_as_Uuvrs uc T) = T
  /\ beta_as_Ustar (Ustar_as_beta T) = T
  /\ Ustar_as_beta (beta_as_Ustar T) = T
  /\ B_as_U_aniso (U_as_B_aniso T) = T
  /\ U_as_B_aniso (B_as_U_aniso T) = T
  /\ B_as_U (U_as_B u) = u
  /\ U_as_B (B_as_U u) = u
  /\ Ucart_as_Uiso (Uiso_as_Ucart u) = u.
Proof.
  intros H0 H1 H2.
  pose proof TwoPiSquared_neq_0 as H2pi.
  pose proof EightPiSquared_neq_0 as H8pi.
  destruct T as [t0 t1 t2 t3 t4 t5].
  unfold Ustar_as_Uuvrs, Uuvrs_as_Ustar, beta_as_Ustar, Ustar_as_beta,
    B_as_U_aniso, U_as_B_aniso, B_as_U, U_as_B, Ucart_as_Uiso, Uiso_as_Ucart,
    scale6, div6, map6, assign6.
  cbn -[TwoPiSquared EightPiSquared].
  repeat split; try (f_equal; field; auto); field; auto.
Qed.

(** The other composition of the isotropic pair is not an identity:
    [Ucart_as_Uiso] keeps the mean of the diagonal only. *)
Lemma Uiso_as_Ucart_of_Ucart_as_Uiso :
  Uiso_as_Ucart (Ucart_as_Uiso (Inputs.exact_tensor 1 2 3 0 0 0))
  = Inputs.exact_tensor 2 2 2 0 0 0.
Proof.
  unfold Uiso_as_Ucart, Ucart_as_Uiso, Inputs.exact_tensor. cbn.
  f_equal; lra.
Qed.

End ExactClaims.

(** ** Round trips of the conversions under rounding *)

Section StandardModel.

Local Open Scope R_scope.

(** The rounding and its relative error, the unit roundoff. *)
Variable rnd : R -> R.
Variable eps : R.
Hypothesis eps_range : 0 <= eps <= 1 / 4.
Hypothesis rnd_error : forall x : R, Rabs (rnd x - x) <= eps * Rabs x.

Lemma one_rounding (d : R) : Rabs d <= eps -> - eps <= d <= eps.
Proof.
  unfold Rabs. destruct (Rcase_abs d); lra.
Qed.

(** A rounded value is the exact one times [1 + d] with [d] at most the
    unit roundoff in size. *)
Lemma rnd_delta (x : R) : exists d : R, rnd x = x * (1 + d) /\ Rabs d <= eps.
Proof.
  destruct (Req_dec x 0) as [->|Hx].
  - exists 0. pose proof (rnd_error 0) as H. rewrite Rabs_R0 in H.
    rewrite Rminus_0_r, Rmult_0_r in H.
    pose proof (Rabs_pos (rnd 0)) as Hp.
    assert (E : Rabs (rnd 0) = 0) by lra.
    destruct (Req_dec (rnd 0) 0) as [E0|N0].
    + rewrite E0. split; [ring|]. rewrite Rabs_R0. lra.
    + apply Rabs_no_R0 in N0. contradiction.
  - exists ((rnd x - x) / x). split; [field; exact Hx|].
    unfold Rdiv. rewrite Rabs_mult, Rabs_inv.
    pose proof (Rabs_pos_lt x Hx) as Hp.
    apply Rmult_le_reg_r with (Rabs x); [exact Hp|].
    rewrite Rmult_assoc, Rinv_l by lra. rewrite Rmult_1_r. apply rnd_error.
Qed.

Lemma rnd_neq_0 (x : R) : x <> 0 -> rnd x <> 0.
Proof.
  intros Hx E. destruct (rnd_delta x) as (d & Hd & Bd). rewrite E in Hd.
  assert (Hd1 : 1 + d <> 0).
  { apply one_rounding in Bd. lra. }
  symmetry in Hd. apply Rmult_integral in Hd. tauto.
Qed.


(** Two and three roundings in a row stay within four unit roundoffs. *)
Lemma two_roundings (t d1 d2 : R) :
  Rabs d1 <= eps -> Rabs d2 <= eps ->
  within (4 * eps) (t * ((1 + d1) * (1 + d2))) t.
Proof.
  intros B1 B2. apply one_rounding in B1, B2. unfold within.
  replace (t * ((1 + d1) * (1 + d2)) - t) with (t * (d1 + d2 + d1 * d2))
    by ring.
  rewrite Rabs_mult, (Rmult_comm (4 * eps)).
  apply Rmult_le_compat_l; [apply Rabs_pos|].
  apply Rabs_le. split; nra.
Qed.

Lemma three_roundings (t d1 d2 d3 : R) :
  Rabs d1 <= eps -> Rabs d2 <= eps -> Rabs d3 <= eps ->
  within (4 * eps) (t * ((1 + d1) * (1 + d2) * (1 + d3))) t.
Proof.
  intros B1 B2 B3. apply one_rounding in B1, B2, B3. unfold within.
  set (a := d1 + d2 + d1 * d2).
  assert (Ha : - (9 / 4) * eps <= a <= 9 / 4 * eps) by (unfold a; split; nra).
  replace (t * ((1 + d1) * (1 + d2) * (1 + d3)) - t)
    with (t * (a + d3 + a * d3)) by (unfold a; ring).
  rewrite Rabs_mult, (Rmult_comm (4 * eps)).
  apply Rmult_le_compat_l; [apply Rabs_pos|].
  apply Rabs_le. split; nra.
Qed.


Lemma mul_then_div (t P : R) :
  P <> 0 -> within (4 * eps) (rnd (rnd (t * P) / P)) t.
Proof.
  intros HP. destruct (rnd_delta (t * P)) as (d1 & E1 & B1). rewrite E1.
  destruct (rnd_delta (t * P * (1 + d1) / P)) as (d2 & E2 & B2). rewrite E2.
  replace (t * P * (1 + d1) / P * (1 + d2)) with (t * ((1 + d1) * (1 + d2)))
    by (field; exact HP).
  apply two_roundings; assumption.
Qed.

Lemma div_then_mul (t P : R) :
  P <> 0 -> within (4 * eps) (rnd (rnd (t / P) * P)) t.
Proof.
  intros HP. destruct (rnd_delta (t / P)) as (d1 & E1 & B1). rewrite E1.
  destruct (rnd_delta (t / P * (1 + d1) * P)) as (d2 & E2 & B2). rewrite E2.
  replace (t / P * (1 + d1) * P * (1 + d2)) with (t * ((1 + d1) * (1 + d2)))
    by (field; exact HP).
  apply two_roundings; assumption.
Qed.

Lemma scale_then_div (t C : R) :
  C <> 0 -> within (4 * eps) (rnd (rnd (C * t) / C)) t.
Proof.
  intros HC. rewrite (Rmult_comm C t). apply mul_then_div. exact HC.
Qed.

Lemma div_then_scale (t C : R) :
  C <> 0 -> within (4 * eps) (rnd (C * rnd (t / C))) t.
Proof.
  intros HC. rewrite (Rmult_comm C). apply div_then_mul. exact HC.
Qed.

Lemma scale_then_scale_by_inverse (t E : R) :
  E <> 0 -> within (4 * eps) (rnd (rnd (1 / E) * rnd (E * t))) t.
Proof.
  intros HE. destruct (rnd_delta (1 / E)) as (d1 & E1 & B1). rewrite E1.
  destruct (rnd_delta (E * t)) as (d2 & E2 & B2). rewrite E2.
  destruct (rnd_delta (1 / E * (1 + d1) * (E * t * (1 + d2))))
    as (d3 & E3 & B3). rewrite E3.
  replace (1 / E * (1 + d1) * (E * t * (1 + d2)) * (1 + d3))
    with (t * ((1 + d1) * (1 + d2) * (1 + d3))) by (field; exact HE).
  apply three_roundings; assumption.
Qed.

Lemma scale_by_inverse_then_scale (t E : R) :
  E <> 0 -> within (4 * eps) (rnd (E * rnd (rnd (1 / E) * t))) t.
Proof.
  intros HE. destruct (rnd_delta (1 / E)) as (d1 & E1 & B1). rewrite E1.
  destruct (rnd_delta (1 / E * (1 + d1) * t)) as (d2 & E2 & B2). rewrite E2.
  destruct (rnd_delta (E * (1 / E * (1 + d1) * t * (1 + d2))))
    as (d3 & E3 & B3). rewrite E3.
  replace (E * (1 / E * (1 + d1) * t * (1 + d2)) * (1 + d3))
    with (t * ((1 + d1) * (1 + d2) * (1 + d3))) by (field; exact HE).
  apply three_roundings; assumption.
Qed.

Lemma mean_of_three_copies (u : R) :
  within (4 * eps) (rnd (rnd (rnd (u + u) + u) / 3)) u.
Proof.
  destruct (rnd_delta (u + u)) as (d1 & E1 & B1). rewrite E1.
  destruct (rnd_delta ((u + u) * (1 + d1) + u)) as (d2 & E2 & B2). rewrite E2.
  destruct (rnd_delta (((u + u) * (1 + d1) + u) * (1 + d2) / 3))
    as (d3 & E3 & B3). rewrite E3.
  replace (((u + u) * (1 + d1) + u) * (1 + d2) / 3 * (1 + d3))
    with (u * ((1 + 2 / 3 * d1) * (1 + d2) * (1 + d3))) by field.
  apply three_roundings; try assumption.
  apply one_rounding in B1. apply Rabs_le. lra.
Qed.

Lemma TwoPiSquared_rounded_neq_0 :
  TwoPiSquared (FT := Rounded.rounded rnd) <> 0.
Proof.
  unfold TwoPiSquared. cbn [mul of_int pi Rounded.rounded].
  pose proof PI_neq0.
  apply rnd_neq_0, Rmult_integral_contrapositive_currified;
    [|apply rnd_neq_0; assumption].
  apply rnd_neq_0, Rmult_integral_contrapositive_currified;
    [lra | apply rnd_neq_0; assumption].
Qed.

Lemma EightPiSquared_rounded_neq_0 :
  EightPiSquared (FT := Rounded.rounded rnd) <> 0.
Proof.
  unfold EightPiSquared. cbn [mul of_int pi Rounded.rounded].
  pose proof PI_neq0.
  apply rnd_neq_0, Rmult_integral_contrapositive_currified;
    [|apply rnd_neq_0; assumption].
  apply rnd_neq_0, Rmult_integral_contrapositive_currified;
    [lra | apply rnd_neq_0; assumption].
Qed.

(** C4.  In the standard model of rounding, where every operation returns
    its exact result with a relative error of at most [eps] (as double
    precision does, with [eps] = 2^-53, when nothing overflows or
    underflows), each conversion composed with its inverse reproduces
    every component of the original within the relative tolerance
    [4 eps], in both orders: fractional and reciprocal-star
    ([Uuvrs]/[Ustar]) for a cell whose reciprocal edges are not zero,
    reciprocal-star and beta, U and B for tensors and for scalars; and an
    isotropic value converted to Cartesian form and back is the value
    within the same tolerance. *)
Theorem conversions_round_trip_within_tolerance
    (uc : UnitCell R) (T : array6 R) (u : R) :
  x0 (getLen uc true) <> 0 ->
  x1 (getLen uc true) <> 0 ->
  x2 (getLen uc true) <> 0 ->
  within6 (4 * eps)
    (Ustar_as_Uuvrs (FT := Rounded.rounded rnd) uc
       (Uuvrs_as_Ustar (FT := Rounded.rounded rnd) uc T)) T
  /\ within6 (4 * eps)
       (Uuvrs_as_Ustar (FT := Rounded.rounded rnd) uc
          (Ustar_as_Uuvrs (FT := Rounded.rounded rnd) uc T)) T
  /\ within6 (4 * eps)
       (beta_as_Ustar (FT := Rounded.rounded rnd)
          (Ustar_as_beta (FT := Rounded.rounded rnd) T)) T
  /\ within6 (4 * eps)
       (Ustar_as_beta (FT := Rounded.rounded rnd)
          (beta_as_Ustar (FT := Rounded.rounded rnd) T)) T
  /\ within6 (4 * eps)
       (B_as_U_aniso (FT := Rounded.rounded rnd)
          (U_as_B_aniso (FT := Rounded.rounded rnd) T)) T
  /\ within6 (4 * eps)
       (U_as_B_aniso (FT := Rounded.rounded rnd)
          (B_as_U_aniso (FT := Rounded.rounded rnd) T)) T
  /\ within (4 * eps)
       (B_as_U (FT := Rounded.rounded rnd)
          (U_as_B (FT := Rounded.rounded rnd) u)) u
  /\ within (4 * eps)
       (U_as_B (FT := Rounded.rounded rnd)
          (B_as_U (FT := Rounded.rounded rnd) u)) u
  /\ within (4 * eps)
       (Ucart_as_Uiso (FT := Rounded.rounded rnd)
          (Uiso_as_Ucart (FT := Rounded.rounded rnd) u)) u.
Proof.
  intros H0 H1 H2.
  pose proof TwoPiSquared_rounded_neq_0 as H2pi.
  pose proof EightPiSquared_rounded_neq_0 as H8pi.
  assert (HP : forall r s : R, r <> 0 -> s <> 0 -> rnd (r * s) <> 0).
  { intros r s Hr Hs. apply rnd_neq_0.
    apply Rmult_integral_contrapositive_currified; assumption. }
  destruct T as [t0 t1 t2 t3 t4 t5].
  unfold within6, Ustar_as_Uuvrs, Uuvrs_as_Ustar, beta_as_Ustar, Ustar_as_beta,
    B_as_U_aniso, U_as_B_aniso, B_as_U, U_as_B, Ucart_as_Uiso, Uiso_as_Ucart,
    scale6, div6, map6, assign6.
  cbn [a0 a1 a2 a3 a4 a5 add mul div of_int Rounded.rounded].
  repeat match goal with |- _ /\ _ => split end;
    first [ apply mul_then_div; apply HP; assumption
          | apply div_then_mul; apply HP; assumption
          | apply scale_then_div; assumption
          | apply div_then_scale; assumption
          | apply scale_then_scale_by_inverse; assumption
          | apply scale_by_inverse_then_scale; assumption
          | apply mul_then_div; assumption
          | apply div_then_mul; assumption
          | apply mean_of_three_copies ].
Qed.

End StandardModel.

(** The witness of C4: the rounding that is too large by one part in
    1024, the orthorhombic cell with reciprocal edges 1, 2 and 3, the
    tensor (1, 2, 3, 4, 5, 6) and the scalar 7. *)
Lemma conversions_round_trip_within_tolerance_witness :
  within6 (4 * / 1024)%R
       (Ustar_as_Uuvrs (FT := Rounded.rounded Rounded.one_part_in_1024) Inputs.orthorhombic_cell
          (Uuvrs_as_Ustar (FT := Rounded.rounded Rounded.one_part_in_1024) Inputs.orthorhombic_cell
             (Inputs.exact_tensor 1 2 3 4 5 6)))
       (Inputs.exact_tensor 1 2 3 4 5 6)
  /\ within6 (4 * / 1024)%R
       (Uuvrs_as_Ustar (FT := Rounded.rounded Rounded.one_part_in_1024) Inputs.orthorhombic_cell
          (Ustar_as_Uuvrs (FT := Rounded.rounded Rounded.one_part_in_1024) Inputs.orthorhombic_cell
             (Inputs.exact_tensor 1 2 3 4 5 6)))
       (Inputs.exact_tensor 1 2 3 4 5 6)
  /\ within6 (4 * / 1024)%R
       (beta_as_Ustar (FT := Rounded.rounded Rounded.one_part_in_1024)
          (Ustar_as_beta (FT := Rounded.rounded Rounded.one_part_in_1024)
             (Inputs.exact_tensor 1 2 3 4 5 6)))
       (Inputs.exact_tensor 1 2 3 4 5 6)
  /\ within6 (4 * / 1024)%R
       (Ustar_as_beta (FT := Rounded.rounded Rounded.one_part_in_1024)
          (beta_as_Ustar (FT := Rounded.rounded Rounded.one_part_in_1024)
             (Inputs.exact_tensor 1 2 3 4 5 6)))
       (Inputs.exact_tensor 1 2 3 4 5 6)
  /\ within6 (4 * / 1024)%R
       (B_as_U_aniso (FT := Rounded.rounded Rounded.one_part_in_1024)
          (U_as_B_aniso (FT := Rounded.rounded Rounded.one_part_in_1024)
             (Inputs.exact_tensor 1 2 3 4 5 6)))
       (Inputs.exact_tensor 1 2 3 4 5 6)
  /\ within6 (4 * / 1024)%R
       (U_as_B_aniso (FT := Rounded.rounded Rounded.one_part_in_1024)
          (B_as_U_aniso (FT := Rounded.rounded Rounded.one_part_in_1024)
             (Inputs.exact_tensor 1 2 3 4 5 6)))
       (Inputs.exact_tensor 1 2 3 4 5 6)
  /\ within (4 * / 1024)%R
       (B_as_U (FT := Rounded.rounded Rounded.one_part_in_1024)
          (U_as_B (FT := Rounded.rounded Rounded.one_part_in_1024)
             7%R))
       7%R
  /\ within (4 * / 1024)%R
       (U_as_B (FT := Rounded.rounded Rounded.one_part_in_1024)
          (B_as_U (FT := Rounded.rounded Rounded.one_part_in_1024)
             7%R))
       7%R
  /\ within (4 * / 1024)%R
       (Ucart_as_Uiso (FT := Rounded.rounded Rounded.one_part_in_1024)
          (Uiso_as_Ucart (FT := Rounded.rounded Rounded.one_part_in_1024)
             7%R))
       7%R.
Proof.
  apply (@conversions_round_trip_within_tolerance
           Rounded.one_part_in_1024 (/ 1024)%R).
  - lra.
  - intros x. unfold Rounded.one_part_in_1024.
    replace (x * (1 + / 1024) - x)%R with (x * / 1024)%R by ring.
    rewrite Rabs_mult, (Rabs_right (/ 1024)) by lra. lra.
  - cbn. lra.
  - cbn. lra.
  - cbn. lra.
Defined.

(** In double precision the round trip is lost at the ends of the range.
    The finite value 2^1020 comes back from B as infinity, because its
    product with 8 pi^2 overflows.  With the reciprocal edges 2^-700,
    which are not zero, the products of two edges underflow to zero and
    every component of a tensor comes back from the reciprocal-star form
    as NaN.  And in the other order the isotropic pair is no round trip
    even in exact arithmetic: the tensor (1, 2, 3, 0, 0, 0) comes back as
    (2, 2, 2, 0, 0, 0). *)
Lemma conversions_round_trip_counterexample :
  (Binary64.finite DoubleInputs.huge = true
   /\ B_as_U (U_as_B DoubleInputs.huge) = PrimFloat.infinity
   /\ B_as_U_aniso (U_as_B_aniso (assign6 DoubleInputs.huge))
      = assign6 PrimFloat.infinity)
  /\ (PrimFloat.eqb (x0 (getLen DoubleInputs.tiny_reciprocal_cell true)) 0
      = false
      /\ PrimFloat.eqb (x1 (getLen DoubleInputs.tiny_reciprocal_cell true)) 0
         = false
      /\ PrimFloat.eqb (x2 (getLen DoubleInputs.tiny_reciprocal_cell true)) 0
         = false
      /\ Ustar_as_Uuvrs DoubleInputs.tiny_reciprocal_cell
           (Uuvrs_as_Ustar DoubleInputs.tiny_reciprocal_cell
              (Inputs.tensor 1 2 3 4 5 6 100))
         = assign6 PrimFloat.nan)
  /\ Uiso_as_Ucart (Ucart_as_Uiso (Inputs.exact_tensor 1 2 3 0 0 0))
     = Inputs.exact_tensor 2 2 2 0 0 0.
Proof.
  split; [|split].
  - repeat split; vm_compute; reflexivity.
  - repeat split; vm_compute; reflexivity.
  - exact Uiso_as_Ucart_of_Ucart_as_Uiso.
Defined.

(** In the middle of the range double precision behaves as the model
    says.  For the tensor (0.01, ..., 0.06) and the cell with reciprocal
    edges 0.3, 0.7 and 1.1 every round trip is within four unit roundoffs
    of the original, and the trip through beta is not the original
    itself: its third component comes back as another double. *)
Example conversions_round_trip_of_doubles :
  let T := Inputs.tensor 1 2 3 4 5 6 100 in
  DoubleInputs.within6_double
    (Ustar_as_Uuvrs DoubleInputs.ordinary_cell
       (Uuvrs_as_Ustar DoubleInputs.ordinary_cell T)) T = true
  /\ DoubleInputs.within6_double
       (Uuvrs_as_Ustar DoubleInputs.ordinary_cell
          (Ustar_as_Uuvrs DoubleInputs.ordinary_cell T)) T = true
  /\ DoubleInputs.within6_double (beta_as_Ustar (Ustar_as_beta T)) T = true
  /\ DoubleInputs.within6_double (Ustar_as_beta (beta_as_Ustar T)) T = true
  /\ DoubleInputs.within6_double (B_as_U_aniso (U_as_B_aniso T)) T = true
  /\ DoubleInputs.within6_double (U_as_B_aniso (B_as_U_aniso T)) T = true
  /\ PrimFloat.eqb (a2 (beta_as_Ustar (Ustar_as_beta T))) (a2 T) = false.
Proof.
  cbv zeta. repeat split; vm_compute; reflexivity.
Qed.

(** ** Debye-Waller factors at a zero exponent *)

(** Zeros in double precision: a zero times a finite double is a zero, the
    sum of two zeros is a zero, the opposite of a zero is a zero, and [exp]
    of a zero is one. *)
Section DoubleZeros.

Import Binary64.

Lemma is_zero_mul_l (z x : float) :
  is_zero z = true -> finite x = true -> is_zero (PrimFloat.mul z x) = true.
Proof.
  unfold is_zero, finite. rewrite FloatAxioms.mul_spec.
  unfold SF64mul, SFmul.
  destruct (Prim2SF z); try discriminate.
  destruct (Prim2SF x); try discriminate; reflexivity.
Qed.

Lemma is_zero_mul_r (x z : float) :
  finite x = true -> is_zero z = true -> is_zero (PrimFloat.mul x z) = true.
Proof.
  unfold is_zero, finite. rewrite FloatAxioms.mul_spec.
  unfold SF64mul, SFmul.
  destruct (Prim2SF x); try discriminate;
    destruct (Prim2SF z); try discriminate; reflexivity.
Qed.

Lemma is_zero_add (y z : float) :
  is_zero y = true -> is_zero z = true -> is_zero (PrimFloat.add y z) = true.
Proof.
  unfold is_zero. rewrite FloatAxioms.add_spec.
  unfold SF64add, SFadd.
  destruct (Prim2SF y) as [sy| | |]; try discriminate.
  destruct (Prim2SF z) as [sz| | |]; try discriminate.
  destruct sy, sz; reflexivity.
Qed.

Lemma is_zero_opp (z : float) :
  is_zero z = true -> is_zero (PrimFloat.opp z) = true.
Proof.
  unfold is_zero. rewrite FloatAxioms.opp_spec.
  destruct (Prim2SF z); try discriminate; reflexivity.
Qed.

Lemma exp_double_zero (m : Libm) (z : float) :
  is_zero z = true -> exp_double m z = PrimFloat.one.
Proof.
  unfold is_zero, exp_double, PrimFloat.is_nan. intros Hz.
  rewrite !FloatAxioms.eqb_spec.
  change (Prim2SF PrimFloat.zero) with (S754_zero false).
  destruct (Prim2SF z); try discriminate; reflexivity.
Qed.

Lemma is_zero_finite (z : float) : is_zero z = true -> finite z = true.
Proof.
  unfold is_zero, finite. destruct (Prim2SF z); try discriminate; reflexivity.
Qed.

Lemma is_zero_eqb (z : float) :
  is_zero z = true -> PrimFloat.eqb z PrimFloat.zero = true.
Proof.
  unfold is_zero. rewrite FloatAxioms.eqb_spec.
  change (Prim2SF PrimFloat.zero) with (S754_zero false).
  destruct (Prim2SF z); try discriminate; reflexivity.
Qed.

(** The test [result[2] * result[2] != 0.] of [Eigenvectors] fails for a
    zero vector, whatever the signs of its zeros. *)
Lemma zero_vector_squared_length_double (v : array3 float) :
  is_zero (x0 v) = true -> is_zero (x1 v) = true -> is_zero (x2 v) = true ->
  (dot3 v v ==? #0)%fl = true.
Proof.
  intros H0 H1 H2. unfold dot3. cbn.
  apply is_zero_eqb.
  repeat apply is_zero_add;
    try (apply is_zero_mul_l; auto using is_zero_finite).
  vm_compute. reflexivity.
Qed.

Lemma zero_vector_squared_length_exact :
  (dot3 (mk3 0%R 0%R 0%R) (mk3 0%R 0%R 0%R) ==? #0)%fl = true.
Proof.
  unfold dot3. cbn. unfold Exact.Reqb.
  destruct Req_dec_T as [_|n]; [reflexivity|]. exfalso; apply n. lra.
Qed.

End DoubleZeros.

Section DebyeWallerClaims.

Import Binary64.
Local Open Scope fl_scope.

Lemma DebyeWallerFactorUiso_zero_exact (stol2 : R) :
  @DebyeWallerFactorUiso R Exact.exact Exact.exact_cmath stol2 #0 = #1.
Proof.
  unfold DebyeWallerFactorUiso, DebyeWallerFactorBiso, U_as_B. cbn.
  rewrite Rmult_0_l, Ropp_0, Rmult_0_l. apply exp_0.
Qed.

Lemma DebyeWallerFactorUstar_origin_exact (Ustar : array6 R) :
  @DebyeWallerFactorUstar R Exact.exact Exact.exact_cmath (mk3 0 0 0)%Z Ustar
  = #1.
Proof.
  unfold DebyeWallerFactorUstar. cbn.
  rewrite !Rmult_0_l, !Rplus_0_l, Rmult_0_r. apply exp_0.
Qed.

Lemma DebyeWallerFactorUiso_zero_double (m : Libm) (stol2 : float) :
  finite stol2 = true ->
  @DebyeWallerFactorUiso float binary64 (cmath m) stol2 #0 = #1.
Proof.
  intros Hf. unfold DebyeWallerFactorUiso, DebyeWallerFactorBiso. cbn.
  apply exp_double_zero. apply is_zero_mul_l; [|exact Hf].
  vm_compute. reflexivity.
Qed.

Lemma DebyeWallerFactorUstar_origin_double (m : Libm) (Ustar : array6 float) :
  finite6 Ustar = true ->
  @DebyeWallerFactorUstar float binary64 (cmath m) (mk3 0 0 0)%Z Ustar = #1.
Proof.
  unfold finite6. intros Hf.
  repeat (apply andb_prop in Hf; destruct Hf as [Hf ?]).
  unfold DebyeWallerFactorUstar. cbn.
  apply exp_double_zero. apply is_zero_mul_r; [vm_compute; reflexivity|].
  repeat apply is_zero_add; apply is_zero_mul_l; auto.
Qed.

(** C9.  With Uiso = 0 the isotropic Debye-Waller factor is 1 for every
    reciprocal index and every unit cell (and for every value of
    (sin(theta)/lambda)^2 passed directly), and at the reciprocal index
    (0, 0, 0) the anisotropic factor is 1 for every tensor: in exact
    arithmetic without any condition, and in double precision, whatever the
    <cmath> functions are, for every finite (sin(theta)/lambda)^2 and every
    tensor of finite components.  The evaluators are plain functions into
    the numeric type: they have no failure to report and test nothing
    about the tensor. *)
Theorem DebyeWaller_factor_is_one :
  (forall (uc : UnitCell R) (MIx : Miller_Index),
     @DebyeWallerFactorUiso_uc R Exact.exact Exact.exact_cmath uc MIx #0 = #1)
  /\ (forall stol2 : R,
        @DebyeWallerFactorUiso R Exact.exact Exact.exact_cmath stol2 #0 = #1)
  /\ (forall Ustar : array6 R,
        @DebyeWallerFactorUstar R Exact.exact Exact.exact_cmath
          (mk3 0 0 0)%Z Ustar = #1)
  /\ (forall (m : Libm) (uc : UnitCell float) (MIx : Miller_Index),
        finite (Q uc MIx / #4) = true ->
        @DebyeWallerFactorUiso_uc float binary64 (cmath m) uc MIx #0 = #1)
  /\ (forall (m : Libm) (stol2 : float),
        finite stol2 = true ->
        @DebyeWallerFactorUiso float binary64 (cmath m) stol2 #0 = #1)
  /\ (forall (m : Libm) (Ustar : array6 float),
        finite6 Ustar = true ->
        @DebyeWallerFactorUstar float binary64 (cmath m) (mk3 0 0 0)%Z Ustar
        = #1).
Proof.
  split; [|split; [|split; [|split; [|split]]]].
  - intros uc MIx. apply DebyeWallerFactorUiso_zero_exact.
  - apply DebyeWallerFactorUiso_zero_exact.
  - apply DebyeWallerFactorUstar_origin_exact.
  - intros m uc MIx Hf. apply (DebyeWallerFactorUiso_zero_double m _ Hf).
  - apply DebyeWallerFactorUiso_zero_double.
  - apply DebyeWallerFactorUstar_origin_double.
Qed.

End DebyeWallerClaims.

(** The witness of C9, in double precision: (sin(theta)/lambda)^2 = 1/4
    with Uiso = 0, and the index (0, 0, 0) with the tensor
    (-1, 1, 1, 0, 0, 0), which is not positive definite. *)
Lemma DebyeWaller_factor_is_one_witness :
  (forall m : Binary64.Libm,
     @DebyeWallerFactorUiso float Binary64.binary64 (Binary64.cmath m)
       (#1 / #4)%fl #0%fl = #1%fl)
  /\ (forall m : Binary64.Libm,
        @DebyeWallerFactorUstar float Binary64.binary64 (Binary64.cmath m)
          (mk3 0 0 0)%Z (Inputs.tensor (-1) 1 1 0 0 0 1) = #1%fl).
Proof.
  destruct DebyeWaller_factor_is_one as (_ & _ & _ & _ & H5 & H6).
  split; intros m; [apply H5 | apply H6]; vm_compute; reflexivity.
Defined.

(** * Further properties

    ** Symmetric matrices and their six components *)

(** X1.  Expanding six components to a 3x3 matrix and compressing the
    matrix again gives the six components back; the expanded matrix is
    symmetric; and compressing a matrix and expanding it again gives the
    matrix back exactly when the matrix is symmetric. *)
Theorem SymMx33_round_trip (F : Type) (Xaniso : array6 F) (M : array9 F) :
  SymMx33_as_Xaniso (Xaniso_as_SymMx33 Xaniso) = Xaniso
  /\ MatrixLite.transpose (Xaniso_as_SymMx33 Xaniso) = Xaniso_as_SymMx33 Xaniso
  /\ (Xaniso_as_SymMx33 (SymMx33_as_Xaniso M) = M
      <-> MatrixLite.transpose M = M).
Proof.
  split; [destruct Xaniso; reflexivity|].
  split; [reflexivity|].
  destruct M as [n0 n1 n2 n3 n4 n5 n6 n7 n8].
  unfold Xaniso_as_SymMx33, SymMx33_as_Xaniso, MatrixLite.transpose. cbn.
  split; intros H; injection H; intros; f_equal; congruence.
Qed.

(** ** Debye-Waller factors of opposite reflections *)

Section OppositeReflections.

Context {F : Type} {FT : FloatType F} {CM : Cmath F}.
Local Open Scope fl_scope.

Lemma opposite_products (MIx : Miller_Index) :
  (x0 (opposite MIx) * x0 (opposite MIx) = x0 MIx * x0 MIx
   /\ x1 (opposite MIx) * x1 (opposite MIx) = x1 MIx * x1 MIx
   /\ x2 (opposite MIx) * x2 (opposite MIx) = x2 MIx * x2 MIx
   /\ 2 * x0 (opposite MIx) * x1 (opposite MIx) = 2 * x0 MIx * x1 MIx
   /\ 2 * x0 (opposite MIx) * x2 (opposite MIx) = 2 * x0 MIx * x2 MIx
   /\ 2 * x1 (opposite MIx) * x2 (opposite MIx) = 2 * x1 MIx * x2 MIx)%Z.
Proof.
  destruct MIx as [h k l]. unfold opposite, map3. cbn [x0 x1 x2].
  repeat split; ring.
Qed.

(** X2.  The anisotropic Debye-Waller factor of the reflection (-h, -k, -l)
    is that of (h, k, l), in every basis and in any arithmetic (double
    precision included): the indices enter through products of two of
    them only. *)
Theorem DebyeWaller_opposite_reflection
    (uc : UnitCell F) (MIx : Miller_Index) (U : array6 F) :
  DebyeWallerFactorUstar (opposite MIx) U = DebyeWallerFactorUstar MIx U
  /\ DebyeWallerFactor_beta (opposite MIx) U = DebyeWallerFactor_beta MIx U
  /\ DebyeWallerFactorUuvrs uc (opposite MIx) U
     = DebyeWallerFactorUuvrs uc MIx U
  /\ DebyeWallerFactorUcart uc (opposite MIx) U
     = DebyeWallerFactorUcart uc MIx U.
Proof.
  destruct (opposite_products MIx) as (E0 & E1 & E2 & E3 & E4 & E5).
  unfold DebyeWallerFactorUuvrs, DebyeWallerFactorUcart,
    DebyeWallerFactorUstar, DebyeWallerFactor_beta.
  rewrite E0, E1, E2, E3, E4, E5. repeat split; reflexivity.
Qed.

End OppositeReflections.

(** ** The outcome of the power iteration, read off its passes *)

Section PowerIterationOutcome.

Context {F : Type} {FT : FloatType F}.
Local Open Scope fl_scope.

Variable M : array9 F.
Variable tolerance : F.

(** The pass that stops the loop decides the outcome. *)
Lemma loop_first_stop (n : nat) :
  forall (fuel : nat) (V : array3 F) (c : N),
    (1 <= n)%nat -> (N.to_nat c + n = 1001)%nat -> (n <= fuel)%nat ->
    (forall v : array3 F,
       recursively_multiply_loop fuel M tolerance V c = Returns v <->
       exists (k : nat) (Vk : array3 F),
         (k < n)%nat /\ unconverged M tolerance k V = Some Vk
         /\ (one_pass M tolerance Vk = ZeroProduct v
             \/ one_pass M tolerance Vk = Convergence v))
    /\ (recursively_multiply_loop fuel M tolerance V c
        = Throws not_positive_definite <->
        exists (k : nat) (Vk : array3 F),
          (k < n)%nat /\ unconverged M tolerance k V = Some Vk
          /\ one_pass M tolerance Vk = NegativeConvergence).
Proof.
  induction n as [|n IH]; intros fuel V c Hn Hc Hf; [lia|].
  destruct fuel as [|fuel]; [lia|].
  rewrite loop_S.
  destruct (one_pass M tolerance V) as [MV| |V'|V'] eqn:E.
  - split; [intros v|]; split.
    + intros H. injection H as <-. exists 0%nat, V. cbn. split; [lia|]. auto.
    + intros (k & Vk & _ & Hk & Hs). destruct k; cbn in Hk.
      * injection Hk as <-. rewrite E in Hs.
        destruct Hs as [Hs|Hs]; [injection Hs as <-; reflexivity|discriminate].
      * rewrite E in Hk. discriminate.
    + discriminate.
    + intros (k & Vk & _ & Hk & Hs). destruct k; cbn in Hk.
      * injection Hk as <-. rewrite E in Hs. discriminate.
      * rewrite E in Hk. discriminate.
  - split; [intros v|]; split.
    + discriminate.
    + intros (k & Vk & _ & Hk & Hs). destruct k; cbn in Hk.
      * injection Hk as <-. rewrite E in Hs. destruct Hs; discriminate.
      * rewrite E in Hk. discriminate.
    + intros _. exists 0%nat, V. cbn. split; [lia|]. auto.
    + reflexivity.
  - split; [intros v|]; split.
    + intros H. injection H as <-. exists 0%nat, V. cbn. split; [lia|]. auto.
    + intros (k & Vk & _ & Hk & Hs). destruct k; cbn in Hk.
      * injection Hk as <-. rewrite E in Hs.
        destruct Hs as [Hs|Hs]; [discriminate|injection Hs as <-; reflexivity].
      * rewrite E in Hk. discriminate.
    + discriminate.
    + intros (k & Vk & _ & Hk & Hs). destruct k; cbn in Hk.
      * injection Hk as <-. rewrite E in Hs. discriminate.
      * rewrite E in Hk. discriminate.
  - destruct (N.ltb_spec 1000 (c + 1)) as [Hlt|Hle].
    + assert (n = 0%nat) as -> by lia.
      split; [intros v|]; split; try discriminate;
        intros (k & Vk & Hk1 & Hk & Hs); assert (k = 0%nat) as -> by lia;
        cbn in Hk; injection Hk as <-; rewrite E in Hs;
        first [discriminate | destruct Hs; discriminate].
    + destruct (IH fuel V' (c + 1)%N) as [IHr IHt]; try lia.
      split; [intros v|]; split.
      * intros H. apply IHr in H. destruct H as (k & Vk & Hk1 & Hk & Hs).
        exists (S k), Vk. cbn. rewrite E. split; [lia|]. auto.
      * intros (k & Vk & Hk1 & Hk & Hs). apply IHr. destruct k; cbn in Hk.
        -- injection Hk as <-. rewrite E in Hs. destruct Hs; discriminate.
        -- rewrite E in Hk. exists k, Vk. split; [lia|]. auto.
      * intros H. apply IHt in H. destruct H as (k & Vk & Hk1 & Hk & Hs).
        exists (S k), Vk. cbn. rewrite E. split; [lia|]. auto.
      * intros (k & Vk & Hk1 & Hk & Hs). apply IHt. destruct k; cbn in Hk.
        -- injection Hk as <-. rewrite E in Hs. discriminate.
        -- rewrite E in Hk. exists k, Vk. split; [lia|]. auto.
Qed.

(** Fuel beyond what the run-away counter allows changes nothing. *)
Lemma loop_fuel_irrelevant (n : nat) :
  forall (fuel fuel' : nat) (V : array3 F) (c : N),
    (1 <= n)%nat -> (N.to_nat c + n = 1001)%nat ->
    (n <= fuel)%nat -> (n <= fuel')%nat ->
    recursively_multiply_loop fuel M tolerance V c
    = recursively_multiply_loop fuel' M tolerance V c.
Proof.
  induction n as [|n IH]; intros fuel fuel' V c Hn Hc Hf Hf'; [lia|].
  destruct fuel as [|fuel]; [lia|]. destruct fuel' as [|fuel']; [lia|].
  rewrite !loop_S. destruct (one_pass M tolerance V); try reflexivity.
  destruct (N.ltb_spec 1000 (c + 1)); [reflexivity|].
  apply (IH fuel fuel'); lia.
Qed.

End PowerIterationOutcome.

Section PowerIterationOutcomeTheorems.

Context {F : Type} {FT : FloatType F}.
Local Open Scope fl_scope.

(** X3.  With enough fuel, [recursively_multiply] returns a vector [v]
    exactly when, after at most 1000 passes that met no criterion, a pass
    either finds a zero product ([v] is that product) or converges ([v] is
    the normalized product); and it throws [not_positive_definite] exactly
    when such a pass finds the negated iterate. *)
Theorem recursively_multiply_outcome
    (M : array9 F) (V : array3 F) (tolerance : F) (fuel : nat) :
  (1001 <= fuel)%nat ->
  (forall v : array3 F,
     recursively_multiply fuel M V tolerance = Returns v <->
     exists (k : nat) (Vk : array3 F),
       (k <= 1000)%nat /\ unconverged M tolerance k V = Some Vk
       /\ ((product_is_zero M Vk = true /\ v = MatrixLite.multiply_33_31 M Vk)
           \/ (product_is_zero M Vk = false
               /\ negative_convergence M tolerance Vk = false
               /\ convergence M tolerance Vk = true
               /\ v = normalized_product M Vk)))
  /\ (recursively_multiply fuel M V tolerance = Throws not_positive_definite
      <->
      exists (k : nat) (Vk : array3 F),
        (k <= 1000)%nat /\ unconverged M tolerance k V = Some Vk
        /\ product_is_zero M Vk = false
        /\ negative_convergence M tolerance Vk = true).
Proof.
  intros Hfuel.
  destruct (@loop_first_stop F FT M tolerance 1001 fuel V 0%N) as [Hr Ht];
    [lia | reflexivity | exact Hfuel |].
  unfold recursively_multiply. split.
  - intros v. rewrite Hr. split.
    + intros (k & Vk & Hk1 & Hk & Hs). exists k, Vk.
      split; [lia|]. split; [exact Hk|].
      unfold one_pass in Hs.
      destruct (product_is_zero M Vk);
        [left; destruct Hs as [Hs|Hs]; [injection Hs as <-; auto|discriminate]|].
      destruct (negative_convergence M tolerance Vk);
        [destruct Hs; discriminate|].
      destruct (convergence M tolerance Vk); [|destruct Hs; discriminate].
      right. destruct Hs as [Hs|Hs]; [discriminate|injection Hs as <-; auto].
    + intros (k & Vk & Hk1 & Hk & Hs). exists k, Vk.
      split; [lia|]. split; [exact Hk|]. unfold one_pass.
      destruct Hs as [[Hz ->]|(Hz & Hn & Hc & ->)].
      * rewrite Hz. auto.
      * rewrite Hz, Hn, Hc. auto.
  - rewrite Ht. split.
    + intros (k & Vk & Hk1 & Hk & Hs). exists k, Vk.
      split; [lia|]. split; [exact Hk|].
      unfold one_pass in Hs.
      destruct (product_is_zero M Vk); [discriminate|].
      destruct (negative_convergence M tolerance Vk); [auto|].
      destruct (convergence M tolerance Vk); discriminate.
    + intros (k & Vk & Hk1 & Hk & Hz & Hn). exists k, Vk.
      split; [lia|]. split; [exact Hk|]. unfold one_pass.
      now rewrite Hz, Hn.
Qed.

(** X4.  What a successful call of [Eigenvectors] guarantees, in any
    arithmetic: the determinant of the tensor did not compare equal to
    zero, none of the three vectors has a squared length that compares
    equal to zero, and the third vector is the cross product of the first
    two. *)
Theorem Eigenvectors_success
    (fuel : nat) (adp : array6 F) (tolerance : F) (ev : array3 (array3 F)) :
  Eigenvectors fuel adp tolerance = Returns ev ->
  (MatrixLite.Determinant (Xaniso_as_SymMx33 adp) ==? #0) = false
  /\ (dot3 (x0 ev) (x0 ev) ==? #0) = false
  /\ (dot3 (x1 ev) (x1 ev) ==? #0) = false
  /\ (dot3 (x2 ev) (x2 ev) ==? #0) = false
  /\ x2 ev = MatrixLite.cross_product (x0 ev) (x1 ev).
Proof.
  unfold Eigenvectors, Eigenvectors_with, extremal_eigenvector, throw.
  destruct (MatrixLite.Determinant (Xaniso_as_SymMx33 adp) ==? #0);
    [discriminate|].
  destruct (recursively_multiply fuel (Xaniso_as_SymMx33 adp) _ _)
    as [r0| |]; cbn [bind]; try discriminate.
  destruct (dot3 r0 r0 ==? #0) eqn:E0; cbn [bind]; [discriminate|].
  destruct (recursively_multiply fuel (div9 _ _) _ _)
    as [r1| |]; cbn [bind]; try discriminate.
  destruct (dot3 r1 r1 ==? #0) eqn:E1; cbn [bind]; [discriminate|].
  destruct (dot3 (MatrixLite.cross_product r0 r1)
                 (MatrixLite.cross_product r0 r1) ==? #0) eqn:E2;
    cbn [negb cctbx_assert bind]; [discriminate|].
  intros H. injection H as <-. cbn [x0 x1 x2]. auto.
Qed.

(** X5.  [Eigenvectors] always terminates: with 1001 units of fuel or more
    it never runs out of fuel, and more fuel than 1001 changes nothing. *)
Theorem Eigenvectors_terminates
    (fuel : nat) (adp : array6 F) (tolerance : F) :
  (1001 <= fuel)%nat ->
  Eigenvectors fuel adp tolerance <> OutOfFuel
  /\ Eigenvectors fuel adp tolerance = Eigenvectors 1001 adp tolerance.
Proof.
  intros Hfuel.
  assert (E : forall M V,
             recursively_multiply fuel M V default_tolerance
             = recursively_multiply 1001 M V default_tolerance).
  { intros M V. unfold recursively_multiply.
    apply (@loop_fuel_irrelevant F FT M default_tolerance 1001);
      [lia | reflexivity | exact Hfuel | lia]. }
  assert (T : forall M V,
             recursively_multiply fuel M V default_tolerance <> OutOfFuel).
  { intros M V.
    destruct (@loop_bounded F FT M default_tolerance 1001 fuel V 0%N)
      as [[[v Hv] | [Hv | Hv]] _];
      [lia | reflexivity | exact Hfuel | | |];
      unfold recursively_multiply; rewrite Hv; discriminate. }
  split.
  - unfold Eigenvectors, Eigenvectors_with, extremal_eigenvector, throw.
    destruct (MatrixLite.Determinant (Xaniso_as_SymMx33 adp) ==? #0);
      [discriminate|].
    match goal with
    | |- context [recursively_multiply fuel ?M ?V _] =>
        pose proof (T M V);
        destruct (recursively_multiply fuel M V default_tolerance)
          as [r0| |]; cbn [bind]; try discriminate; try congruence
    end.
    destruct (dot3 r0 r0 ==? #0); cbn [bind]; [discriminate|].
    match goal with
    | |- context [recursively_multiply fuel ?M ?V _] =>
        pose proof (T M V);
        destruct (recursively_multiply fuel M V default_tolerance)
          as [r1| |]; cbn [bind]; try discriminate; try congruence
    end.
    destruct (dot3 r1 r1 ==? #0); cbn [bind]; [discriminate|].
    destruct (negb _); cbn [cctbx_assert bind]; discriminate.
  - unfold Eigenvectors, Eigenvectors_with, extremal_eigenvector.
    now rewrite !E.
Qed.

End PowerIterationOutcomeTheorems.

(** ** Reference coordinate restraints *)

Section AssignNth.

Import ReferenceCoordinate.

Variable A : Type.

Lemma assign_nth_length (a : list A) (i : nat) (x : A) :
  length (assign_nth a i x) = length a.
Proof.
  revert i. induction a as [|y a IH]; intros [|i]; cbn; auto.
Qed.

Lemma assign_nth_other (a : list A) (i j : nat) (x : A) :
  i <> j -> nth_error (assign_nth a i x) j = nth_error a j.
Proof.
  revert i j. induction a as [|y a IH]; intros [|i] [|j] H; cbn; auto.
  contradiction.
Qed.

Lemma assign_nth_same (a : list A) (i : nat) (x : A) :
  nth_error a i = Some x -> assign_nth a i x = a.
Proof.
  revert i. induction a as [|y a IH]; intros [|i] H; cbn in *;
    try discriminate.
  - now injection H as ->.
  - now rewrite IH.
Qed.

End AssignNth.

Section ResidualSumProperties.

Import ReferenceCoordinate.

Context {F : Type} {FT : FloatType F}.
Local Open Scope fl_scope.

Variable sites_cart : list (array3 F).

Lemma residual_sum_loop_frame (proxies : list (reference_coordinate_proxy F)) :
  forall (r : F) (G : list (array3 F)) (G' : list (array3 F)),
    (exists r', residual_sum_loop sites_cart proxies r G = Finished r' G')
    \/ (exists text,
          residual_sum_loop sites_cart proxies r G = AssertionFailed text G') ->
    length G' = length G
    /\ forall j : nat,
         (forall proxy, In proxy proxies -> i_seqs proxy <> j) ->
         nth_error G' j = nth_error G j.
Proof.
  induction proxies as [|proxy rest IH]; intros r G G' H.
  - cbn in H. destruct H as [[r' H]|[text H]]; [|discriminate].
    injection H as _ <-. auto.
  - cbn [residual_sum_loop] in H.
    destruct (nth_error sites_cart (i_seqs proxy)) as [site|].
    + destruct (nth_error G (i_seqs proxy)) as [g|];
        [|destruct H as [[? H]|[? H]]; discriminate].
      apply IH in H. destruct H as [Hlen Hfr].
      rewrite assign_nth_length in Hlen. split; [exact Hlen|].
      intros j Hj. rewrite Hfr by (intros p Hp; apply Hj; now right).
      apply assign_nth_other. apply Hj. now left.
    + destruct H as [[? H]|[text H]]; [discriminate|].
      injection H as _ <-. auto.
Qed.

Lemma residual_sum_loop_in_range (proxies : list (reference_coordinate_proxy F)) :
  forall (r : F) (G : list (array3 F)),
    (length sites_cart <= length G)%nat ->
    residual_sum_loop sites_cart proxies r G <> UndefinedBehaviour
    /\ ((exists r' G', residual_sum_loop sites_cart proxies r G = Finished r' G')
        <-> Forall (fun proxy => (i_seqs proxy < length sites_cart)%nat)
              proxies).
Proof.
  induction proxies as [|proxy rest IH]; intros r G Hlen.
  - cbn. split; [discriminate|]. split; [constructor|eauto].
  - cbn [residual_sum_loop].
    destruct (nth_error sites_cart (i_seqs proxy)) as [site|] eqn:Es.
    + assert (Hi : (i_seqs proxy < length sites_cart)%nat)
        by (apply nth_error_Some; congruence).
      destruct (nth_error G (i_seqs proxy)) as [g|] eqn:Eg.
      * match goal with
        | |- context [residual_sum_loop _ rest ?r1 ?G1] =>
            destruct (IH r1 G1) as [IHu IHf];
              [rewrite assign_nth_length; exact Hlen|]
        end.
        split; [exact IHu|]. rewrite IHf. split.
        -- intros H. constructor; assumption.
        -- intros H. inversion H; assumption.
      * apply nth_error_None in Eg. lia.
    + apply nth_error_None in Es. split; [discriminate|]. split.
      * intros (r' & G' & H). discriminate.
      * intros H. inversion H; subst. lia.
Qed.

Lemma residual_sum_loop_app (p1 p2 : list (reference_coordinate_proxy F)) :
  forall (r : F) (G : list (array3 F)),
    residual_sum_loop sites_cart (p1 ++ p2) r G =
    match residual_sum_loop sites_cart p1 r G with
    | Finished r1 G1 => residual_sum_loop sites_cart p2 r1 G1
    | stopped => stopped
    end.
Proof.
  induction p1 as [|proxy p1 IH]; intros r G; [reflexivity|].
  cbn [app residual_sum_loop].
  destruct (nth_error sites_cart (i_seqs proxy)); [|reflexivity].
  destruct (nth_error G (i_seqs proxy)); [|reflexivity].
  apply IH.
Qed.

Lemma indices_in_range_or_not (proxies : list (reference_coordinate_proxy F)) :
  Forall (fun proxy => (i_seqs proxy < length sites_cart)%nat) proxies
  \/ Exists (fun proxy => (length sites_cart <= i_seqs proxy)%nat) proxies.
Proof.
  induction proxies as [|p rest [IH|IH]].
  - left. constructor.
  - destruct (Nat.lt_ge_cases (i_seqs p) (length sites_cart)).
    + left. now constructor.
    + right. now left.
  - right. now right.
Qed.

Lemma indices_not_both (proxies : list (reference_coordinate_proxy F)) :
  Exists (fun proxy => (length sites_cart <= i_seqs proxy)%nat) proxies ->
  ~ Forall (fun proxy => (i_seqs proxy < length sites_cart)%nat) proxies.
Proof.
  intros Hex Hall. rewrite Forall_forall in Hall.
  apply Exists_exists in Hex. destruct Hex as (p & Hin & Hp).
  specialize (Hall p Hin). cbn in Hall. lia.
Qed.

(** X6.  [reference_coordinate_residual_sum] touches the gradient array
    only at the indices of its proxies: whether it finishes or an
    assertion fails on the way, the array keeps its length and every
    element whose index no proxy names. *)
Theorem residual_sum_touches_only_its_indices
    (proxies : list (reference_coordinate_proxy F))
    (gradient_array gradient_array' : list (array3 F)) :
  (exists residual_sum,
     reference_coordinate_residual_sum sites_cart proxies gradient_array
     = Finished residual_sum gradient_array')
  \/ (exists text,
        reference_coordinate_residual_sum sites_cart proxies gradient_array
        = AssertionFailed text gradient_array') ->
  length gradient_array' = length gradient_array
  /\ forall j : nat,
       (forall proxy, In proxy proxies -> i_seqs proxy <> j) ->
       nth_error gradient_array' j = nth_error gradient_array j.
Proof.
  apply residual_sum_loop_frame.
Qed.

(** X7.  When the gradient array is at least as long as the array of
    sites, [reference_coordinate_residual_sum] never indexes past the end
    of an array, and it finishes exactly when every proxy names a site
    that exists; otherwise the assertion
    [MMTBX_ASSERT(i_seqs[0] < sites_cart.size())] fails. *)
Theorem residual_sum_finishes_iff_indices_in_range
    (proxies : list (reference_coordinate_proxy F))
    (gradient_array : list (array3 F)) :
  (length sites_cart <= length gradient_array)%nat ->
  reference_coordinate_residual_sum sites_cart proxies gradient_array
  <> UndefinedBehaviour
  /\ ((exists residual_sum gradient_array',
         reference_coordinate_residual_sum sites_cart proxies gradient_array
         = Finished residual_sum gradient_array')
      <-> Forall (fun proxy => (i_seqs proxy < length sites_cart)%nat) proxies)
  /\ ((exists text gradient_array',
         reference_coordinate_residual_sum sites_cart proxies gradient_array
         = AssertionFailed text gradient_array')
      <-> Exists (fun proxy => (length sites_cart <= i_seqs proxy)%nat)
            proxies).
Proof.
  intros Hlen.
  destruct (residual_sum_loop_in_range proxies #0 gradient_array Hlen)
    as [Hu Hf].
  unfold reference_coordinate_residual_sum in *.
  split; [exact Hu|]. split; [exact Hf|].
  pose proof (indices_in_range_or_not proxies) as [Hall|Hex].
  - destruct (proj2 Hf Hall) as (r & G' & H). rewrite H. split.
    + intros (t & G'' & H'). discriminate.
    + intros Hex. exfalso. revert Hall. apply indices_not_both. exact Hex.
  - split; [intros _; exact Hex|]. intros _.
    destruct (residual_sum_loop sites_cart proxies #0 gradient_array)
      as [r G'|text G'|]; [|eauto|contradiction].
    exfalso. apply (indices_not_both Hex). apply Hf. eauto.
Qed.

(** X8.  An assertion failure leaves the gradient array changed: when the
    proxies before the first one that names a missing site are processed
    to the array [gradient_array_1], the call fails on the assertion with
    the gradient array equal to [gradient_array_1], not to the array it was
    given. *)
Theorem residual_sum_assertion_keeps_earlier_gradients
    (before after : list (reference_coordinate_proxy F))
    (bad : reference_coordinate_proxy F)
    (gradient_array gradient_array_1 : list (array3 F)) (residual_sum_1 : F) :
  reference_coordinate_residual_sum sites_cart before gradient_array
  = Finished residual_sum_1 gradient_array_1 ->
  (length sites_cart <= i_seqs bad)%nat ->
  reference_coordinate_residual_sum sites_cart (before ++ bad :: after)
    gradient_array
  = AssertionFailed "i_seqs[0] < sites_cart.size()" gradient_array_1.
Proof.
  unfold reference_coordinate_residual_sum. intros H1 Hbad.
  rewrite residual_sum_loop_app, H1. cbn [residual_sum_loop].
  apply nth_error_None in Hbad. now rewrite Hbad.
Qed.

End ResidualSumProperties.

Section ResidualSumExact.

Import ReferenceCoordinate.
Local Open Scope R_scope.

Variable sites_cart : list (array3 R).

(** One term of the residual sum and of the gradient, as the loop body
    computes them in exact arithmetic. *)
Lemma residual_sum_loop_cons (proxy : reference_coordinate_proxy R)
    (rest : list (reference_coordinate_proxy R)) (site g : array3 R)
    (r : R) (G : list (array3 R)) :
  nth_error sites_cart (i_seqs proxy) = Some site ->
  nth_error G (i_seqs proxy) = Some g ->
  residual_sum_loop sites_cart (proxy :: rest) r G =
  residual_sum_loop sites_cart rest
    (r + ((x0 site - x0 (ref_sites proxy)) * (x0 site - x0 (ref_sites proxy))
            * weight proxy
          + (x1 site - x1 (ref_sites proxy)) * (x1 site - x1 (ref_sites proxy))
            * weight proxy
          + (x2 site - x2 (ref_sites proxy)) * (x2 site - x2 (ref_sites proxy))
            * weight proxy))
    (assign_nth G (i_seqs proxy)
       (add3 g (mk3 ((x0 site - x0 (ref_sites proxy)) * 2 * weight proxy)
                    ((x1 site - x1 (ref_sites proxy)) * 2 * weight proxy)
                    ((x2 site - x2 (ref_sites proxy)) * 2 * weight proxy)))).
Proof.
  intros Hs Hg. cbn [residual_sum_loop]. rewrite Hs, Hg. reflexivity.
Qed.

Lemma residual_sum_loop_shift (proxies : list (reference_coordinate_proxy R)) :
  forall (r c r' : R) (G G' : list (array3 R)),
    residual_sum_loop sites_cart proxies r G = Finished r' G' ->
    residual_sum_loop sites_cart proxies (r + c) G = Finished (r' + c) G'.
Proof.
  induction proxies as [|proxy rest IH]; intros r c r' G G' H.
  - cbn in *. now injection H as <- <-.
  - cbn [residual_sum_loop] in *.
    destruct (nth_error sites_cart (i_seqs proxy)) as [site|];
      [|discriminate].
    destruct (nth_error G (i_seqs proxy)) as [g|]; [|discriminate].
    apply (IH _ c) in H. rewrite <- H. f_equal. cbn. ring.
Qed.

Lemma residual_sum_loop_nonnegative
    (proxies : list (reference_coordinate_proxy R)) :
  forall (r r' : R) (G G' : list (array3 R)),
    Forall (fun proxy => 0 <= weight proxy) proxies ->
    residual_sum_loop sites_cart proxies r G = Finished r' G' ->
    r <= r'.
Proof.
  induction proxies as [|proxy rest IH]; intros r r' G G' Hw H.
  - cbn in H. injection H as <- _. lra.
  - inversion Hw as [|? ? Hw0 Hw']; subst. cbn [residual_sum_loop] in H.
    destruct (nth_error sites_cart (i_seqs proxy)) as [site|];
      [|discriminate].
    destruct (nth_error G (i_seqs proxy)) as [g|]; [|discriminate].
    apply (IH _ _ _ _ Hw') in H. cbn in H.
    pose proof (Rle_0_sqr (x0 site - x0 (ref_sites proxy))) as S0.
    pose proof (Rle_0_sqr (x1 site - x1 (ref_sites proxy))) as S1.
    pose proof (Rle_0_sqr (x2 site - x2 (ref_sites proxy))) as S2.
    unfold Rsqr in *. nra.
Qed.

Lemma residual_sum_loop_at_reference
    (proxies : list (reference_coordinate_proxy R)) :
  forall (r : R) (G : list (array3 R)),
    (length sites_cart <= length G)%nat ->
    Forall (fun proxy =>
              nth_error sites_cart (i_seqs proxy) = Some (ref_sites proxy))
           proxies ->
    residual_sum_loop sites_cart proxies r G = Finished r G.
Proof.
  induction proxies as [|proxy rest IH]; intros r G Hlen Href; [reflexivity|].
  inversion Href as [|? ? Hr0 Hr']; subst. cbn [residual_sum_loop].
  rewrite Hr0.
  destruct (nth_error G (i_seqs proxy)) as [g|] eqn:Eg.
  - rewrite assign_nth_same.
    + match goal with
      | |- residual_sum_loop _ _ ?acc _ = _ =>
          replace acc with r by (cbn; ring)
      end.
      apply (IH r G Hlen Hr').
    + rewrite Eg. f_equal. destruct g as [g0 g1 g2]. unfold add3. cbn.
      f_equal; ring.
  - apply nth_error_None in Eg.
    assert (i_seqs proxy < length sites_cart)%nat
      by (apply nth_error_Some; congruence).
    lia.
Qed.

(** X9.  In exact arithmetic the residual sum of a list of proxies split
    in two is the sum of the residual sums of the two parts, the second
    part being run on the gradient array the first part leaves. *)
Theorem residual_sum_of_two_parts
    (p1 p2 : list (reference_coordinate_proxy R))
    (G G1 G2 : list (array3 R)) (r1 r2 : R) :
  reference_coordinate_residual_sum sites_cart p1 G = Finished r1 G1 ->
  reference_coordinate_residual_sum sites_cart p2 G1 = Finished r2 G2 ->
  reference_coordinate_residual_sum sites_cart (p1 ++ p2) G
  = Finished (r1 + r2) G2.
Proof.
  unfold reference_coordinate_residual_sum. intros H1 H2.
  rewrite residual_sum_loop_app, H1.
  apply (residual_sum_loop_shift _ _ r1) in H2.
  cbn in H2. rewrite Rplus_0_l in H2. rewrite H2. f_equal. cbn. ring.
Qed.

(** X10.  In exact arithmetic, when no weight is negative the residual
    sum is not negative. *)
Theorem residual_sum_not_negative
    (proxies : list (reference_coordinate_proxy R))
    (G G' : list (array3 R)) (r : R) :
  Forall (fun proxy => 0 <= weight proxy) proxies ->
  reference_coordinate_residual_sum sites_cart proxies G = Finished r G' ->
  0 <= r.
Proof.
  unfold reference_coordinate_residual_sum. intros Hw H.
  change 0 with (@of_int R Exact.exact 0%Z).
  eapply residual_sum_loop_nonnegative; eassumption.
Qed.

(** X11.  In exact arithmetic, when every proxy's site is at its reference
    position (and the gradient array is at least as long as the array of
    sites) the residual sum is zero and the gradient array is returned as
    it was given. *)
Theorem residual_sum_at_reference
    (proxies : list (reference_coordinate_proxy R)) (G : list (array3 R)) :
  (length sites_cart <= length G)%nat ->
  Forall (fun proxy =>
            nth_error sites_cart (i_seqs proxy) = Some (ref_sites proxy))
         proxies ->
  reference_coordinate_residual_sum sites_cart proxies G = Finished 0 G.
Proof.
  intros Hlen Href. unfold reference_coordinate_residual_sum.
  change 0 with (@of_int R Exact.exact 0%Z).
  apply residual_sum_loop_at_reference; assumption.
Qed.

End ResidualSumExact.

Section ResidualSumGradient.

Import ReferenceCoordinate.
Local Open Scope R_scope.

(** X12.  In exact arithmetic the gradient that a proxy adds is the
    gradient of its residual: moving the site by [h] changes the residual
    [w |site - ref|^2] by the scalar product of the added gradient with
    [h], plus [w |h|^2]. *)
Theorem residual_gradient_is_the_gradient
    (sites_cart sites_cart' : list (array3 R))
    (proxy : reference_coordinate_proxy R) (site h g : array3 R)
    (G : list (array3 R)) :
  nth_error sites_cart (i_seqs proxy) = Some site ->
  nth_error sites_cart' (i_seqs proxy) = Some (add3 site h) ->
  nth_error G (i_seqs proxy) = Some g ->
  exists (r r' : R) (gradient gradient' : array3 R),
    reference_coordinate_residual_sum sites_cart (proxy :: nil) G
    = Finished r (assign_nth G (i_seqs proxy) (add3 g gradient))
    /\ reference_coordinate_residual_sum sites_cart' (proxy :: nil) G
       = Finished r' (assign_nth G (i_seqs proxy) (add3 g gradient'))
    /\ r' = r + (x0 gradient * x0 h + x1 gradient * x1 h + x2 gradient * x2 h)
            + weight proxy * (x0 h * x0 h + x1 h * x1 h + x2 h * x2 h).
Proof.
  intros Hs Hs' Hg. unfold reference_coordinate_residual_sum.
  rewrite (@residual_sum_loop_cons sites_cart proxy nil site g _ G Hs Hg).
  rewrite (@residual_sum_loop_cons sites_cart' proxy nil (add3 site h) g _ G
             Hs' Hg).
  cbn [residual_sum_loop].
  do 4 eexists. split; [reflexivity|]. split; [reflexivity|].
  destruct site, h. unfold add3. cbn. ring.
Qed.

End ResidualSumGradient.

(** ** Congruence transforms in exact arithmetic *)

Section CongruenceExact.

Local Open Scope R_scope.

(** Unfolds the congruence transform of a tensor to its six polynomial
    components. *)
Ltac unfold_congruence :=
  cbv [A_Xaniso_At A_X_At SymMx33_as_Xaniso Xaniso_as_SymMx33
       MatrixLite.multiply_33_33 MatrixLite.transpose identity9 add6 scale6
       map6 m0 m1 m2 m3 m4 m5 m6 m7 m8 a0 a1 a2 a3 a4 a5
       add mul of_int Exact.exact].

Lemma A_Xaniso_At_compose (A B : array9 R) (T : array6 R) :
  A_Xaniso_At A (A_Xaniso_At B T)
  = A_Xaniso_At (MatrixLite.multiply_33_33 A B) T.
Proof.
  destruct A, B, T. unfold_congruence. f_equal; ring.
Qed.

Lemma A_Xaniso_At_identity (T : array6 R) : A_Xaniso_At identity9 T = T.
Proof.
  destruct T. unfold_congruence. f_equal; ring.
Qed.

Lemma A_Xaniso_At_add (A : array9 R) (S T : array6 R) :
  A_Xaniso_At A (add6 S T) = add6 (A_Xaniso_At A S) (A_Xaniso_At A T).
Proof.
  destruct A, S, T. unfold_congruence. f_equal; ring.
Qed.

Lemma A_Xaniso_At_scale (A : array9 R) (c : R) (T : array6 R) :
  A_Xaniso_At A (scale6 c T) = scale6 c (A_Xaniso_At A T).
Proof.
  destruct A, T. unfold_congruence. f_equal; ring.
Qed.

(** X13.  In exact arithmetic the congruence transform [A X At] of a
    symmetric matrix is symmetric, so that storing six of its nine
    elements loses nothing: expanding [A_Xaniso_At(A, Xaniso)] gives the
    full product [A_X_At(A, X)]. *)
Theorem A_Xaniso_At_is_the_full_product (A : array9 R) (Xaniso : array6 R) :
  Xaniso_as_SymMx33 (A_Xaniso_At A Xaniso)
  = A_X_At A (Xaniso_as_SymMx33 Xaniso)
  /\ MatrixLite.transpose (A_X_At A (Xaniso_as_SymMx33 Xaniso))
     = A_X_At A (Xaniso_as_SymMx33 Xaniso).
Proof.
  destruct A, Xaniso. unfold_congruence. split; f_equal; ring.
Qed.

(** X14.  In exact arithmetic congruence transforms compose as their
    matrices multiply, the identity matrix transforms every tensor to
    itself, and the transform is linear in the tensor. *)
Theorem A_Xaniso_At_composes (A B : array9 R) (S T : array6 R) (c : R) :
  A_Xaniso_At A (A_Xaniso_At B T)
  = A_Xaniso_At (MatrixLite.multiply_33_33 A B) T
  /\ A_Xaniso_At identity9 T = T
  /\ A_Xaniso_At A (add6 S T) = add6 (A_Xaniso_At A S) (A_Xaniso_At A T)
  /\ A_Xaniso_At A (scale6 c T) = scale6 c (A_Xaniso_At A T).
Proof.
  split; [apply A_Xaniso_At_compose|].
  split; [apply A_Xaniso_At_identity|].
  split; [apply A_Xaniso_At_add | apply A_Xaniso_At_scale].
Qed.

(** X15.  In exact arithmetic, for a unit cell whose orthogonalization
    matrix times its fractionalization matrix is the identity, a tensor
    converted from Cartesian to reciprocal-star form and back is the same
    tensor, and so is one converted from Cartesian form to beta and back;
    when the reciprocal edges are not zero the same holds for Cartesian to
    fractional and back, and an isotropic value converted to fractional
    form and back is the same value. *)
Theorem Cartesian_round_trips (uc : UnitCell R) (T : array6 R) (u : R) :
  MatrixLite.multiply_33_33 (getOrthogonalizationMatrix uc)
    (getFractionalizationMatrix uc) = identity9 ->
  x0 (getLen uc true) <> 0 ->
  x1 (getLen uc true) <> 0 ->
  x2 (getLen uc true) <> 0 ->
  Ustar_as_Ucart uc (Ucart_as_Ustar uc T) = T
  /\ beta_as_Ucart uc (Ucart_as_beta uc T) = T
  /\ Uuvrs_as_Ucart uc (Ucart_as_Uuvrs uc T) = T
  /\ Uuvrs_as_Uiso uc (Uiso_as_Uuvrs uc u) = u.
Proof.
  intros HI H0 H1 H2.
  assert (E : forall X, Ustar_as_Ucart uc (Ucart_as_Ustar uc X) = X).
  { intros X. unfold Ustar_as_Ucart, Ucart_as_Ustar.
    rewrite A_Xaniso_At_compose, HI. apply A_Xaniso_At_identity. }
  assert (B : forall X : array6 R, beta_as_Ustar (Ustar_as_beta X) = X).
  { intros [t0 t1 t2 t3 t4 t5].
    unfold beta_as_Ustar, Ustar_as_beta, scale6, div6, map6.
    cbn -[TwoPiSquared]. pose proof TwoPiSquared_neq_0.
    f_equal; field; assumption. }
  assert (V : forall X : array6 R, Uuvrs_as_Ustar uc (Ustar_as_Uuvrs uc X) = X).
  { intros [t0 t1 t2 t3 t4 t5]. unfold Uuvrs_as_Ustar, Ustar_as_Uuvrs. cbn.
    f_equal; field; auto. }
  split; [apply E|].
  split; [unfold beta_as_Ucart, Ucart_as_beta; rewrite B; apply E|].
  split; [unfold Uuvrs_as_Ucart, Ucart_as_Uuvrs; rewrite V; apply E|].
  unfold Uuvrs_as_Uiso, Uiso_as_Uuvrs, Uuvrs_as_Ucart, Ucart_as_Uuvrs.
  rewrite V, E. unfold Ucart_as_Uiso, Uiso_as_Ucart. cbn. field.
Qed.

End CongruenceExact.

(** The witness of X15: the orthorhombic cell with edges 1, 1/2, 1/3. *)
Lemma Cartesian_round_trips_witness :
  Ustar_as_Ucart Inputs.orthorhombic_cell
    (Ucart_as_Ustar Inputs.orthorhombic_cell (Inputs.exact_tensor 1 2 3 4 5 6))
  = Inputs.exact_tensor 1 2 3 4 5 6
  /\ beta_as_Ucart Inputs.orthorhombic_cell
       (Ucart_as_beta Inputs.orthorhombic_cell (Inputs.exact_tensor 1 2 3 4 5 6))
     = Inputs.exact_tensor 1 2 3 4 5 6
  /\ Uuvrs_as_Ucart Inputs.orthorhombic_cell
       (Ucart_as_Uuvrs Inputs.orthorhombic_cell
          (Inputs.exact_tensor 1 2 3 4 5 6))
     = Inputs.exact_tensor 1 2 3 4 5 6
  /\ Uuvrs_as_Uiso Inputs.orthorhombic_cell
       (Uiso_as_Uuvrs Inputs.orthorhombic_cell 7%R) = 7%R.
Proof.
  apply (@Cartesian_round_trips Inputs.orthorhombic_cell
           (Inputs.exact_tensor 1 2 3 4 5 6) 7%R).
  - unfold MatrixLite.multiply_33_33, identity9. cbn. f_equal; lra.
  - cbn. lra.
  - cbn. lra.
  - cbn. lra.
Defined.

(** ** Debye-Waller factors in exact arithmetic *)

Section DebyeWallerExact.

Local Open Scope R_scope.

(** X16.  In exact arithmetic the Debye-Waller factor computed from beta
    agrees with the one computed from Ustar: converting Ustar to beta and
    calling [DebyeWallerFactor_beta] gives [DebyeWallerFactorUstar], and the
    other way round. *)
Theorem DebyeWaller_beta_agrees_with_Ustar
    (MIx : Miller_Index) (Ustar beta : array6 R) :
  DebyeWallerFactor_beta MIx (Ustar_as_beta Ustar)
  = DebyeWallerFactorUstar MIx Ustar
  /\ DebyeWallerFactorUstar MIx (beta_as_Ustar beta)
     = DebyeWallerFactor_beta MIx beta.
Proof.
  pose proof TwoPiSquared_neq_0 as H.
  destruct Ustar, beta.
  unfold DebyeWallerFactor_beta, DebyeWallerFactorUstar, Ustar_as_beta,
    beta_as_Ustar, scale6, div6, map6.
  cbn -[TwoPiSquared]. split; f_equal; field; assumption.
Qed.

(** X17.  In exact arithmetic the isotropic Debye-Waller factor is
    positive, it is at most 1 when neither B nor (sin(theta)/lambda)^2 is
    negative, and the factor of a sum of two B values is the product of
    their factors; the anisotropic factor of a sum of two tensors is
    likewise the product of their factors. *)
Theorem DebyeWaller_factor_range_and_product
    (stol2 Biso Biso' : R) (MIx : Miller_Index) (U U' : array6 R) :
  0 < DebyeWallerFactorBiso stol2 Biso
  /\ (0 <= Biso -> 0 <= stol2 -> DebyeWallerFactorBiso stol2 Biso <= 1)
  /\ DebyeWallerFactorBiso stol2 (Biso + Biso')
     = DebyeWallerFactorBiso stol2 Biso * DebyeWallerFactorBiso stol2 Biso'
  /\ DebyeWallerFactorUstar MIx (add6 U U')
     = DebyeWallerFactorUstar MIx U * DebyeWallerFactorUstar MIx U'.
Proof.
  unfold DebyeWallerFactorBiso, DebyeWallerFactorUstar, add6. cbn.
  split; [apply exp_pos|].
  split.
  - intros HB Hs.
    destruct (Req_dec (- Biso * stol2) 0) as [E|E];
      [rewrite E, exp_0; lra|].
    rewrite <- exp_0. left. apply exp_increasing. nra.
  - split; rewrite <- exp_plus; f_equal; ring.
Qed.

End DebyeWallerExact.

(** ** The eigenvalues in exact arithmetic *)

Section EigenvaluesCorrect.

Local Open Scope R_scope.

Lemma cos_triple_angle (x : R) : cos (3 * x) = 4 * cos x * cos x * cos x - 3 * cos x.
Proof.
  replace (3 * x) with (2 * x + x) by ring.
  rewrite cos_plus, cos_2a_cos, sin_2a.
  pose proof (sin2_cos2 x) as H. unfold Rsqr in H.
  replace (2 * sin x * cos x * sin x) with (2 * cos x * (sin x * sin x)) by ring.
  replace (sin x * sin x) with (1 - cos x * cos x) by lra. ring.
Qed.

Lemma cos_three_directions (x : R) :
  cos (x / 3) + cos ((x + 2 * PI) / 3) + cos ((x + 4 * PI) / 3) = 0.
Proof.
  replace ((x + 2 * PI) / 3) with (x / 3 + 2 * (PI / 3)) by field.
  replace ((x + 4 * PI) / 3) with (x / 3 + PI / 3 + PI) by field.
  rewrite neg_cos, !cos_plus, cos_2PI3, sin_2PI3, cos_PI3, sin_PI3.
  field.
Qed.

Lemma cardan_roots_sum (adp : array6 R) :
  cardan_root adp 0 + cardan_root adp 1 + cardan_root adp 2
  = a0 adp + a1 adp + a2 adp.
Proof.
  unfold cardan_root. cbn -[cubic_p3 cubic_q cubic_r].
  set (phi := acos _). set (rz := 2 * Exact.Rpow _ _).
  pose proof (cos_three_directions phi) as H.
  replace ((phi + 0 * PI) / 3) with (phi / 3) by field.
  replace ((phi + 2 * PI) / 3) with ((phi + 2 * PI) / 3) by reflexivity.
  replace (rz * cos (phi / 3) - cubic_r adp / 3 +
           (rz * cos ((phi + 2 * PI) / 3) - cubic_r adp / 3) +
           (rz * cos ((phi + 4 * PI) / 3) - cubic_r adp / 3))
    with (rz * (cos (phi / 3) + cos ((phi + 2 * PI) / 3)
                + cos ((phi + 4 * PI) / 3)) - cubic_r adp) by field.
  rewrite H. unfold cubic_r. cbn. ring.
Qed.


Lemma Eigenvalues_1_3_3 :
  @Eigenvalues R Exact.exact Exact.exact_cmath (Inputs.exact_tensor 1 3 3 0 0 0)
  = Returns (mk3 3 1 3).
Proof.
  assert (HD : @leb R Exact.exact (cubic_D (Inputs.exact_tensor 1 3 3 0 0 0)) (IZR 0) = true).
  { unfold cubic_D, cubic_p3, cubic_p, cubic_q, cubic_r, cubic_s, cubic_t.
    cbn. exact_comparison. }
  rewrite (Eigenvalues_roots _ HD).
  assert (R0 : cardan_root (Inputs.exact_tensor 1 3 3 0 0 0) 0 = 3
            /\ cardan_root (Inputs.exact_tensor 1 3 3 0 0 0) 1 = 1
            /\ cardan_root (Inputs.exact_tensor 1 3 3 0 0 0) 2 = 3).
  { unfold cardan_root, cubic_D, cubic_p3, cubic_p, cubic_q, cubic_r,
      cubic_s, cubic_t.
    cbn.
    lazymatch goal with
    | |- context [sqrt ?x] => replace x with ((8 / 27) * (8 / 27)) by lra
    end.
    rewrite sqrt_square by lra.
    lazymatch goal with
    | |- context [acos ?x] => replace x with (- (1)) by lra
    end.
    rewrite acos_opp, acos_1, cube_root_8_27.
    replace ((PI - 0 + 0 * PI) / 3) with (PI / 3) by lra.
    replace ((PI - 0 + 2 * PI) / 3) with PI by lra.
    replace ((PI - 0 + 4 * PI) / 3) with (- (PI / 3) + 2 * INR 1 * PI)
      by (simpl; lra).
    rewrite cos_period, cos_neg, cos_PI, cos_PI3. repeat split; lra. }
  destruct R0 as (-> & -> & ->).
  cbn. unfold Exact.Rleb.
  repeat (destruct Rle_dec as [?|_]; [exfalso; lra|]). cbn. reflexivity.
Qed.


(** The cube root of zeta = sqrt(a^3) is sqrt(a). *)
Lemma cube_root_of_zeta (a : R) :
  0 < a -> Exact.Rpow (sqrt (a * a * a)) (1 / 3) = sqrt a.
Proof.
  intros Ha.
  assert (Ha3 : 0 < a * a * a) by (repeat apply Rmult_lt_0_compat; assumption).
  unfold Exact.Rpow.
  destruct (Req_dec_T (sqrt (a * a * a)) 0) as [E|_].
  - pose proof (sqrt_lt_R0 _ Ha3). lra.
  - rewrite <- (Rpower_sqrt _ Ha3).
    replace (a * a * a) with (a ^ 3) by ring.
    rewrite <- Rpower_pow by assumption.
    rewrite !Rpower_mult.
    match goal with
    | |- Rpower a ?e = _ => replace e with (/ 2) by (simpl; field)
    end.
    apply Rpower_sqrt. assumption.
Qed.

Lemma zeta_is_a_sqrt_a (a : R) : 0 < a -> sqrt (a * a * a) = a * sqrt a.
Proof.
  intros Ha. replace (a * a * a) with ((a * a) * a) by ring.
  rewrite sqrt_mult by nra. rewrite sqrt_square by lra. reflexivity.
Qed.

(** The reduced equation y^3 + p y + q = 0 at the roots of Cardan's
    formula. *)
Lemma cardan_reduced (p q : R) (i : nat) :
  p < 0 -> p * p * p / 27 + q * q / 4 <= 0 ->
  let zeta := sqrt (- (p * p * p) / 27) in
  let phi := acos (- q / (2 * zeta)) in
  let y := 2 * Exact.Rpow zeta (1 / 3) * cos ((phi + 2 * INR i * PI) / 3) in
  y * y * y + p * y + q = 0.
Proof.
  intros Hp HD zeta phi y.
  set (a := - p / 3). assert (Ha : 0 < a) by (unfold a; lra).
  assert (Ez : zeta = a * sqrt a).
  { unfold zeta. replace (- (p * p * p) / 27) with (a * a * a)
      by (unfold a; field).
    apply zeta_is_a_sqrt_a. exact Ha. }
  assert (Er : Exact.Rpow zeta (1 / 3) = sqrt a).
  { unfold zeta. replace (- (p * p * p) / 27) with (a * a * a)
      by (unfold a; field).
    apply cube_root_of_zeta. exact Ha. }
  assert (Hs : 0 < sqrt a) by (apply sqrt_lt_R0; exact Ha).
  assert (Hss : sqrt a * sqrt a = a) by (apply sqrt_sqrt; lra).
  assert (Hz : 0 < zeta) by (rewrite Ez; nra).
  assert (Hzz : zeta * zeta = a * a * a) by (rewrite Ez; nra).
  assert (Hq : q * q <= 4 * (zeta * zeta)).
  { rewrite Hzz. unfold a. nra. }
  assert (Hc : -1 <= - q / (2 * zeta) <= 1).
  { split.
    - apply Rmult_le_reg_r with (2 * zeta); [lra|].
      unfold Rdiv. rewrite Rmult_assoc, Rinv_l by lra. nra.
    - apply Rmult_le_reg_r with (2 * zeta); [lra|].
      unfold Rdiv. rewrite Rmult_assoc, Rinv_l by lra. nra. }
  assert (Hcos : cos (3 * ((phi + 2 * INR i * PI) / 3)) = - q / (2 * zeta)).
  { replace (3 * ((phi + 2 * INR i * PI) / 3)) with (phi + 2 * INR i * PI)
      by field.
    rewrite cos_period. unfold phi. apply cos_acos. exact Hc. }
  rewrite cos_triple_angle in Hcos.
  unfold y. rewrite Er.
  set (c := cos ((phi + 2 * INR i * PI) / 3)) in *.
  assert (Hq' : q = - (2 * zeta) * (4 * c * c * c - 3 * c)).
  { rewrite Hcos. field. lra. }
  rewrite Hq', Ez.
  replace p with (- 3 * a) by (unfold a; field).
  replace (2 * sqrt a * c * (2 * sqrt a * c) * (2 * sqrt a * c))
    with (8 * (sqrt a * sqrt a) * sqrt a * c * c * c) by ring.
  rewrite Hss. ring.
Qed.

(** The determinant of [adp - lambda I] at [lambda = y - r / 3] is the
    reduced cubic in [y], negated. *)
Lemma Determinant_reduced (adp : array6 R) (y : R) :
  MatrixLite.Determinant
    (Xaniso_as_SymMx33 (shift_diagonal adp (y - cubic_r adp / 3)))
  = - (y * y * y + cubic_p adp * y + cubic_q adp).
Proof.
  destruct adp.
  unfold MatrixLite.Determinant, Xaniso_as_SymMx33, shift_diagonal, cubic_p,
    cubic_q, cubic_r, cubic_s, cubic_t.
  cbn. field.
Qed.

Lemma cardan_root_is_eigenvalue (adp : array6 R) (i : Z) :
  cubic_D adp <= 0 -> cubic_p adp <> 0 -> (0 <= i <= 2)%Z ->
  MatrixLite.Determinant
    (Xaniso_as_SymMx33 (shift_diagonal adp (cardan_root adp i))) = 0.
Proof.
  intros HD Hp Hi.
  unfold cubic_D, cubic_p3 in HD. cbn -[cubic_p cubic_q] in HD.
  assert (Hp' : cubic_p adp < 0).
  { destruct (Rle_lt_dec 0 (cubic_p adp)) as [H|H]; [|exact H].
    assert (0 < cubic_p adp) by lra.
    assert (0 < cubic_p adp * cubic_p adp * cubic_p adp)
      by (repeat apply Rmult_lt_0_compat; assumption).
    pose proof (Rle_0_sqr (cubic_q adp)) as Hq. unfold Rsqr in Hq. lra. }
  pose proof (@cardan_reduced (cubic_p adp) (cubic_q adp) (Z.to_nat i) Hp' HD)
    as Hy. cbn zeta in Hy.
  unfold cardan_root, cubic_p3.
  cbn -[cubic_p cubic_q cubic_r MatrixLite.Determinant Xaniso_as_SymMx33
        shift_diagonal].
  replace (IZR (i * 2)) with (2 * INR (Z.to_nat i))
    by (rewrite INR_IZR_INZ, Z2Nat.id, <- mult_IZR by lia; f_equal; lia).
  rewrite Determinant_reduced. rewrite Hy. ring.
Qed.

(** X18.  In exact arithmetic, when [Eigenvalues] succeeds on a tensor
    whose reduced cubic has [p <> 0] (the three eigenvalues are not all
    equal, so that no divisor of the formula is zero), the three values it
    returns add up to the trace of the tensor, so that their mean is
    [Ucart_as_Uiso] of the tensor. *)
Theorem Eigenvalues_sum_is_the_trace (adp : array6 R) (ev : array3 R) :
  Eigenvalues adp = Returns ev ->
  cubic_p adp <> 0 ->
  x0 ev + x1 ev + x2 ev = a0 adp + a1 adp + a2 adp
  /\ (x0 ev + x1 ev + x2 ev) / 3 = Ucart_as_Uiso adp.
Proof.
  intros H _. pose proof (cardan_roots_sum adp) as Hsum.
  unfold Eigenvalues, cctbx_assert, bind, throw in H.
  destruct (leb (cubic_D adp) _); [|discriminate].
  repeat (destruct (leb (cardan_root adp _) _); [discriminate|]).
  injection H as <-. cbn [x0 x1 x2]. unfold Ucart_as_Uiso.
  split; [exact Hsum | exact (f_equal (fun v => v / 3) Hsum)].
Qed.

(** X19.  In exact arithmetic, when [Eigenvalues] succeeds on a tensor
    whose reduced cubic has [p <> 0] (the three eigenvalues are not all
    equal), each value it returns is an eigenvalue of the tensor, that is,
    the determinant of [adp - lambda I] vanishes there, and each is above
    zero. *)
Theorem Eigenvalues_returns_eigenvalues (adp : array6 R) (ev : array3 R) :
  Eigenvalues adp = Returns ev ->
  cubic_p adp <> 0 ->
  (MatrixLite.Determinant (Xaniso_as_SymMx33 (shift_diagonal adp (x0 ev))) = 0
   /\ 0 < x0 ev)
  /\ (MatrixLite.Determinant (Xaniso_as_SymMx33 (shift_diagonal adp (x1 ev))) = 0
      /\ 0 < x1 ev)
  /\ (MatrixLite.Determinant (Xaniso_as_SymMx33 (shift_diagonal adp (x2 ev))) = 0
      /\ 0 < x2 ev).
Proof.
  intros H Hp.
  destruct (Eigenvalues_success_positive_exact _ H) as (P0 & P1 & P2).
  unfold Eigenvalues, cctbx_assert, bind, throw in H.
  destruct (leb (cubic_D adp) _) eqn:ED; [|discriminate].
  assert (HD : cubic_D adp <= 0).
  { cbn [leb Exact.exact] in ED. unfold Exact.Rleb in ED.
    destruct Rle_dec as [Hle|]; [exact Hle|discriminate]. }
  repeat (destruct (leb (cardan_root adp _) _); [discriminate|]).
  injection H as <-.
  refine (conj (conj (@cardan_root_is_eigenvalue adp 0 HD Hp _) P0)
            (conj (conj (@cardan_root_is_eigenvalue adp 1 HD Hp _) P1)
               (conj (@cardan_root_is_eigenvalue adp 2 HD Hp _) P2))); lia.
Qed.

End EigenvaluesCorrect.

(** The witness of X18: the tensor (1, 3, 3, 0, 0, 0), with eigenvalues
    3, 1 and 3; its reduced cubic has p = -4/3. *)
Lemma Eigenvalues_sum_is_the_trace_witness :
  (3 + 1 + 3 = 1 + 3 + 3)%R
  /\ ((3 + 1 + 3) / 3)%R = Ucart_as_Uiso (Inputs.exact_tensor 1 3 3 0 0 0).
Proof.
  apply (@Eigenvalues_sum_is_the_trace (Inputs.exact_tensor 1 3 3 0 0 0)
           (mk3 3%R 1%R 3%R)).
  - apply Eigenvalues_1_3_3.
  - unfold cubic_p, cubic_r, cubic_s. cbn. lra.
Defined.

(** The witness of X19: the same tensor; its reduced cubic has
    p = -4/3. *)
Lemma Eigenvalues_returns_eigenvalues_witness :
  (MatrixLite.Determinant
     (Xaniso_as_SymMx33
        (shift_diagonal (Inputs.exact_tensor 1 3 3 0 0 0) 3%R)) = 0%R
   /\ (0 < 3)%R)
  /\ (MatrixLite.Determinant
        (Xaniso_as_SymMx33
           (shift_diagonal (Inputs.exact_tensor 1 3 3 0 0 0) 1%R)) = 0%R
      /\ (0 < 1)%R)
  /\ (MatrixLite.Determinant
        (Xaniso_as_SymMx33
           (shift_diagonal (Inputs.exact_tensor 1 3 3 0 0 0) 3%R)) = 0%R
      /\ (0 < 3)%R).
Proof.
  apply (@Eigenvalues_returns_eigenvalues (Inputs.exact_tensor 1 3 3 0 0 0)
           (mk3 3%R 1%R 3%R)).
  - apply Eigenvalues_1_3_3.
  - unfold cubic_p, cubic_r, cubic_s. cbn. lra.
Defined.

(** ** Fractional coordinates in exact arithmetic *)

Section CoordinatesExact.

Import Coordinates.
Local Open Scope R_scope.

(** [fmod(x, 1)] lies strictly between -1 and 1, has the sign of [x] and
    differs from [x] by a whole number. *)
Lemma Rfmod_1 (x : R) :
  -1 < Rfmod x 1 < 1
  /\ (0 <= x -> 0 <= Rfmod x 1)
  /\ (x <= 0 -> Rfmod x 1 <= 0)
  /\ exists n : Z, x = Rfmod x 1 + IZR n.
Proof.
  unfold Rfmod, Rtrunc. replace (x / 1) with x by field.
  destruct (Rle_dec 0 x) as [H|H].
  - destruct (base_Int_part x) as [B1 B2].
    split; [lra|]. split; [intros _; lra|]. split.
    + intros Hx. assert (E : x = 0) by lra. subst x.
      rewrite <- (Int_part_spec 0 0) by (simpl; lra). simpl. lra.
    + exists (Int_part x). ring.
  - destruct (base_Int_part (- x)) as [B1 B2]. rewrite opp_IZR.
    split; [lra|]. split; [intros Hx; lra|]. split; [intros _; lra|].
    exists (- Int_part (- x))%Z. rewrite opp_IZR. ring.
Qed.

Lemma Rfmod_1_small (x : R) : 0 <= x < 1 -> Rfmod x 1 = x.
Proof.
  intros Hx. unfold Rfmod, Rtrunc. replace (x / 1) with x by field.
  destruct (Rle_dec 0 x) as [_|H]; [|lra].
  rewrite <- (Int_part_spec x 0) by (simpl; lra). simpl. ring.
Qed.

Lemma modPositive_element_exact (fuel : nat) (x : R) :
  (2 <= fuel)%nat ->
  exists w : R,
    modPositive_element Rfmod fuel x = Returns w
    /\ 0 <= w < 1
    /\ (exists n : Z, x = w + IZR n)
    /\ modPositive_element Rfmod fuel w = Returns w.
Proof.
  intros Hfuel.
  assert (Hsmall : forall w, 0 <= w < 1 ->
            modPositive_element Rfmod fuel w = Returns w).
  { intros w Hw. unfold modPositive_element. cbn [of_int Exact.exact].
    rewrite (Rfmod_1_small Hw).
    destruct fuel as [|fuel]; [lia|].
    cbn. unfold Exact.Rltb, Exact.Rleb.
    destruct (Rlt_dec w 0); [lra|]. cbn.
    destruct (Rle_dec 1 w); [lra|]. reflexivity. }
  destruct (Rfmod_1 x) as (Hr & Hpos & Hneg & n & Hn).
  destruct (Rlt_dec (Rfmod x 1) 0) as [Hlt|Hge].
  - exists (Rfmod x 1 + 1). split; [|split; [lra|split]].
    + unfold modPositive_element. cbn [of_int Exact.exact].
      destruct fuel as [|[|fuel]]; try lia.
      cbn. unfold Exact.Rltb, Exact.Rleb.
      destruct (Rlt_dec (Rfmod x 1) 0); [|lra].
      destruct (Rlt_dec (Rfmod x 1 + 1) 0); [lra|]. cbn.
      destruct (Rle_dec 1 (Rfmod x 1 + 1)); [lra|]. reflexivity.
    + exists (n - 1)%Z. rewrite minus_IZR. lra.
    + apply Hsmall. lra.
  - exists (Rfmod x 1). split; [|split; [lra|split]].
    + unfold modPositive_element. cbn [of_int Exact.exact].
      destruct fuel as [|fuel]; try lia.
      cbn. unfold Exact.Rltb, Exact.Rleb.
      destruct (Rlt_dec (Rfmod x 1) 0); [lra|]. cbn.
      destruct (Rle_dec 1 (Rfmod x 1)); [lra|]. reflexivity.
    + exists n. exact Hn.
    + apply Hsmall. lra.
Qed.

(** X20.  In exact arithmetic [modPositive] terminates (two turns of each
    loop are enough), every element of its result is at least 0 and below
    1 and differs from the element it comes from by a whole number, and
    applying [modPositive] to the result changes nothing. *)
Theorem modPositive_range (fuel : nat) (this : array3 R) :
  (2 <= fuel)%nat ->
  exists result : array3 R,
    modPositive Rfmod fuel this = Returns result
    /\ (0 <= x0 result < 1 /\ 0 <= x1 result < 1 /\ 0 <= x2 result < 1)
    /\ (exists n0 n1 n2 : Z,
          x0 this = x0 result + IZR n0 /\ x1 this = x1 result + IZR n1
          /\ x2 this = x2 result + IZR n2)
    /\ modPositive Rfmod fuel result = Returns result.
Proof.
  intros Hfuel.
  destruct (modPositive_element_exact (x0 this) Hfuel)
    as (w0 & E0 & R0 & (n0 & N0) & I0).
  destruct (modPositive_element_exact (x1 this) Hfuel)
    as (w1 & E1 & R1 & (n1 & N1) & I1).
  destruct (modPositive_element_exact (x2 this) Hfuel)
    as (w2 & E2 & R2 & (n2 & N2) & I2).
  exists (mk3 w0 w1 w2). unfold modPositive. cbn [x0 x1 x2].
  rewrite E0, E1, E2, I0, I1, I2. cbn [bind].
  split; [reflexivity|]. split; [tauto|].
  split; [exists n0, n1, n2; auto | reflexivity].
Qed.

Lemma modShort_element_exact (x : R) :
  -1 / 2 < modShort_element Rfmod x <= 1 / 2
  /\ exists n : Z, x = modShort_element Rfmod x + IZR n.
Proof.
  destruct (Rfmod_1 x) as (Hr & _ & _ & n & Hn).
  unfold modShort_element. cbn. unfold Exact.Rleb, Exact.Rltb.
  destruct (Rle_dec (Rfmod x 1) (- (1 / 2))).
  - split; [lra|]. exists (n - 1)%Z. rewrite minus_IZR. lra.
  - destruct (Rlt_dec (1 / 2) (Rfmod x 1)).
    + split; [lra|]. exists (n + 1)%Z. rewrite plus_IZR. lra.
    + split; [lra|]. exists n. exact Hn.
Qed.

(** X21.  In exact arithmetic every element of the result of [modShort]
    is above -1/2 and at most 1/2, and differs from the element it comes
    from by a whole number. *)
Theorem modShort_range (this : array3 R) :
  (-1 / 2 < x0 (modShort Rfmod this) <= 1 / 2
   /\ -1 / 2 < x1 (modShort Rfmod this) <= 1 / 2
   /\ -1 / 2 < x2 (modShort Rfmod this) <= 1 / 2)
  /\ exists n0 n1 n2 : Z,
       x0 this = x0 (modShort Rfmod this) + IZR n0
       /\ x1 this = x1 (modShort Rfmod this) + IZR n1
       /\ x2 this = x2 (modShort Rfmod this) + IZR n2.
Proof.
  destruct (modShort_element_exact (x0 this)) as (R0 & n0 & N0).
  destruct (modShort_element_exact (x1 this)) as (R1 & n1 & N1).
  destruct (modShort_element_exact (x2 this)) as (R2 & n2 & N2).
  unfold modShort, map3. cbn [x0 x1 x2].
  split; [tauto|]. exists n0, n1, n2. auto.
Qed.

(** X22.  In exact arithmetic [Length2] is never negative and is zero
    only for the vector the default constructor builds. *)
Theorem Length2_zero_iff (this : array3 R) :
  0 <= Length2 this
  /\ (Length2 this = 0 <-> this = cartesian_default).
Proof.
  destruct this as [x y z]. unfold Length2, dot3, cartesian_default. cbn.
  split; [nra|]. split.
  - intros H.
    assert (x = 0) by nra. assert (y = 0) by nra. assert (z = 0) by nra.
    subst. reflexivity.
  - intros H. injection H as -> -> ->. ring.
Qed.

End CoordinatesExact.

(** The witness of X20: the fractional coordinates (-1/4, 5/2, 3). *)
Lemma modPositive_range_witness :
  exists result : array3 R,
    Coordinates.modPositive Coordinates.Rfmod 2
      (mk3 (-1 / 4)%R (5 / 2)%R 3%R) = Returns result
    /\ ((0 <= x0 result < 1)%R /\ (0 <= x1 result < 1)%R
        /\ (0 <= x2 result < 1)%R)
    /\ (exists n0 n1 n2 : Z,
          (-1 / 4)%R = (x0 result + IZR n0)%R
          /\ (5 / 2)%R = (x1 result + IZR n1)%R
          /\ 3%R = (x2 result + IZR n2)%R)
    /\ Coordinates.modPositive Coordinates.Rfmod 2 result = Returns result.
Proof.
  apply (@modPositive_range 2 (mk3 (-1 / 4)%R (5 / 2)%R 3%R)). lia.
Defined.

(** ** The eigenvectors in exact arithmetic *)

Section EigenvectorsExact.

Local Open Scope R_scope.

(** Decides the comparisons of real numbers in the goal that [lra] can
    decide, one after the other. *)
Ltac decide_comparison :=
  match goal with
  | |- context [Rlt_dec ?a ?b] =>
      let H := fresh in
      first [ assert (H : a < b) by lra;
              destruct (Rlt_dec a b); [clear H | contradiction]
            | assert (H : ~ a < b) by lra;
              destruct (Rlt_dec a b); [contradiction | clear H] ]
  | |- context [Rle_dec ?a ?b] =>
      let H := fresh in
      first [ assert (H : a <= b) by lra;
              destruct (Rle_dec a b); [clear H | contradiction]
            | assert (H : ~ a <= b) by lra;
              destruct (Rle_dec a b); [contradiction | clear H] ]
  | |- context [Req_dec_T ?a ?b] =>
      let H := fresh in
      first [ assert (H : a = b) by lra;
              destruct (Req_dec_T a b); [clear H | contradiction]
            | assert (H : a <> b) by lra;
              destruct (Req_dec_T a b); [contradiction | clear H] ]
  end.

Ltac decide_comparisons := repeat (cbn; decide_comparison).

(** On a diagonal matrix the power iteration started from an axis whose
    diagonal element is positive converges at once, to that axis. *)
Lemma power_iteration_axis (e0 e1 e2 : R) (k : index3) (fuel : nat) :
  0 < get3 (mk3 e0 e1 e2) k ->
  recursively_multiply (S fuel) (Xaniso_as_SymMx33 (mk6 e0 e1 e2 0 0 0))
    (axis k) default_tolerance
  = Returns (axis k).
Proof.
  intros He. unfold recursively_multiply. rewrite loop_S.
  set (D := Xaniso_as_SymMx33 (mk6 e0 e1 e2 0 0 0)).
  assert (EMV : MatrixLite.multiply_33_31 D (axis k)
                = scale3 (get3 (mk3 e0 e1 e2) k) (axis k)).
  { destruct k;
      unfold D, Xaniso_as_SymMx33, MatrixLite.multiply_33_31, axis, scale3,
        map3;
      cbn; f_equal; ring. }
  assert (ES : std_sqrt (dot3 (MatrixLite.multiply_33_31 D (axis k))
                          (MatrixLite.multiply_33_31 D (axis k)))
               = get3 (mk3 e0 e1 e2) k).
  { rewrite EMV. set (e := get3 _ k) in *.
    replace (dot3 (scale3 e (axis k)) (scale3 e (axis k))) with (e * e)
      by (destruct k; unfold dot3, scale3, axis, map3; cbn; ring).
    change (sqrt (e * e) = e). apply sqrt_square. lra. }
  assert (EN : normalized_product D (axis k) = axis k).
  { unfold normalized_product. cbn zeta. rewrite ES, EMV.
    destruct k; unfold div3, scale3, axis, map3; cbn in He |- *; f_equal;
      field; lra. }
  assert (EZ : product_is_zero D (axis k) = false).
  { unfold product_is_zero. cbn zeta. rewrite ES. cbn. unfold Exact.Reqb.
    destruct Req_dec_T; [lra|reflexivity]. }
  unfold one_pass, negative_convergence, convergence, scaled_tolerance.
  rewrite EZ, EN.
  destruct k; unfold axis, default_tolerance, MatrixLite.approx_equal,
    MatrixLite.approx_equal_scaled, array_abs, array_max_index, fabs, neg3,
    map3, get3, set3, assign3; cbn;
    unfold Exact.Rltb, Exact.Rleb; decide_comparisons; reflexivity.
Qed.

Lemma extremal_eigenvector_diagonal (e0 e1 e2 : R) (fuel : nat) :
  0 < e0 -> 0 < e1 -> 0 < e2 ->
  extremal_eigenvector
    (fun M V => recursively_multiply (S fuel) M V default_tolerance)
    (Xaniso_as_SymMx33 (mk6 e0 e1 e2 0 0 0))
  = Returns (axis (array_max_index (array_abs (mk3 e0 e1 e2)))).
Proof.
  intros H0 H1 H2. unfold extremal_eigenvector.
  change (MatrixLite.DiagonalElements (Xaniso_as_SymMx33 (mk6 e0 e1 e2 0 0 0)))
    with (mk3 e0 e1 e2).
  set (k := array_max_index (array_abs (mk3 e0 e1 e2))).
  change (set3 (assign3 (of_int 0)) k (of_int 1)) with (@axis R Exact.exact k).
  rewrite power_iteration_axis by (destruct k; cbn; assumption).
  cbn [bind].
  replace (eqb (dot3 (axis k) (axis k)) (of_int 0)) with false; [reflexivity|].
  destruct k; unfold dot3, axis; cbn; unfold Exact.Reqb;
    decide_comparisons; reflexivity.
Qed.

Lemma Eigenvectors_diagonal (d0 d1 d2 tolerance : R) (fuel : nat) :
  0 < d0 -> 0 < d1 -> 0 < d2 ->
  Eigenvectors (S fuel) (mk6 d0 d1 d2 0 0 0) tolerance =
  let result_0 := axis (array_max_index (array_abs (mk3 d0 d1 d2))) in
  let result_1 :=
    axis (array_max_index (array_abs (mk3 (/ d0) (/ d1) (/ d2)))) in
  let result_2 := MatrixLite.cross_product result_0 result_1 in
  cctbx_assert (negb (eqb (dot3 result_2 result_2) (of_int 0)))
    "result[2] * result[2] != 0." ;;;
  Returns (mk3 result_0 result_1 result_2).
Proof.
  intros H0 H1 H2. unfold Eigenvectors, Eigenvectors_with.
  assert (Ed : MatrixLite.Determinant (Xaniso_as_SymMx33 (mk6 d0 d1 d2 0 0 0))
               = d0 * d1 * d2)
    by (unfold MatrixLite.Determinant; cbn; ring).
  assert (Hd : 0 < d0 * d1 * d2)
    by (repeat apply Rmult_lt_0_compat; assumption).
  rewrite Ed.
  replace (eqb (d0 * d1 * d2) (of_int 0)) with false
    by (cbn; unfold Exact.Reqb; destruct Req_dec_T; [lra|reflexivity]).
  replace (div9 (MatrixLite.CoFactorMxTp
                   (Xaniso_as_SymMx33 (mk6 d0 d1 d2 0 0 0))) (d0 * d1 * d2))
    with (Xaniso_as_SymMx33 (mk6 (/ d0) (/ d1) (/ d2) 0 0 0))
    by (unfold div9, map9, MatrixLite.CoFactorMxTp, Xaniso_as_SymMx33; cbn;
        f_equal; field; lra).
  rewrite !extremal_eigenvector_diagonal
    by (try assumption; apply Rinv_0_lt_compat; assumption).
  reflexivity.
Qed.

Lemma Eigenvectors_diagonal_increasing (d0 d1 d2 tolerance : R) (fuel : nat) :
  0 < d0 -> d0 < d1 -> d1 < d2 ->
  Eigenvectors (S fuel) (mk6 d0 d1 d2 0 0 0) tolerance
  = Returns (mk3 (mk3 0 0 1) (mk3 1 0 0) (mk3 0 1 0)).
Proof.
  intros H0 H01 H12.
  assert (H1 : 0 < d1) by lra. assert (H2 : 0 < d2) by lra.
  rewrite (Eigenvectors_diagonal tolerance fuel H0 H1 H2). cbn zeta.
  assert (I0 : 0 < / d0) by (apply Rinv_0_lt_compat; assumption).
  assert (I1 : 0 < / d1) by (apply Rinv_0_lt_compat; assumption).
  assert (I2 : 0 < / d2) by (apply Rinv_0_lt_compat; assumption).
  assert (I10 : / d1 < / d0) by (apply Rinv_lt_contravar; nra).
  assert (I21 : / d2 < / d1) by (apply Rinv_lt_contravar; nra).
  unfold array_max_index, array_abs, fabs, map3, get3.
  cbn. unfold Exact.Rltb. decide_comparisons.
  unfold dot3, MatrixLite.cross_product, axis; cbn; unfold Exact.Reqb;
    decide_comparisons.
  cbn [negb cctbx_assert bind]. f_equal. f_equal. f_equal; ring.
Qed.

Lemma dot3_self_nonnegative (w : array3 R) : 0 <= dot3 w w.
Proof.
  destruct w as [a b c]. unfold dot3. cbn. nra.
Qed.

Lemma dot3_div3 (w : array3 R) (s : R) :
  s <> 0 -> dot3 (div3 w s) (div3 w s) = dot3 w w / (s * s).
Proof.
  intros Hs. destruct w as [a b c]. unfold dot3, div3, map3. cbn.
  field. exact Hs.
Qed.

(** A vector the power iteration returns has squared length zero (it is a
    zero product) or one (it was normalized). *)
Lemma loop_returns_unit_or_zero (fuel : nat) :
  forall (M : array9 R) (tolerance : R) (V v : array3 R) (c : N),
    recursively_multiply_loop fuel M tolerance V c = Returns v ->
    dot3 v v = 0 \/ dot3 v v = 1.
Proof.
  induction fuel as [|fuel IH]; intros M tolerance V v c H; [discriminate|].
  rewrite loop_S in H. unfold one_pass in H.
  destruct (product_is_zero M V) eqn:EZ.
  - injection H as <-. left. unfold product_is_zero in EZ. cbn zeta in EZ.
    cbn [eqb Exact.exact] in EZ. unfold Exact.Reqb in EZ.
    destruct Req_dec_T as [E|]; [|discriminate].
    apply sqrt_eq_0 in E; [exact E | apply dot3_self_nonnegative].
  - destruct (negative_convergence M tolerance V); [discriminate|].
    destruct (convergence M tolerance V).
    + injection H as <-. right. unfold product_is_zero in EZ. cbn zeta in EZ.
      cbn [eqb Exact.exact] in EZ. unfold Exact.Reqb in EZ.
      destruct Req_dec_T as [|E]; [discriminate|].
      unfold normalized_product. cbn zeta.
      set (w := MatrixLite.multiply_33_31 M V) in *.
      change (std_sqrt (dot3 w w)) with (sqrt (dot3 w w)) in *.
      change (@of_int R Exact.exact 0) with 0 in E.
      rewrite (dot3_div3 w E).
      rewrite sqrt_sqrt by apply dot3_self_nonnegative.
      assert (Hw : dot3 w w <> 0).
      { intros Hw. apply E. rewrite Hw. apply sqrt_0. }
      field. exact Hw.
    + destruct (N.ltb 1000 (c + 1)); [discriminate|].
      apply (IH _ _ _ _ _ H).
Qed.

(** X23.  In exact arithmetic, when [Eigenvectors] succeeds its first two
    vectors have length one and the third is orthogonal to both. *)
Theorem Eigenvectors_unit_and_orthogonal
    (fuel : nat) (adp : array6 R) (tolerance : R) (ev : array3 (array3 R)) :
  Eigenvectors fuel adp tolerance = Returns ev ->
  dot3 (x0 ev) (x0 ev) = 1
  /\ dot3 (x1 ev) (x1 ev) = 1
  /\ dot3 (x0 ev) (x2 ev) = 0
  /\ dot3 (x1 ev) (x2 ev) = 0.
Proof.
  unfold Eigenvectors, Eigenvectors_with, extremal_eigenvector, throw.
  destruct (eqb (MatrixLite.Determinant (Xaniso_as_SymMx33 adp)) _);
    [discriminate|].
  destruct (recursively_multiply fuel (Xaniso_as_SymMx33 adp) _ _)
    as [r0| |] eqn:E0; cbn [bind]; try discriminate.
  destruct (eqb (dot3 r0 r0) _) eqn:Z0; cbn [bind]; [discriminate|].
  destruct (recursively_multiply fuel (div9 _ _) _ _)
    as [r1| |] eqn:E1; cbn [bind]; try discriminate.
  destruct (eqb (dot3 r1 r1) _) eqn:Z1; cbn [bind]; [discriminate|].
  destruct (negb _); cbn [cctbx_assert bind]; [|discriminate].
  intros H. injection H as <-. cbn [x0 x1 x2].
  apply loop_returns_unit_or_zero in E0, E1.
  cbn [eqb Exact.exact] in Z0, Z1. unfold Exact.Reqb in Z0, Z1.
  destruct (Req_dec_T (dot3 r0 r0) _) as [|N0]; [discriminate|].
  destruct (Req_dec_T (dot3 r1 r1) _) as [|N1]; [discriminate|].
  cbn in N0, N1.
  split; [destruct E0; [contradiction|assumption]|].
  split; [destruct E1; [contradiction|assumption]|].
  unfold dot3, MatrixLite.cross_product. cbn. split; ring.
Qed.

(** X24.  In exact arithmetic, for a diagonal tensor with positive
    components [Eigenvectors] needs one pass per power iteration: its
    first vector is the axis of the first largest component, its second
    the axis of the first smallest component, and it succeeds when the
    two axes differ.  When they are the same axis (the three components
    are equal) the cross product is zero and the final assertion fails. *)
Theorem Eigenvectors_of_diagonal_tensors
    (d0 d1 d2 tolerance : R) (fuel : nat) :
  0 < d0 -> 0 < d1 -> 0 < d2 ->
  (array_max_index (array_abs (mk3 d0 d1 d2))
   <> array_max_index (array_abs (mk3 (/ d0) (/ d1) (/ d2))) ->
   Eigenvectors (S fuel) (mk6 d0 d1 d2 0 0 0) tolerance
   = Returns
       (mk3 (axis (array_max_index (array_abs (mk3 d0 d1 d2))))
            (axis (array_max_index (array_abs (mk3 (/ d0) (/ d1) (/ d2)))))
            (MatrixLite.cross_product
               (axis (array_max_index (array_abs (mk3 d0 d1 d2))))
               (axis (array_max_index
                        (array_abs (mk3 (/ d0) (/ d1) (/ d2))))))))
  /\ (array_max_index (array_abs (mk3 d0 d1 d2))
      = array_max_index (array_abs (mk3 (/ d0) (/ d1) (/ d2))) ->
      Eigenvectors (S fuel) (mk6 d0 d1 d2 0 0 0) tolerance
      = Throws (cctbx_assert_failure "result[2] * result[2] != 0."))
  /\ (d0 < d1 -> d1 < d2 ->
      Eigenvectors (S fuel) (mk6 d0 d1 d2 0 0 0) tolerance
      = Returns (mk3 (mk3 0 0 1) (mk3 1 0 0) (mk3 0 1 0))).
Proof.
  intros H0 H1 H2.
  split; [|split];
    [rewrite (Eigenvectors_diagonal tolerance fuel H0 H1 H2); cbn zeta ..
    | idtac].
  - intros Hne.
    destruct (array_max_index (array_abs (mk3 d0 d1 d2))),
      (array_max_index (array_abs (mk3 (/ d0) (/ d1) (/ d2))));
      try contradiction;
      unfold dot3, MatrixLite.cross_product, axis; cbn; unfold Exact.Reqb;
      decide_comparisons; reflexivity.
  - intros ->.
    destruct (array_max_index (array_abs (mk3 (/ d0) (/ d1) (/ d2))));
      unfold dot3, MatrixLite.cross_product, axis; cbn; unfold Exact.Reqb;
      decide_comparisons; reflexivity.
  - intros H01 H12.
    apply Eigenvectors_diagonal_increasing; assumption.
Qed.

End EigenvectorsExact.

(** ** Witnesses *)

(** The witness of X3: the identity matrix and the start (1, 0, 0). *)
Lemma recursively_multiply_outcome_witness :
  (forall v : array3 float,
     recursively_multiply 1001 (Inputs.diagonal 1 1 1 1) (Inputs.vector 1 0 0)
       default_tolerance = Returns v <->
     exists (k : nat) (Vk : array3 float),
       (k <= 1000)%nat
       /\ unconverged (Inputs.diagonal 1 1 1 1) default_tolerance k
            (Inputs.vector 1 0 0) = Some Vk
       /\ ((product_is_zero (Inputs.diagonal 1 1 1 1) Vk = true
            /\ v = MatrixLite.multiply_33_31 (Inputs.diagonal 1 1 1 1) Vk)
           \/ (product_is_zero (Inputs.diagonal 1 1 1 1) Vk = false
               /\ negative_convergence (Inputs.diagonal 1 1 1 1)
                    default_tolerance Vk = false
               /\ convergence (Inputs.diagonal 1 1 1 1) default_tolerance Vk
                  = true
               /\ v = normalized_product (Inputs.diagonal 1 1 1 1) Vk)))
  /\ (recursively_multiply 1001 (Inputs.diagonal 1 1 1 1) (Inputs.vector 1 0 0)
        default_tolerance = Throws not_positive_definite
      <->
      exists (k : nat) (Vk : array3 float),
        (k <= 1000)%nat
        /\ unconverged (Inputs.diagonal 1 1 1 1) default_tolerance k
             (Inputs.vector 1 0 0) = Some Vk
        /\ product_is_zero (Inputs.diagonal 1 1 1 1) Vk = false
        /\ negative_convergence (Inputs.diagonal 1 1 1 1) default_tolerance Vk
           = true).
Proof.
  apply (@recursively_multiply_outcome _ Binary64.binary64). lia.
Defined.

(** The witness of X4: the diagonal tensor (0.01, 0.02, 0.03, 0, 0, 0). *)
Lemma Eigenvectors_success_witness :
  (MatrixLite.Determinant
     (Xaniso_as_SymMx33 (Inputs.tensor 1 2 3 0 0 0 100)) ==? #0)%fl = false
  /\ (dot3 (Inputs.vector 0 0 1) (Inputs.vector 0 0 1) ==? #0)%fl = false
  /\ (dot3 (Inputs.vector 1 0 0) (Inputs.vector 1 0 0) ==? #0)%fl = false
  /\ (dot3 (Inputs.vector 0 1 0) (Inputs.vector 0 1 0) ==? #0)%fl = false
  /\ Inputs.vector 0 1 0
     = MatrixLite.cross_product (Inputs.vector 0 0 1) (Inputs.vector 1 0 0).
Proof.
  apply (@Eigenvectors_success _ Binary64.binary64 1001
           (Inputs.tensor 1 2 3 0 0 0 100) default_tolerance
           (mk3 (Inputs.vector 0 0 1) (Inputs.vector 1 0 0)
                (Inputs.vector 0 1 0))).
  vm_compute. reflexivity.
Defined.

(** The witness of X5: twice the fuel. *)
Lemma Eigenvectors_terminates_witness :
  Eigenvectors 2002 (Inputs.tensor 1 2 3 0 0 0 100) default_tolerance
  <> OutOfFuel
  /\ Eigenvectors 2002 (Inputs.tensor 1 2 3 0 0 0 100) default_tolerance
     = Eigenvectors 1001 (Inputs.tensor 1 2 3 0 0 0 100) default_tolerance.
Proof.
  apply (@Eigenvectors_terminates _ Binary64.binary64). lia.
Defined.

(** The witness of X6: the two proxies change the gradients of sites 0
    and 1 and leave that of site 2. *)
Lemma residual_sum_touches_only_its_indices_witness :
  length (Inputs.vector 2 0 0 :: Inputs.vector 0 4 0 :: Inputs.vector 0 0 0
          :: nil)
  = length RestraintInputs.zero_gradients
  /\ forall j : nat,
       (forall proxy,
          In proxy (RestraintInputs.proxy_0 :: RestraintInputs.proxy_1 :: nil)
          -> ReferenceCoordinate.i_seqs proxy <> j) ->
       nth_error (Inputs.vector 2 0 0 :: Inputs.vector 0 4 0
                  :: Inputs.vector 0 0 0 :: nil) j
       = nth_error RestraintInputs.zero_gradients j.
Proof.
  apply (@residual_sum_touches_only_its_indices _ Binary64.binary64
           RestraintInputs.sites
           (RestraintInputs.proxy_0 :: RestraintInputs.proxy_1 :: nil)
           RestraintInputs.zero_gradients).
  left. eexists. vm_compute. reflexivity.
Defined.

(** The witness of X7: three sites, three gradients. *)
Lemma residual_sum_finishes_iff_indices_in_range_witness :
  ReferenceCoordinate.reference_coordinate_residual_sum RestraintInputs.sites
    (RestraintInputs.proxy_0 :: RestraintInputs.proxy_5 :: nil)
    RestraintInputs.zero_gradients
  <> ReferenceCoordinate.UndefinedBehaviour
  /\ ((exists residual_sum gradient_array',
         ReferenceCoordinate.reference_coordinate_residual_sum
           RestraintInputs.sites
           (RestraintInputs.proxy_0 :: RestraintInputs.proxy_5 :: nil)
           RestraintInputs.zero_gradients
         = ReferenceCoordinate.Finished residual_sum gradient_array')
      <-> Forall
            (fun proxy =>
               (ReferenceCoordinate.i_seqs proxy
                < length RestraintInputs.sites)%nat)
            (RestraintInputs.proxy_0 :: RestraintInputs.proxy_5 :: nil))
  /\ ((exists text gradient_array',
         ReferenceCoordinate.reference_coordinate_residual_sum
           RestraintInputs.sites
           (RestraintInputs.proxy_0 :: RestraintInputs.proxy_5 :: nil)
           RestraintInputs.zero_gradients
         = ReferenceCoordinate.AssertionFailed text gradient_array')
      <-> Exists
            (fun proxy =>
               (length RestraintInputs.sites
                <= ReferenceCoordinate.i_seqs proxy)%nat)
            (RestraintInputs.proxy_0 :: RestraintInputs.proxy_5 :: nil)).
Proof.
  apply (@residual_sum_finishes_iff_indices_in_range _ Binary64.binary64).
  cbn. lia.
Defined.

(** The witness of X8: the proxy for site 0, then one for a site 5 that
    does not exist, then the proxy for site 1.  The gradient of site 0 has
    been changed when the assertion fails. *)
Lemma residual_sum_assertion_keeps_earlier_gradients_witness :
  ReferenceCoordinate.reference_coordinate_residual_sum RestraintInputs.sites
    ((RestraintInputs.proxy_0 :: nil)
     ++ RestraintInputs.proxy_5 :: RestraintInputs.proxy_1 :: nil)
    RestraintInputs.zero_gradients
  = ReferenceCoordinate.AssertionFailed "i_seqs[0] < sites_cart.size()"
      (Inputs.vector 2 0 0 :: Inputs.vector 0 0 0 :: Inputs.vector 0 0 0
       :: nil).
Proof.
  apply (@residual_sum_assertion_keeps_earlier_gradients _ Binary64.binary64
           RestraintInputs.sites (RestraintInputs.proxy_0 :: nil)
           (RestraintInputs.proxy_1 :: nil) RestraintInputs.proxy_5
           RestraintInputs.zero_gradients
           (Inputs.vector 2 0 0 :: Inputs.vector 0 0 0 :: Inputs.vector 0 0 0
            :: nil)
           (of_int 1)).
  - vm_compute. reflexivity.
  - cbn. lia.
Defined.

Section ExactRestraintRuns.

Import ReferenceCoordinate.
Local Open Scope R_scope.

Lemma exact_run_proxy_0 :
  reference_coordinate_residual_sum RestraintInputs.exact_sites
    (RestraintInputs.exact_proxy_0 :: nil) RestraintInputs.exact_zero_gradients
  = Finished 1 (mk3 2 0 0 :: mk3 0 0 0 :: mk3 0 0 0 :: nil).
Proof.
  unfold reference_coordinate_residual_sum. cbn.
  f_equal; [lra|]. unfold add3. cbn. repeat (f_equal; try lra).
Qed.

Lemma exact_run_proxy_1 :
  reference_coordinate_residual_sum RestraintInputs.exact_sites
    (RestraintInputs.exact_proxy_1 :: nil)
    (mk3 2 0 0 :: mk3 0 0 0 :: mk3 0 0 0 :: nil)
  = Finished 2 (mk3 2 0 0 :: mk3 0 4 0 :: mk3 0 0 0 :: nil).
Proof.
  unfold reference_coordinate_residual_sum. cbn.
  f_equal; [lra|]. unfold add3. cbn. repeat (f_equal; try lra).
Qed.

End ExactRestraintRuns.

(** The witness of X9: the two proxies, one after the other. *)
Lemma residual_sum_of_two_parts_witness :
  ReferenceCoordinate.reference_coordinate_residual_sum
    RestraintInputs.exact_sites
    ((RestraintInputs.exact_proxy_0 :: nil)
     ++ RestraintInputs.exact_proxy_1 :: nil)
    RestraintInputs.exact_zero_gradients
  = ReferenceCoordinate.Finished (1 + 2)%R
      (mk3 2%R 0%R 0%R :: mk3 0%R 4%R 0%R :: mk3 0%R 0%R 0%R :: nil).
Proof.
  apply (@residual_sum_of_two_parts RestraintInputs.exact_sites
           (RestraintInputs.exact_proxy_0 :: nil)
           (RestraintInputs.exact_proxy_1 :: nil)
           RestraintInputs.exact_zero_gradients
           (mk3 2%R 0%R 0%R :: mk3 0%R 0%R 0%R :: mk3 0%R 0%R 0%R :: nil)).
  - apply exact_run_proxy_0.
  - apply exact_run_proxy_1.
Defined.

(** The witness of X10: the proxy for site 0, of weight 1. *)
Lemma residual_sum_not_negative_witness : (0 <= 1)%R.
Proof.
  apply (@residual_sum_not_negative RestraintInputs.exact_sites
           (RestraintInputs.exact_proxy_0 :: nil)
           RestraintInputs.exact_zero_gradients
           (mk3 2%R 0%R 0%R :: mk3 0%R 0%R 0%R :: mk3 0%R 0%R 0%R :: nil)
           1%R).
  - constructor; [cbn; lra | constructor].
  - apply exact_run_proxy_0.
Defined.

(** The witness of X11: the proxy whose reference is where site 2 is. *)
Lemma residual_sum_at_reference_witness :
  ReferenceCoordinate.reference_coordinate_residual_sum
    RestraintInputs.exact_sites (RestraintInputs.exact_proxy_2 :: nil)
    RestraintInputs.exact_zero_gradients
  = ReferenceCoordinate.Finished 0%R RestraintInputs.exact_zero_gradients.
Proof.
  apply (@residual_sum_at_reference RestraintInputs.exact_sites
           (RestraintInputs.exact_proxy_2 :: nil)
           RestraintInputs.exact_zero_gradients).
  - cbn. lia.
  - constructor; [reflexivity | constructor].
Defined.

(** The witness of X12: site 0 moved by (1, 1, 1). *)
Lemma residual_gradient_is_the_gradient_witness :
  exists (r r' : R) (gradient gradient' : array3 R),
    ReferenceCoordinate.reference_coordinate_residual_sum
      RestraintInputs.exact_sites (RestraintInputs.exact_proxy_0 :: nil)
      RestraintInputs.exact_zero_gradients
    = ReferenceCoordinate.Finished r
        (ReferenceCoordinate.assign_nth RestraintInputs.exact_zero_gradients
           (ReferenceCoordinate.i_seqs RestraintInputs.exact_proxy_0)
           (ReferenceCoordinate.add3 (mk3 0%R 0%R 0%R) gradient))
    /\ ReferenceCoordinate.reference_coordinate_residual_sum
         (ReferenceCoordinate.add3 (mk3 1%R 0%R 0%R) (mk3 1%R 1%R 1%R) :: nil)
         (RestraintInputs.exact_proxy_0 :: nil)
         RestraintInputs.exact_zero_gradients
       = ReferenceCoordinate.Finished r'
           (ReferenceCoordinate.assign_nth RestraintInputs.exact_zero_gradients
              (ReferenceCoordinate.i_seqs RestraintInputs.exact_proxy_0)
              (ReferenceCoordinate.add3 (mk3 0%R 0%R 0%R) gradient'))
    /\ r' = (r + (x0 gradient * 1 + x1 gradient * 1 + x2 gradient * 1)
             + ReferenceCoordinate.weight RestraintInputs.exact_proxy_0
               * (1 * 1 + 1 * 1 + 1 * 1))%R.
Proof.
  apply (@residual_gradient_is_the_gradient RestraintInputs.exact_sites
           (ReferenceCoordinate.add3 (mk3 1%R 0%R 0%R) (mk3 1%R 1%R 1%R) :: nil)
           RestraintInputs.exact_proxy_0 (mk3 1%R 0%R 0%R) (mk3 1%R 1%R 1%R)
           (mk3 0%R 0%R 0%R) RestraintInputs.exact_zero_gradients);
    reflexivity.
Defined.

(** The witness of X23 and of X24: the diagonal tensor (1, 2, 3, 0, 0, 0). *)
Lemma Eigenvectors_unit_and_orthogonal_witness :
  dot3 (mk3 0%R 0%R 1%R) (mk3 0%R 0%R 1%R) = 1%R
  /\ dot3 (mk3 1%R 0%R 0%R) (mk3 1%R 0%R 0%R) = 1%R
  /\ dot3 (mk3 0%R 0%R 1%R) (mk3 0%R 1%R 0%R) = 0%R
  /\ dot3 (mk3 1%R 0%R 0%R) (mk3 0%R 1%R 0%R) = 0%R.
Proof.
  apply (@Eigenvectors_unit_and_orthogonal 1 (mk6 1%R 2%R 3%R 0%R 0%R 0%R)
           default_tolerance
           (mk3 (mk3 0%R 0%R 1%R) (mk3 1%R 0%R 0%R) (mk3 0%R 1%R 0%R))).
  apply Eigenvectors_diagonal_increasing; lra.
Defined.

Lemma Eigenvectors_of_diagonal_tensors_witness :
  (array_max_index (array_abs (mk3 1%R 2%R 3%R))
   <> array_max_index (array_abs (mk3 (/ 1)%R (/ 2)%R (/ 3)%R)) ->
   Eigenvectors 1 (mk6 1%R 2%R 3%R 0%R 0%R 0%R) default_tolerance
   = Returns
       (mk3 (axis (array_max_index (array_abs (mk3 1%R 2%R 3%R))))
            (axis (array_max_index
                     (array_abs (mk3 (/ 1)%R (/ 2)%R (/ 3)%R))))
            (MatrixLite.cross_product
               (axis (array_max_index (array_abs (mk3 1%R 2%R 3%R))))
               (axis (array_max_index
                        (array_abs (mk3 (/ 1)%R (/ 2)%R (/ 3)%R)))))))
  /\ (array_max_index (array_abs (mk3 1%R 2%R 3%R))
      = array_max_index (array_abs (mk3 (/ 1)%R (/ 2)%R (/ 3)%R)) ->
      Eigenvectors 1 (mk6 1%R 2%R 3%R 0%R 0%R 0%R) default_tolerance
      = Throws (cctbx_assert_failure "result[2] * result[2] != 0."))
  /\ ((1 < 2)%R -> (2 < 3)%R ->
      Eigenvectors 1 (mk6 1%R 2%R 3%R 0%R 0%R 0%R) default_tolerance
      = Returns (mk3 (mk3 0%R 0%R 1%R) (mk3 1%R 0%R 0%R) (mk3 0%R 1%R 0%R))).
Proof.
  apply (@Eigenvectors_of_diagonal_tensors 1%R 2%R 3%R default_tolerance 0);
    lra.
Defined.

(** ** The order of the eigenvalues *)

Section EigenvaluesOrder.

Local Open Scope R_scope.

Lemma Rpow_nonnegative (x y : R) : 0 <= Exact.Rpow x y.
Proof.
  unfold Exact.Rpow. destruct Req_dec_T; [lra|].
  unfold Rpower. left. apply exp_pos.
Qed.

Lemma cardan_roots_ordered (adp : array6 R) :
  cardan_root adp 1 <= cardan_root adp 2 <= cardan_root adp 0.
Proof.
  unfold cardan_root. cbn -[cubic_p3 cubic_q cubic_r].
  set (phi := acos _). set (rz := 2 * Exact.Rpow _ _).
  assert (Hrz : 0 <= rz)
    by (unfold rz;
        pose proof (Rpow_nonnegative (sqrt (- cubic_p3 adp / 27)) (1 / 3));
        lra).
  destruct (acos_bound (- cubic_q adp / (2 * sqrt (- cubic_p3 adp / 27))))
    as [Hp0 Hp1]. fold phi in Hp0, Hp1.
  pose proof PI_RGT_0 as Hpi.
  assert (E2 : cos ((phi + 4 * PI) / 3) = cos ((2 * PI - phi) / 3)).
  { replace ((phi + 4 * PI) / 3) with (- ((2 * PI - phi) / 3) + 2 * INR 1 * PI)
      by (simpl; field).
    rewrite cos_period. apply cos_neg. }
  rewrite E2.
  replace ((phi + 0 * PI) / 3) with (phi / 3) by field.
  assert (C1 : cos ((phi + 2 * PI) / 3) <= cos ((2 * PI - phi) / 3))
    by (apply cos_decr_1; lra).
  assert (C2 : cos ((2 * PI - phi) / 3) <= cos (phi / 3))
    by (apply cos_decr_1; lra).
  split; nra.
Qed.

(** X25.  In exact arithmetic, when [Eigenvalues] succeeds on a tensor
    whose reduced cubic has [p <> 0] (the three eigenvalues are not all
    equal, so that no divisor of the formula is zero), the first value it
    returns is the largest of the three and the second the smallest: the
    order of the vectors of [Eigenvectors], which takes its first vector
    from the tensor and its second from the inverse. *)
Theorem Eigenvalues_order (adp : array6 R) (ev : array3 R) :
  Eigenvalues adp = Returns ev ->
  cubic_p adp <> 0 ->
  x1 ev <= x2 ev <= x0 ev.
Proof.
  intros H _. pose proof (cardan_roots_ordered adp) as Hord.
  unfold Eigenvalues, cctbx_assert, bind, throw in H.
  destruct (leb (cubic_D adp) _); [|discriminate].
  repeat (destruct (leb (cardan_root adp _) _); [discriminate|]).
  injection H as <-. exact Hord.
Qed.

End EigenvaluesOrder.

(** The witness of X25: the tensor (1, 3, 3, 0, 0, 0), whose reduced
    cubic has p = -4/3. *)
Lemma Eigenvalues_order_witness : (1 <= 3 <= 3)%R.
Proof.
  apply (@Eigenvalues_order (Inputs.exact_tensor 1 3 3 0 0 0)
           (mk3 3%R 1%R 3%R)).
  - apply Eigenvalues_1_3_3.
  - unfold cubic_p, cubic_r, cubic_s. cbn. lra.
Defined.

(** ** The order of the proxies *)

Section ProxyOrder.

Import ReferenceCoordinate.
Local Open Scope R_scope.

Variable sites_cart : list (array3 R).

Lemma assign_nth_assign_nth_same (A : Type) (a : list A) (i : nat) (x y : A) :
  assign_nth (assign_nth a i x) i y = assign_nth a i y.
Proof.
  revert i. induction a as [|z a IH]; intros [|i]; cbn; auto. now rewrite IH.
Qed.

Lemma assign_nth_commute (A : Type) (a : list A) (i j : nat) (x y : A) :
  i <> j ->
  assign_nth (assign_nth a i x) j y = assign_nth (assign_nth a j y) i x.
Proof.
  revert i j. induction a as [|z a IH]; intros [|i] [|j] H; cbn; auto.
  - contradiction.
  - rewrite IH; auto.
Qed.

Lemma nth_error_assign_nth_same (A : Type) (a : list A) (i : nat) (x : A) :
  (i < length a)%nat -> nth_error (assign_nth a i x) i = Some x.
Proof.
  revert i. induction a as [|z a IH]; intros [|i] H; cbn in *; try lia; auto.
  apply IH. lia.
Qed.

Lemma residual_sum_loop_permutation
    (l l' : list (reference_coordinate_proxy R)) :
  Permutation l l' ->
  forall (r r' : R) (G G' : list (array3 R)),
    residual_sum_loop sites_cart l r G = Finished r' G' ->
    residual_sum_loop sites_cart l' r G = Finished r' G'.
Proof.
  induction 1 as [|x l l' HP IH|x y l|l l' l'' HP1 IH1 HP2 IH2];
    intros r r' G G' H.
  - exact H.
  - cbn [residual_sum_loop] in *.
    destruct (nth_error sites_cart (i_seqs x)); [|discriminate].
    destruct (nth_error G (i_seqs x)); [|discriminate].
    apply IH. exact H.
  - cbn [residual_sum_loop] in *.
    destruct (nth_error sites_cart (i_seqs y)) as [sy|]; [|discriminate].
    destruct (nth_error G (i_seqs y)) as [gy|] eqn:Egy; [|discriminate].
    destruct (nth_error sites_cart (i_seqs x)) as [sx|]; [|discriminate].
    destruct (Nat.eq_dec (i_seqs x) (i_seqs y)) as [E|NE].
    + rewrite E in *. rewrite Egy.
      assert (Hlt : (i_seqs y < length G)%nat)
        by (apply nth_error_Some; congruence).
      rewrite !nth_error_assign_nth_same in * by exact Hlt.
      rewrite !assign_nth_assign_nth_same in *.
      rewrite <- H. f_equal.
      * cbn. ring.
      * f_equal. unfold add3. cbn. f_equal; ring.
    + rewrite assign_nth_other in H by auto.
      destruct (nth_error G (i_seqs x)) as [gx|] eqn:Egx; [|discriminate].
      rewrite assign_nth_other by auto. rewrite Egy.
      rewrite <- H. f_equal.
      * cbn. ring.
      * apply assign_nth_commute. auto.
  - eauto.
Qed.

(** X26.  In exact arithmetic the order of the proxies does not matter:
    when [reference_coordinate_residual_sum] finishes on a list of
    proxies, it finishes on every rearrangement of the list with the same
    residual sum and the same gradient array, also when several proxies
    name the same site. *)
Theorem residual_sum_ignores_the_order
    (proxies proxies' : list (reference_coordinate_proxy R))
    (G G' : list (array3 R)) (r : R) :
  Permutation proxies proxies' ->
  reference_coordinate_residual_sum sites_cart proxies G = Finished r G' ->
  reference_coordinate_residual_sum sites_cart proxies' G = Finished r G'.
Proof.
  unfold reference_coordinate_residual_sum. intros HP H.
  apply (residual_sum_loop_permutation HP _ _ H).
Qed.

End ProxyOrder.

Section ExactRestraintRunOfBoth.

Import ReferenceCoordinate.
Local Open Scope R_scope.

Lemma exact_run_both :
  reference_coordinate_residual_sum RestraintInputs.exact_sites
    (RestraintInputs.exact_proxy_0 :: RestraintInputs.exact_proxy_1 :: nil)
    RestraintInputs.exact_zero_gradients
  = Finished 3 (mk3 2 0 0 :: mk3 0 4 0 :: mk3 0 0 0 :: nil).
Proof.
  unfold reference_coordinate_residual_sum. cbn.
  f_equal; [lra|]. unfold add3. cbn. repeat (f_equal; try lra).
Qed.

End ExactRestraintRunOfBoth.

(** The witness of X26: the two proxies, exchanged. *)
Lemma residual_sum_ignores_the_order_witness :
  ReferenceCoordinate.reference_coordinate_residual_sum
    RestraintInputs.exact_sites
    (RestraintInputs.exact_proxy_1 :: RestraintInputs.exact_proxy_0 :: nil)
    RestraintInputs.exact_zero_gradients
  = ReferenceCoordinate.Finished 3%R
      (mk3 2%R 0%R 0%R :: mk3 0%R 4%R 0%R :: mk3 0%R 0%R 0%R :: nil).
Proof.
  apply (@residual_sum_ignores_the_order RestraintInputs.exact_sites
           (RestraintInputs.exact_proxy_0 :: RestraintInputs.exact_proxy_1
            :: nil)
           (RestraintInputs.exact_proxy_1 :: RestraintInputs.exact_proxy_0
            :: nil)).
  - apply perm_swap.
  - apply exact_run_both.
Defined.

(** ** NaN components in double precision *)

Section NaNComponents.

Import Binary64.

Lemma Prim2SF_nan_inv (x : float) : Prim2SF x = S754_nan -> x = PrimFloat.nan.
Proof.
  intros H. apply Prim2SF_inj. rewrite H. reflexivity.
Qed.

Lemma nan_add_l (y : float) : PrimFloat.add PrimFloat.nan y = PrimFloat.nan.
Proof.
  apply Prim2SF_nan_inv. rewrite FloatAxioms.add_spec. reflexivity.
Qed.

Lemma nan_add_r (x : float) : PrimFloat.add x PrimFloat.nan = PrimFloat.nan.
Proof.
  apply Prim2SF_nan_inv. rewrite FloatAxioms.add_spec.
  change (Prim2SF PrimFloat.nan) with S754_nan.
  unfold SF64add, SFadd. destruct (Prim2SF x); reflexivity.
Qed.

Lemma nan_sub_l (y : float) : PrimFloat.sub PrimFloat.nan y = PrimFloat.nan.
Proof.
  apply Prim2SF_nan_inv. rewrite FloatAxioms.sub_spec. reflexivity.
Qed.

Lemma nan_sub_r (x : float) : PrimFloat.sub x PrimFloat.nan = PrimFloat.nan.
Proof.
  apply Prim2SF_nan_inv. rewrite FloatAxioms.sub_spec.
  change (Prim2SF PrimFloat.nan) with S754_nan.
  unfold SF64sub, SFsub. destruct (Prim2SF x); reflexivity.
Qed.

Lemma nan_mul_l (y : float) : PrimFloat.mul PrimFloat.nan y = PrimFloat.nan.
Proof.
  apply Prim2SF_nan_inv. rewrite FloatAxioms.mul_spec. reflexivity.
Qed.

Lemma nan_mul_r (x : float) : PrimFloat.mul x PrimFloat.nan = PrimFloat.nan.
Proof.
  apply Prim2SF_nan_inv. rewrite FloatAxioms.mul_spec.
  change (Prim2SF PrimFloat.nan) with S754_nan.
  unfold SF64mul, SFmul. destruct (Prim2SF x); reflexivity.
Qed.

Lemma nan_div_l (y : float) : PrimFloat.div PrimFloat.nan y = PrimFloat.nan.
Proof.
  apply Prim2SF_nan_inv. rewrite FloatAxioms.div_spec. reflexivity.
Qed.

Lemma nan_opp : PrimFloat.opp PrimFloat.nan = PrimFloat.nan.
Proof.
  reflexivity.
Qed.

(** Carries a NaN from an operand to the result of the operations. *)
Ltac nan_through :=
  repeat first
    [ rewrite nan_add_l | rewrite nan_add_r | rewrite nan_sub_l
    | rewrite nan_sub_r | rewrite nan_mul_l | rewrite nan_mul_r
    | rewrite nan_div_l | rewrite nan_opp ].

Lemma cubic_D_nan (adp : array6 float) :
  a0 adp = PrimFloat.nan \/ a1 adp = PrimFloat.nan \/ a2 adp = PrimFloat.nan
  \/ a3 adp = PrimFloat.nan \/ a4 adp = PrimFloat.nan
  \/ a5 adp = PrimFloat.nan ->
  cubic_D adp = PrimFloat.nan.
Proof.
  destruct adp as [t0 t1 t2 t3 t4 t5]. cbn [a0 a1 a2 a3 a4 a5].
  unfold cubic_D, cubic_p3, cubic_p, cubic_q, cubic_r, cubic_s, cubic_t.
  cbn.
  intros [-> | [-> | [-> | [-> | [-> | ->]]]]]; nan_through; reflexivity.
Qed.

(** X27.  In double precision a tensor with a NaN among its six
    components makes [Eigenvalues] fail on the assertion
    [cctbx_assert(D <= 0.)], whatever the other components and the <cmath>
    functions are: D is NaN, and NaN does not compare [<= 0.]. *)
Theorem Eigenvalues_of_nan (m : Libm) (adp : array6 float) :
  a0 adp = PrimFloat.nan \/ a1 adp = PrimFloat.nan \/ a2 adp = PrimFloat.nan
  \/ a3 adp = PrimFloat.nan \/ a4 adp = PrimFloat.nan
  \/ a5 adp = PrimFloat.nan ->
  @Eigenvalues float binary64 (cmath m) adp
  = Throws (cctbx_assert_failure "D <= 0.").
Proof.
  intros H. apply Eigenvalues_assertion. rewrite (cubic_D_nan _ H).
  reflexivity.
Qed.

End NaNComponents.

(** The witness of X27: NaN as the component 12 of the tensor. *)
Lemma Eigenvalues_of_nan_witness :
  a3 (mk6 PrimFloat.one PrimFloat.one PrimFloat.one PrimFloat.nan
          PrimFloat.zero PrimFloat.zero) = PrimFloat.nan
  /\ forall m : Binary64.Libm,
       @Eigenvalues float Binary64.binary64 (Binary64.cmath m)
         (mk6 PrimFloat.one PrimFloat.one PrimFloat.one PrimFloat.nan
              PrimFloat.zero PrimFloat.zero)
       = Throws (cctbx_assert_failure "D <= 0.").
Proof.
  split; [reflexivity|]. intros m.
  apply (@Eigenvalues_of_nan m
           (mk6 PrimFloat.one PrimFloat.one PrimFloat.one PrimFloat.nan
                PrimFloat.zero PrimFloat.zero)).
  right. right. right. left. reflexivity.
Defined.

(** ** The Debye-Waller factor and the basis of the tensor *)

Section DebyeWallerBasis.

Local Open Scope R_scope.

(** X28.  In exact arithmetic, for a unit cell whose fractionalization
    matrix times its orthogonalization matrix is the identity, the
    Debye-Waller factor does not depend on the basis the tensor is given
    in: a tensor given in reciprocal-star or in fractional form has the
    same factor as its Cartesian form, and a tensor in fractional form
    the same as its beta form. *)
Theorem DebyeWaller_factor_in_any_basis
    (uc : UnitCell R) (MIx : Miller_Index) (U : array6 R) :
  MatrixLite.multiply_33_33 (getFractionalizationMatrix uc)
    (getOrthogonalizationMatrix uc) = identity9 ->
  DebyeWallerFactorUcart uc MIx (Ustar_as_Ucart uc U)
  = DebyeWallerFactorUstar MIx U
  /\ DebyeWallerFactorUcart uc MIx (Uuvrs_as_Ucart uc U)
     = DebyeWallerFactorUuvrs uc MIx U
  /\ DebyeWallerFactor_beta MIx (Uuvrs_as_beta uc U)
     = DebyeWallerFactorUuvrs uc MIx U.
Proof.
  intros HI.
  assert (E : forall X, Ucart_as_Ustar uc (Ustar_as_Ucart uc X) = X).
  { intros X. unfold Ustar_as_Ucart, Ucart_as_Ustar.
    rewrite A_Xaniso_At_compose, HI. apply A_Xaniso_At_identity. }
  unfold DebyeWallerFactorUcart, DebyeWallerFactorUuvrs, Uuvrs_as_Ucart,
    Uuvrs_as_beta.
  rewrite !E. split; [reflexivity|]. split; [reflexivity|].
  destruct (Uuvrs_as_Ustar uc U).
  unfold DebyeWallerFactor_beta, DebyeWallerFactorUstar, Ustar_as_beta,
    scale6, map6.
  cbn -[TwoPiSquared]. f_equal. ring.
Qed.

(** The reciprocal-star form of an isotropic tensor is the value times
    the form of the isotropic tensor of value one. *)
Lemma Ucart_as_Ustar_isotropic (uc : UnitCell R) (Uiso : R) :
  Ucart_as_Ustar uc (Uiso_as_Ucart Uiso)
  = scale6 Uiso (Ucart_as_Ustar uc (Uiso_as_Ucart 1)).
Proof.
  unfold Ucart_as_Ustar. rewrite <- A_Xaniso_At_scale. f_equal.
  unfold Uiso_as_Ucart, assign6, scale6, map6.
  cbn [a0 a1 a2 a3 a4 a5 mul of_int Exact.exact]. f_equal; ring.
Qed.

(** X29.  In exact arithmetic, for a Miller index whose products do not
    overflow the C++ [int] and a unit cell whose [Q] is the quadratic
    form of the reciprocal metric (the fractionalization matrix times its
    transpose), the anisotropic Debye-Waller factor of the isotropic
    tensor with value [Uiso] is the isotropic factor of [Uiso]. *)
Theorem DebyeWaller_isotropic_tensor
    (uc : UnitCell R) (MIx : Miller_Index) (Uiso : R) :
  index_products_fit MIx = true ->
  Q uc MIx
  = IZR (x0 MIx * x0 MIx) * a0 (Ucart_as_Ustar uc (Uiso_as_Ucart 1))
    + IZR (x1 MIx * x1 MIx) * a1 (Ucart_as_Ustar uc (Uiso_as_Ucart 1))
    + IZR (x2 MIx * x2 MIx) * a2 (Ucart_as_Ustar uc (Uiso_as_Ucart 1))
    + IZR (2 * x0 MIx * x1 MIx) * a3 (Ucart_as_Ustar uc (Uiso_as_Ucart 1))
    + IZR (2 * x0 MIx * x2 MIx) * a4 (Ucart_as_Ustar uc (Uiso_as_Ucart 1))
    + IZR (2 * x1 MIx * x2 MIx) * a5 (Ucart_as_Ustar uc (Uiso_as_Ucart 1)) ->
  DebyeWallerFactorUcart uc MIx (Uiso_as_Ucart Uiso)
  = DebyeWallerFactorUiso_uc uc MIx Uiso.
Proof.
  intros _ HQ.
  unfold DebyeWallerFactorUcart, DebyeWallerFactorUiso_uc,
    DebyeWallerFactorBiso_uc, DebyeWallerFactorBiso, DebyeWallerFactorUstar,
    U_as_B, EightPiSquared, TwoPiSquared.
  rewrite HQ, Ucart_as_Ustar_isotropic.
  generalize (Ucart_as_Ustar uc (Uiso_as_Ucart 1)).
  intros [t0 t1 t2 t3 t4 t5]. unfold scale6, map6.
  cbn [a0 a1 a2 a3 a4 a5 add sub mul div neg of_int pi std_exp Exact.exact
       Exact.exact_cmath].
  f_equal. field.
Qed.

End DebyeWallerBasis.

(** The witness of X28 and of X29: the orthorhombic cell with edges 1,
    1/2 and 1/3, whose [Q] is h^2 + 4 k^2 + 9 l^2. *)
Lemma DebyeWaller_factor_in_any_basis_witness :
  DebyeWallerFactorUcart Inputs.orthorhombic_cell (mk3 1 2 3)%Z
    (Ustar_as_Ucart Inputs.orthorhombic_cell (Inputs.exact_tensor 1 2 3 4 5 6))
  = DebyeWallerFactorUstar (mk3 1 2 3)%Z (Inputs.exact_tensor 1 2 3 4 5 6)
  /\ DebyeWallerFactorUcart Inputs.orthorhombic_cell (mk3 1 2 3)%Z
       (Uuvrs_as_Ucart Inputs.orthorhombic_cell
          (Inputs.exact_tensor 1 2 3 4 5 6))
     = DebyeWallerFactorUuvrs Inputs.orthorhombic_cell (mk3 1 2 3)%Z
         (Inputs.exact_tensor 1 2 3 4 5 6)
  /\ DebyeWallerFactor_beta (mk3 1 2 3)%Z
       (Uuvrs_as_beta Inputs.orthorhombic_cell
          (Inputs.exact_tensor 1 2 3 4 5 6))
     = DebyeWallerFactorUuvrs Inputs.orthorhombic_cell (mk3 1 2 3)%Z
         (Inputs.exact_tensor 1 2 3 4 5 6).
Proof.
  apply (@DebyeWaller_factor_in_any_basis Inputs.orthorhombic_cell
           (mk3 1 2 3)%Z (Inputs.exact_tensor 1 2 3 4 5 6)).
  unfold MatrixLite.multiply_33_33, identity9. cbn. f_equal; lra.
Defined.

Lemma DebyeWaller_isotropic_tensor_witness :
  DebyeWallerFactorUcart Inputs.orthorhombic_cell (mk3 1 2 3)%Z
    (Uiso_as_Ucart 7%R)
  = DebyeWallerFactorUiso_uc Inputs.orthorhombic_cell (mk3 1 2 3)%Z 7%R.
Proof.
  apply (@DebyeWaller_isotropic_tensor Inputs.orthorhombic_cell
           (mk3 1 2 3)%Z 7%R); [reflexivity|].
  cbv [Ucart_as_Ustar A_Xaniso_At A_X_At SymMx33_as_Xaniso
       Xaniso_as_SymMx33 MatrixLite.multiply_33_33 MatrixLite.transpose
       Uiso_as_Ucart assign6 Inputs.orthorhombic_cell
       getFractionalizationMatrix Q x0 x1 x2
       m0 m1 m2 m3 m4 m5 m6 m7 m8 a0 a1 a2 a3 a4 a5
       add mul of_int Exact.exact Z.mul Pos.mul Pos.add].
  lra.
Defined.

(** ** Adding an isotropic displacement *)

Section IsotropicShift.

Local Open Scope R_scope.

(** X30.  In exact arithmetic, adding the same amount [c] to the three
    diagonal components of a tensor leaves p, q and D of the reduced cubic
    as they are and adds [c] to each of the three roots that [Eigenvalues]
    computes. *)
Theorem Eigenvalues_of_shifted_tensor (adp : array6 R) (c : R) (i : Z) :
  cubic_p (shift_diagonal adp (- c)) = cubic_p adp
  /\ cubic_q (shift_diagonal adp (- c)) = cubic_q adp
  /\ cubic_D (shift_diagonal adp (- c)) = cubic_D adp
  /\ cardan_root (shift_diagonal adp (- c)) i = cardan_root adp i + c.
Proof.
  assert (Ep : cubic_p (shift_diagonal adp (- c)) = cubic_p adp).
  { destruct adp. unfold cubic_p, cubic_r, cubic_s, shift_diagonal. cbn.
    field. }
  assert (Eq : cubic_q (shift_diagonal adp (- c)) = cubic_q adp).
  { destruct adp. unfold cubic_q, cubic_r, cubic_s, cubic_t, shift_diagonal.
    cbn. field. }
  assert (Er : cubic_r (shift_diagonal adp (- c)) = cubic_r adp - 3 * c).
  { destruct adp. unfold cubic_r, shift_diagonal. cbn. ring. }
  split; [exact Ep|]. split; [exact Eq|].
  split.
  - unfold cubic_D, cubic_p3. rewrite Ep, Eq. reflexivity.
  - unfold cardan_root, cubic_p3. rewrite Ep, Eq, Er. cbn. field.
Qed.

End IsotropicShift.
